(** * GoodreadsAnalysis: the Book entity and the report engines

    A shallow embedding of [utils/transformers.py] (the read-vs-unread and
    best-ranked reports) and of the Book contract those engines rely on.
    Python ints are [Z], Python floats are IEEE 754 binary64 values taken
    from the standard library's [spec_float], a [defaultdict(int)] is an
    association list kept in insertion order, and an exception is an
    explicit outcome of the function that raises it. *)

From Stdlib Require Import ZArith Lia Bool Ascii String DecimalString.
From Stdlib Require Import Floats.SpecFloat.
From stdpp Require Import base option list sorting strings gmap.

Local Open Scope Z_scope.

(** ** Exceptions

    The exceptions that the modelled code can raise.  A function that can
    raise returns [exn + A]; a method that mutates its object and can raise
    half-way returns the state it leaves behind together with
    [option exn]. *)

Inductive exn : Set :=
  | ZeroDivisionError
  | NameError
  | OverflowError
  | ValueError
  | IndexError
  | TypeError
  | AttributeError
  | NotOwnedAtSpecifiedDateError.

Global Instance exn_eq_dec : EqDecision exn.
Proof. solve_decision. Defined.

(** ** Python floats *)

Module PyFloat.

Definition prec : Z := 53.
Definition emax : Z := 1024.

Global Instance spec_float_eq_dec : EqDecision spec_float.
Proof. solve_decision. Defined.

(** [float(z)]: the binary64 value nearest to the integer [z]. *)
Definition float_of_int (z : Z) : spec_float :=
  binary_normalize prec emax z 0 false.

(** [a / b] on two ints under [from __future__ import division].  CPython
    rounds the exact quotient once, whatever the size of the operands, and
    raises [OverflowError] when it is too large for a float: the quotient
    and remainder of the integer division go to the library's rounding.
    For operands that convert exactly this is the IEEE quotient of the two
    converted operands ([true_div_is_SFdiv] checks a grid of them). *)
Definition true_div (a b : Z) : exn + spec_float :=
  if b =? 0 then inl ZeroDivisionError
  else
    let '(m, e, l) := SFdiv_core_binary prec emax (Z.abs a) 0 (Z.abs b) 0 in
    match binary_round_aux prec emax (xorb (a <? 0) (b <? 0)) m e l with
    | S754_infinity _ => inl OverflowError
    | q => inr q
    end.

Definition float_mul (x y : spec_float) : spec_float := SFmul prec emax x y.

(** [int(x)]: truncation towards zero; [int] raises on an infinity and on
    a NaN. *)
Definition int_of_float (x : spec_float) : exn + Z :=
  match x with
  | S754_zero _ => inr 0
  | S754_finite s m e =>
      inr (cond_Zopp s (if 0 <=? e then Zpos m * 2 ^ e
                        else Zpos m / 2 ^ (- e)))
  | S754_infinity _ => inl OverflowError
  | S754_nan => inl ValueError
  end.

(** Zero, or a finite float of magnitude below [2 ^ hi]. *)
Definition below (hi : Z) (x : spec_float) : Prop :=
  match x with
  | S754_zero _ => True
  | S754_finite _ m e => Zpos (digits2_pos m) + e <= hi
  | _ => False
  end.

(** [x - y] and [x == y] on two floats. *)
Definition float_sub (x y : spec_float) : spec_float := SFsub prec emax x y.

Definition float_eqb (x y : spec_float) : bool := SFeqb x y.

(** Zero, or a finite float with no fractional exponent above zero, whose
    magnitude is exactly between the integers [lo] and [hi]:
    [lo <= m * 2 ^ e <= hi], written without fractions. *)
Definition magnitude_between (lo hi : Z) (x : spec_float) : Prop :=
  match x with
  | S754_zero _ => lo <= 0 <= hi
  | S754_finite _ m e =>
      e <= 0 /\ lo * 2 ^ (- e) <= Zpos m <= hi * 2 ^ (- e)
  | _ => False
  end.

Definition sign_of (x : spec_float) : bool :=
  match x with
  | S754_zero s | S754_infinity s | S754_finite s _ _ => s
  | S754_nan => false
  end.

(** A float without the minus sign whose value is between [lo] and
    [hi]. *)
Definition between (lo hi : Z) (x : spec_float) : Prop :=
  sign_of x = false /\ magnitude_between lo hi x.

(** The exact value of a zero or a finite float in units of [2 ^ e0],
    for an exponent [e0] that is not above its own, and the exact order
    of two such floats, taken at the lower of their exponents. *)
Definition scaled (e0 : Z) (x : spec_float) : Z :=
  match x with
  | S754_finite s m e => cond_Zopp s (Zpos m * 2 ^ (e - e0))
  | _ => 0
  end.

Definition low_exponent (x y : spec_float) : Z :=
  match x, y with
  | S754_finite _ _ ex, S754_finite _ _ ey => Z.min ex ey
  | S754_finite _ _ ex, _ => ex
  | _, S754_finite _ _ ey => ey
  | _, _ => 0
  end.

Definition is_number (x : spec_float) : bool :=
  match x with
  | S754_zero _ | S754_finite _ _ _ => true
  | _ => false
  end.

Definition value_lt (x y : spec_float) : Prop :=
  is_number x = true /\ is_number y = true /\
  scaled (low_exponent x y) x < scaled (low_exponent x y) y.

(** A NaN, or a float with the sign [s]. *)
Definition signed (s : bool) (x : spec_float) : Prop :=
  match x with
  | S754_nan => True
  | _ => sign_of x = s
  end.

(** The same in units of [2 ^ - j]: the magnitude is exactly between
    [lo / 2 ^ j] and [hi / 2 ^ j]. *)
Definition magnitude_between_at (j lo hi : Z) (x : spec_float) : Prop :=
  match x with
  | S754_zero _ => lo <= 0 <= hi
  | S754_finite _ m e =>
      e <= - j /\ lo * 2 ^ (- e - j) <= Zpos m <= hi * 2 ^ (- e - j)
  | _ => False
  end.

(** What a shift register of the rounding stands for, at the exponent
    [e]: a value that is at least its mantissa, above it when one of the
    two bits is set, and between [lo / 2 ^ j] and [hi / 2 ^ j]. *)
Definition held (j lo hi : Z) (mrs : shr_record) (e : Z) : Prop :=
  e <= - j /\ 0 <= shr_m mrs /\ lo * 2 ^ (- e - j) <= shr_m mrs /\
  shr_m mrs + (if shr_r mrs || shr_s mrs then 1 else 0)
    <= hi * 2 ^ (- e - j).

(** The pairs [(a, b)] with [0 <= a <= n] and [1 <= b <= n]. *)
Definition grid (n : nat) : list (Z * Z) :=
  a ← seqZ 0 (Z.of_nat n + 1); b ← seqZ 1 (Z.of_nat n); [(a, b)].

End PyFloat.

(** ** [collections.defaultdict(int)]

    A Python dict iterates in insertion order, and the reports build their
    [stats] list by iterating over one, so the table is an association
    list in insertion order with pairwise distinct keys. *)

Section defaultdict.
Context {K : Type} `{EqDecision K}.

Fixpoint dd_find (d : list (K * Z)) (k : K) : option Z :=
  match d with
  | [] => None
  | (k', v) :: d' => if decide (k' = k) then Some v else dd_find d' k
  end.

(** [d[k]] as an expression: [__getitem__], whose [__missing__] stores
    [int()], that is [0], under a key that was absent. *)
Definition dd_getitem (d : list (K * Z)) (k : K) : Z * list (K * Z) :=
  match dd_find d k with
  | Some v => (v, d)
  | None => (0, d ++ [(k, 0)])
  end.

(** [d[k] = v]: an existing key keeps its place. *)
Fixpoint dd_setitem (d : list (K * Z)) (k : K) (v : Z) : list (K * Z) :=
  match d with
  | [] => [(k, v)]
  | (k', v') :: d' =>
      if decide (k' = k) then (k', v) :: d' else (k', v') :: dd_setitem d' k v
  end.

(** [d[k] += n], which is [d[k] = d[k] + n]. *)
Definition dd_iadd (d : list (K * Z)) (k : K) (n : Z) : list (K * Z) :=
  let '(v, d') := dd_getitem d k in dd_setitem d' k (v + n).

(** [for key in d]. *)
Definition dd_keys (d : list (K * Z)) : list K := d.*1.

(** The number a read of [d[k]] produces, whether or not it inserts. *)
Definition dd_value (d : list (K * Z)) (k : K) : Z := default 0 (dd_find d k).
End defaultdict.

(** ** What the reports ask of a grouping key and of a Book

    A key is whatever [property_as_sequence] yields: the reports test its
    truth value, use it as a dict key and compare two keys with [>].  The
    keys of one report come from one attribute, so they are of one kind. *)

Class PyKey (K : Type) := {
  key_eq_dec :: EqDecision K;
  truthy : K -> bool;
  key_gt : K -> K -> bool;
}.

Global Instance int_key : PyKey Z :=
  {| truthy z := negb (z =? 0); key_gt a b := b <? a |}.

Global Instance str_key : PyKey string :=
  {| truthy s := negb (String.eqb s EmptyString); key_gt a b := String.ltb b a |}.

(** The part of the Book contract that [transformers.py] uses.  The
    accessors are the returning calls: an exception raised inside a Book
    property escapes the constructor of the report, and then there is no
    report to speak about. *)
Class BookAPI (Book K : Type) := {
  property_as_sequence : Book -> string -> list K;
  is_unread : Book -> bool;
  rating : Book -> option Z;
}.

(** Python's [sorted(l, key=cmp_to_key(cmp))]: a stable sort that only asks
    [a < b], which [cmp_to_key] answers with [cmp(a, b) < 0]. *)
Section sorted.
Context {A : Type} (cmp : A -> A -> Z).

Definition cmp_lt (a b : A) : bool := cmp a b <? 0.

Fixpoint sorted_insert (x : A) (l : list A) : list A :=
  match l with
  | [] => [x]
  | y :: l' => if cmp_lt y x then y :: sorted_insert x l' else x :: y :: l'
  end.

Definition sorted (l : list A) : list A := foldr sorted_insert [] l.
End sorted.


(** ** [ReadVsUnreadReport] *)

Module RvU.
Section with_books.
Context {K : Type} `{PyKey K} {Book : Type} `{BookAPI Book K}.

(** [namedtuple('ReadVsUnreadStat', 'key, percentage_read, difference')] *)
Record ReadVsUnreadStat := {
  key : K;
  percentage_read : Z;
  difference : Z;
}.

Definition compare_rvustat (a b : ReadVsUnreadStat) : Z :=
  if percentage_read a =? percentage_read b then
    let diff_difference := Z.abs (difference b) - Z.abs (difference a) in
    if diff_difference =? 0 then
      (if key_gt (key a) (key b) then 1 else -1)
    else diff_difference
  else percentage_read a - percentage_read b.

(** The object: its three tables, its flag, and [stats], an attribute that
    only exists once [process] has run. *)
Record ReadVsUnreadReport := {
  unread_count : list (K * Z);
  read_count : list (K * Z);
  grouping_count : list (K * Z);
  ignore_single_book_groups : bool;
  stats : option (list ReadVsUnreadStat);
}.

(** The body of the inner [for key in ...] loop of [__init__]. *)
Definition count_key (ignore_undefined_book_groups : bool) (book : Book)
    (r : ReadVsUnreadReport) (k : K) : ReadVsUnreadReport :=
  if truthy k || negb ignore_undefined_book_groups then
    let gc := dd_iadd (grouping_count r) k 1 in
    if is_unread book then
      {| unread_count := dd_iadd (unread_count r) k 1;
         read_count := read_count r;
         grouping_count := gc;
         ignore_single_book_groups := ignore_single_book_groups r;
         stats := stats r |}
    else
      {| unread_count := unread_count r;
         read_count := dd_iadd (read_count r) k 1;
         grouping_count := gc;
         ignore_single_book_groups := ignore_single_book_groups r;
         stats := stats r |}
  else r.

Definition count_book (key_attribute : string)
    (ignore_undefined_book_groups : bool)
    (r : ReadVsUnreadReport) (book : Book) : ReadVsUnreadReport :=
  foldl (count_key ignore_undefined_book_groups book) r
        (property_as_sequence book key_attribute).

(** [ReadVsUnreadReport(books, key_attribute, ignore_single_book_groups,
    ignore_undefined_book_groups)] *)
Definition init (books : list Book) (key_attribute : string)
    (ignore_single_book_groups ignore_undefined_book_groups : bool)
    : ReadVsUnreadReport :=
  foldl (count_book key_attribute ignore_undefined_book_groups)
        {| unread_count := []; read_count := []; grouping_count := [];
           ignore_single_book_groups := ignore_single_book_groups;
           stats := None |}
        books.

(** Both flags default to [True]. *)
Definition init_default (books : list Book) (key_attribute : string)
    : ReadVsUnreadReport :=
  init books key_attribute true true.

(** [int(100 * (rd / (rd+ur)))] *)
Definition percentage (rd ur : Z) : exn + Z :=
  match PyFloat.true_div rd (rd + ur) with
  | inl e => inl e
  | inr q =>
      PyFloat.int_of_float (PyFloat.float_mul (PyFloat.float_of_int 100) q)
  end.

(** The loop of [process] over the keys of [grouping_count].  Reading
    [self.read_count[key]] and [self.unread_count[key]] goes through
    [__missing__], so both tables are threaded.  The handler of
    [ZeroDivisionError] calls [logging.warning], and the module never
    imports [logging]: entering the handler ends in [NameError]. *)
Fixpoint process_loop (ignore_single : bool) (keys : list K)
    (rc uc : list (K * Z)) (acc : list ReadVsUnreadStat)
    : list (K * Z) * list (K * Z) * list ReadVsUnreadStat * option exn :=
  match keys with
  | [] => (rc, uc, acc, None)
  | k :: keys' =>
      let '(rd, rc') := dd_getitem rc k in
      let '(ur, uc') := dd_getitem uc k in
      if ignore_single && (rd + ur =? 1) then
        process_loop ignore_single keys' rc' uc' acc
      else
        match percentage rd ur with
        | inl ZeroDivisionError => (rc', uc', acc, Some NameError)
        | inl e => (rc', uc', acc, Some e)
        | inr p =>
            process_loop ignore_single keys' rc' uc'
              (acc ++ [{| key := k; percentage_read := p;
                          difference := rd - ur |}])
        end
  end.

(** [process]: the state the call leaves the object in, and the exception
    it ends with, if any.  Without an exception the call returns [self],
    that is the object whose state is the first component. *)
Definition process (r : ReadVsUnreadReport)
    : ReadVsUnreadReport * option exn :=
  let '(rc, uc, st, e) :=
    process_loop (ignore_single_book_groups r) (dd_keys (grouping_count r))
                 (read_count r) (unread_count r) [] in
  ({| unread_count := uc; read_count := rc;
      grouping_count := grouping_count r;
      ignore_single_book_groups := ignore_single_book_groups r;
      stats := Some st |}, e).

(** One call of [output_function]: the stat whose fields are formatted and
    the group size read from [grouping_count]. *)
Record row := { row_stat : ReadVsUnreadStat; row_count : Z }.

Fixpoint render_loop (l : list ReadVsUnreadStat) (gc : list (K * Z))
    : list row * list (K * Z) :=
  match l with
  | [] => ([], gc)
  | st :: l' =>
      let '(n, gc') := dd_getitem gc (key st) in
      let '(rows, gc'') := render_loop l' gc' in
      ({| row_stat := st; row_count := n |} :: rows, gc'')
  end.

(** [render]: the calls of [output_function] in order, and the state of
    the object afterwards; [AttributeError] when [process] never ran. *)
Definition render (r : ReadVsUnreadReport)
    : exn + (list row * ReadVsUnreadReport) :=
  match stats r with
  | None => inl AttributeError
  | Some l =>
      let '(rows, gc) :=
        render_loop (sorted compare_rvustat l) (grouping_count r) in
      inr (rows,
           {| unread_count := unread_count r; read_count := read_count r;
              grouping_count := gc;
              ignore_single_book_groups := ignore_single_book_groups r;
              stats := stats r |})
  end.

(** *** Notions used to state the properties of the report *)

(** The stat [process] computes for one key from the two counts it reads;
    [None] when the key is skipped. *)
Definition stat_for (ignore_single : bool) (rc uc : list (K * Z)) (k : K)
    : option ReadVsUnreadStat :=
  let rd := dd_value rc k in
  let ur := dd_value uc k in
  if ignore_single && (rd + ur =? 1) then None
  else match percentage rd ur with
       | inr p => Some {| key := k; percentage_read := p;
                          difference := rd - ur |}
       | inl _ => None
       end.

(** The three tables tell one story: every key of [grouping_count] counts
    at least one book, and its read and unread counts add up to it. *)
Definition tables_agree (r : ReadVsUnreadReport) : Prop :=
  NoDup (dd_keys (grouping_count r)) /\
  forall k,
    0 <= dd_value (read_count r) k /\
    0 <= dd_value (unread_count r) k /\
    dd_value (read_count r) k + dd_value (unread_count r) k
      = dd_value (grouping_count r) k /\
    (k ∈ dd_keys (grouping_count r) -> 1 <= dd_value (grouping_count r) k) /\
    (k ∉ dd_keys (grouping_count r) -> dd_value (grouping_count r) k = 0).

(** The order [render] is expected to emit: percentage ascending, then the
    larger absolute difference first, then the key ascending. *)
Definition emitted_before (a b : ReadVsUnreadStat) : Prop :=
  percentage_read a < percentage_read b \/
  (percentage_read a = percentage_read b /\
   (Z.abs (difference b) < Z.abs (difference a) \/
    (Z.abs (difference a) = Z.abs (difference b) /\
     key_gt (key a) (key b) = false))).

End with_books.
Global Arguments ReadVsUnreadStat : clear implicits.
Global Arguments ReadVsUnreadReport : clear implicits.
Global Arguments row : clear implicits.
End RvU.


(** ** [BestRankedReport] *)

Module BR.
Section with_books.
Context {K : Type} `{PyKey K} {Book : Type} `{BookAPI Book K}.

(** [namedtuple('BestRankedStat', 'key, average_rating,
    number_of_books_rated')] *)
Record BestRankedStat := {
  key : K;
  average_rating : spec_float;
  number_of_books_rated : Z;
}.

(** [a.average_rating == b.average_rating] is the comparison of two
    floats, and [1000 * (...)] the product of the float [1000.0] and the
    difference; [int] raises on an infinity and on a NaN. *)
Definition compare_brstat (a b : BestRankedStat) : exn + Z :=
  if PyFloat.float_eqb (average_rating a) (average_rating b) then
    inr (number_of_books_rated b - number_of_books_rated a)
  else
    PyFloat.int_of_float
      (PyFloat.float_mul (PyFloat.float_of_int 1000)
         (PyFloat.float_sub (average_rating b) (average_rating a))).

Record BestRankedReport := {
  ignore_single_book_groups : bool;
  rated_count : list (K * Z);
  cumulative_rating : list (K * Z);
  rating_groupings : list (K * list (option Z));
  stats : option (list BestRankedStat);
}.

(** The value [defaultdict(lambda: [None, 0,0,0,0,0])] stores under a new
    key. *)
Definition new_histogram : list (option Z) :=
  [None; Some 0; Some 0; Some 0; Some 0; Some 0].

(** [h[br] += 1] on a Python list: a negative index counts from the end,
    an index outside the list is an [IndexError], and adding one to the
    [None] placeholder is a [TypeError]. *)
Definition histogram_incr (h : list (option Z)) (br : Z)
    : exn + list (option Z) :=
  let i := if br <? 0 then br + Z.of_nat (length h) else br in
  if (0 <=? i) && (i <? Z.of_nat (length h)) then
    match h !! Z.to_nat i with
    | Some (Some c) => inr (<[Z.to_nat i := Some (c + 1)]> h)
    | Some None => inl TypeError
    | None => inl IndexError
    end
  else inl IndexError.

(** [self.rating_groupings[key][br] += 1] *)
Fixpoint groupings_incr (rg : list (K * list (option Z))) (k : K) (br : Z)
    : exn + list (K * list (option Z)) :=
  match rg with
  | [] =>
      match histogram_incr new_histogram br with
      | inl e => inl e
      | inr h => inr [(k, h)]
      end
  | (k', h) :: rg' =>
      if decide (k' = k) then
        match histogram_incr h br with
        | inl e => inl e
        | inr h' => inr ((k', h') :: rg')
        end
      else
        match groupings_incr rg' k br with
        | inl e => inl e
        | inr rg'' => inr ((k', h) :: rg'')
        end
  end.

(** The body of the inner loop of [__init__], for a book rated [br]. *)
Definition count_key (ignore_undefined_book_groups : bool) (br : Z)
    (acc : exn + BestRankedReport) (k : K) : exn + BestRankedReport :=
  match acc with
  | inl e => inl e
  | inr r =>
      if truthy k || negb ignore_undefined_book_groups then
        match groupings_incr (rating_groupings r) k br with
        | inl e => inl e
        | inr rg =>
            inr {| ignore_single_book_groups := ignore_single_book_groups r;
                   rated_count := dd_iadd (rated_count r) k 1;
                   cumulative_rating := dd_iadd (cumulative_rating r) k br;
                   rating_groupings := rg;
                   stats := stats r |}
        end
      else inr r
  end.

(** [br = book.rating] followed by [if br:]: the books that count are the
    ones whose rating is neither [None] nor [0]. *)
Definition count_book (key_attribute : string)
    (ignore_undefined_book_groups : bool)
    (acc : exn + BestRankedReport) (book : Book) : exn + BestRankedReport :=
  match rating book with
  | None => acc
  | Some br =>
      if br =? 0 then acc
      else foldl (count_key ignore_undefined_book_groups br) acc
                 (property_as_sequence book key_attribute)
  end.

(** [BestRankedReport(books, key_attribute, ignore_single_book_groups,
    ignore_undefined_book_groups)] *)
Definition init (books : list Book) (key_attribute : string)
    (ignore_single_book_groups ignore_undefined_book_groups : bool)
    : exn + BestRankedReport :=
  foldl (count_book key_attribute ignore_undefined_book_groups)
        (inr {| ignore_single_book_groups := ignore_single_book_groups;
                rated_count := []; cumulative_rating := [];
                rating_groupings := []; stats := None |})
        books.

(** [ignore_single_book_groups] defaults to [False],
    [ignore_undefined_book_groups] to [True]. *)
Definition init_default (books : list Book) (key_attribute : string)
    : exn + BestRankedReport :=
  init books key_attribute false true.

(** The loop of [process] over [self.rated_count.items()]; the division
    is outside any [try], so its [ZeroDivisionError] would end the call. *)
Fixpoint process_loop (ignore_single : bool) (items : list (K * Z))
    (cr : list (K * Z)) (acc : list BestRankedStat)
    : list (K * Z) * list BestRankedStat * option exn :=
  match items with
  | [] => (cr, acc, None)
  | (k, rdr) :: items' =>
      let '(cum, cr') := dd_getitem cr k in
      match PyFloat.true_div cum rdr with
      | inl e => (cr', acc, Some e)
      | inr av =>
          if negb ignore_single || (1 <? rdr) then
            process_loop ignore_single items' cr'
              (acc ++ [{| key := k; average_rating := av;
                          number_of_books_rated := rdr |}])
          else process_loop ignore_single items' cr' acc
      end
  end.

Definition process (r : BestRankedReport) : BestRankedReport * option exn :=
  let '(cr, st, e) :=
    process_loop (ignore_single_book_groups r) (rated_count r)
                 (cumulative_rating r) [] in
  ({| ignore_single_book_groups := ignore_single_book_groups r;
      rated_count := rated_count r;
      cumulative_rating := cr;
      rating_groupings := rating_groupings r;
      stats := Some st |}, e).

(** *** Notions used to state the properties of the report *)

(** The stat [process] computes for one item of [rated_count]; [None] when
    the group is dropped. *)
Definition stat_for (ignore_single : bool) (cr : list (K * Z)) (item : K * Z)
    : option BestRankedStat :=
  match PyFloat.true_div (dd_value cr item.1) item.2 with
  | inr av =>
      if negb ignore_single || (1 <? item.2) then
        Some {| key := item.1; average_rating := av;
                number_of_books_rated := item.2 |}
      else None
  | inl _ => None
  end.

(** What [__init__] establishes: the two count tables have the same keys
    in the same order, every histogram has its six slots, every group has
    at least one rated book, and the ratings summed for a group are
    ratings that index a histogram. *)
Definition tables_agree (r : BestRankedReport) : Prop :=
  NoDup (dd_keys (rated_count r)) /\
  dd_keys (cumulative_rating r) = dd_keys (rated_count r) /\
  Forall (fun kh => length kh.2 = 6%nat) (rating_groupings r) /\
  forall k,
    0 <= dd_value (rated_count r) k /\
    Z.abs (dd_value (cumulative_rating r) k) <= 6 * dd_value (rated_count r) k /\
    (k ∈ dd_keys (rated_count r) -> 1 <= dd_value (rated_count r) k).

End with_books.
Global Arguments BestRankedStat : clear implicits.
Global Arguments BestRankedReport : clear implicits.
End BR.


(** ** Books as a report sees them

    The three things a report reads off a Book, as a record; the sample
    shelf below has a group of two books, two groups of one, an unrated
    book and an unread one. *)

Record BookView := {
  view_keys : string -> list string;
  view_unread : bool;
  view_rating : option Z;
}.

Global Instance view_api : BookAPI BookView string :=
  {| property_as_sequence := view_keys;
     is_unread := view_unread;
     rating := view_rating |}.

Definition sample_books : list BookView :=
  [ {| view_keys := fun _ => ["sf"; "favourites"];
       view_unread := false; view_rating := Some 4 |};
    {| view_keys := fun _ => ["sf"];
       view_unread := true; view_rating := None |};
    {| view_keys := fun _ => ["history"];
       view_unread := true; view_rating := Some 5 |} ].

(** A shelf of [rd] read and [ur] unread books, all under one key. *)
Definition shelf_of (rd ur : nat) : list BookView :=
  replicate rd {| view_keys := fun _ => ["shelf"];
                  view_unread := false; view_rating := None |}
  ++ replicate ur {| view_keys := fun _ => ["shelf"];
                     view_unread := true; view_rating := None |}.

(** A shelf of [n] books rated 3 and one book rated 4, all under one
    key. *)
Definition rated_shelf (name : string) (n : nat) : list BookView :=
  replicate n {| view_keys := fun _ => [name];
                 view_unread := false; view_rating := Some 3 |}
  ++ [ {| view_keys := fun _ => [name];
          view_unread := false; view_rating := Some 4 |} ].


(** ** The Book entity

    [utils/book.py] is not among the sources; [utils/tests/test_book.py]
    is.  Every definition of this module is therefore modelled from the
    specification, and checked against the expectations of the tests. *)

Module Book.

(** Modelled from the spec: the keys of a raw record (section 6), which
    [utils/book.py] reads and which a patch rule names.  A record has
    "exactly these keys", so it is a total map from them. *)
Inductive field : Set :=
  | Title | Author | Additional_Authors | Original_Publication_Year
  | Publisher | Year_Published | Number_of_Pages | Binding | Average_Rating
  | Book_Id | Exclusive_Shelf | Bookshelves | My_Rating | Date_Added
  | Date_Read | Read_Count.

Global Instance field_eq_dec : EqDecision field.
Proof. solve_decision. Defined.

(** Modelled from the spec: the raw record handed to the absent [Book]
    constructor, a "mapping of string field name to string value". *)
Definition RawRecord : Type := field -> string.

(** Modelled from the spec: overriding one field of a record, the effect
    of one assignment of a patch in the absent constructor. *)
Definition update (r : RawRecord) (f : field) (v : string) : RawRecord :=
  fun g => if decide (g = f) then v else r g.

(** *** Text *)

Definition chars (s : string) : list ascii := list_ascii_of_string s.
Definition text (cs : list ascii) : string := string_of_list_ascii cs.

Definition is_digit (c : ascii) : bool :=
  (48 <=? nat_of_ascii c)%nat && (nat_of_ascii c <=? 57)%nat.

Definition digit_value (c : ascii) : option Z := Z.of_nat <$> Ascii.is_nat c.

Fixpoint number_from (acc : Z) (cs : list ascii) : option Z :=
  match cs with
  | [] => Some acc
  | c :: cs' =>
      match digit_value c with
      | Some d => number_from (10 * acc + d) cs'
      | None => None
      end
  end.

(** Modelled from the spec: the conversion of a numeric raw field, which
    the absent properties of [utils/book.py] perform on values "expected
    to already be valid": a non-empty run of decimal digits; [None] is the
    [ValueError] of anything else. *)
Definition int_of_text (s : string) : option Z :=
  match chars s with
  | [] => None
  | cs => number_from 0 cs
  end.

(** The longest prefix of [cs] whose characters satisfy [p], and the rest. *)
Fixpoint span (p : ascii -> bool) (cs : list ascii)
    : list ascii * list ascii :=
  match cs with
  | [] => ([], [])
  | c :: cs' =>
      if p c then let '(a, b) := span p cs' in (c :: a, b) else ([], cs)
  end.

Fixpoint drop_prefix (p cs : list ascii) : option (list ascii) :=
  match p, cs with
  | [], _ => Some cs
  | a :: p', c :: cs' => if decide (a = c) then drop_prefix p' cs' else None
  | _ :: _, [] => None
  end.

(** [cs] without the prefix [p], or [cs] itself when it does not start
    with [p]. *)
Definition strip_prefix (p : string) (cs : list ascii) : list ascii :=
  default cs (drop_prefix (chars p) cs).

Definition strip_suffix (p : string) (cs : list ascii) : list ascii :=
  reverse (default (reverse cs) (drop_prefix (reverse (chars p)) (reverse cs))).

Definition trim (cs : list ascii) : list ascii :=
  reverse ((span Ascii.is_space (reverse ((span Ascii.is_space cs).2))).2).

(** The pieces between the occurrences of [", "]. *)
Fixpoint split_go (cur : list ascii) (cs : list ascii) : list (list ascii) :=
  match cs with
  | [] => [reverse cur]
  | c :: cs' =>
      match cs' with
      | d :: cs'' =>
          if bool_decide (c = ","%char) && bool_decide (d = " "%char)
          then reverse cur :: split_go [] cs''
          else split_go (c :: cur) cs'
      | [] => split_go (c :: cur) cs'
      end
  end.

(** Modelled from the spec: the reading of the "comma-space-separated"
    fields [Additional Authors] and [Bookshelves] in the absent
    [utils/book.py]; "blank denotes an empty list". *)
Definition split_list (s : string) : list string :=
  match chars s with
  | [] => []
  | cs => text <$> split_go [] cs
  end.

(** *** Dates *)

(** Modelled from the spec: a [datetime.date], as the absent constructor
    obtains it from a [YYYY/MM/DD] text. *)
Record date := { year : Z; month : Z; day : Z }.

Global Instance date_eq_dec : EqDecision date.
Proof. solve_decision. Defined.

(** Modelled from the spec: [a < b] on two dates of the absent module. *)
Definition date_ltb (a b : date) : bool :=
  (year a <? year b)
  || ((year a =? year b)
      && ((month a <? month b)
          || ((month a =? month b) && (day a <? day b)))).

(** Modelled from the spec: the date parsing of the absent constructor,
    "from a fixed YYYY/MM/DD text format; absent/blank date fields yield
    an absent value".  Any other text is a [ValueError]. *)
Definition parse_date (s : string) : exn + option date :=
  match chars s with
  | [] => inr None
  | [y1; y2; y3; y4; s1; m1; m2; s2; d1; d2] =>
      if bool_decide (s1 = "/"%char) && bool_decide (s2 = "/"%char) then
        match number_from 0 [y1; y2; y3; y4], number_from 0 [m1; m2],
              number_from 0 [d1; d2] with
        | Some y, Some m, Some d =>
            inr (Some {| year := y; month := m; day := d |})
        | _, _, _ => inl ValueError
        end
      else inl ValueError
  | _ => inl ValueError
  end.

(** A text the input contract allows in a date field: blank, or four
    digits, a slash, two digits, a slash, two digits. *)
Definition is_date_text (s : string) : bool :=
  match chars s with
  | [] => true
  | [y1; y2; y3; y4; s1; m1; m2; s2; d1; d2] =>
      forallb is_digit [y1; y2; y3; y4; m1; m2; d1; d2]
      && bool_decide (s1 = "/"%char) && bool_decide (s2 = "/"%char)
  | _ => false
  end.

(** *** Patches *)

(** Modelled from the spec: a patch rule of the absent constructor, "a
    pair (list of (field, exact-value) match conditions, list of (field,
    new-value) assignments)". *)
Definition patch : Type := list (field * string) * list (field * string).

(** Modelled from the spec: whether "every condition matches the record's
    original raw values", as the absent constructor tests it. *)
Definition matches (original : RawRecord) (p : patch) : bool :=
  forallb (fun c => bool_decide (original c.1 = c.2)) p.1.

(** Modelled from the spec: applying the assignments of one rule, in
    order, in the absent constructor. *)
Definition assign (r : RawRecord) (changes : list (field * string))
    : RawRecord :=
  foldl (fun acc c => update acc c.1 c.2) r changes.

(** Modelled from the spec: the patch overlay of the absent constructor.
    A rule is applied when its conditions hold of the original record,
    matching being "always against original raw values", and applying it
    overrides the fields it assigns.  The specification applies the first
    such rule alone; [TestBook.test_patching], the one place under the
    sources that passes patches, expects the assignments of its first and
    of its second rule on the Book, so the rules that match are all
    applied here.  The rules of the test assign different fields.  Where
    two applied assignments name the same field, the fold lets the later
    one stand: neither the specification nor the test says which does,
    and nothing proved below depends on it. *)
Definition apply_patches (original : RawRecord) (patches : list patch)
    : RawRecord :=
  foldl (fun acc p => if matches original p then assign acc p.2 else acc)
        original patches.


(** *** Construction *)

(** Modelled from the spec: the state of a constructed [Book] of the
    absent [utils/book.py]: the raw values after the patch overlay, the
    two parsed dates and the as-of date. *)
Record Book := {
  raw : RawRecord;
  date_added : option date;
  date_read : option date;
  as_of_date : option date;
}.

(** Modelled from the spec: [Book(row, as_of_date, patches)] of the absent
    [utils/book.py]: the overlay, the parsing of the two dates, and the
    failure "if [as_of_date] is provided and is strictly earlier than the
    parsed add-date". *)
Definition make (row : RawRecord) (as_of : option date)
    (patches : list patch) : exn + Book :=
  let row' := apply_patches row patches in
  match parse_date (row' Date_Added), parse_date (row' Date_Read) with
  | inl e, _ => inl e
  | _, inl e => inl e
  | inr added, inr read =>
      let b := {| raw := row'; date_added := added; date_read := read;
                  as_of_date := as_of |} in
      match as_of, added with
      | Some a, Some d =>
          if date_ltb a d then inl NotOwnedAtSpecifiedDateError else inr b
      | _, _ => inr b
      end
  end.

(** Modelled from the spec: the [state] of the absent [Book], its
    "exclusive shelf" value. *)
Definition state (b : Book) : string := raw b Exclusive_Shelf.

(** Modelled from the spec: [is_read] of the absent [Book]: read when the
    exclusive shelf says so, unless an as-of date "is earlier than the
    read-date", in which case "the as-of view must report the book as
    unread". *)
Definition is_read (b : Book) : bool :=
  bool_decide (state b = "read"%string)
  && match as_of_date b, date_read b with
     | Some a, Some d => negb (date_ltb a d)
     | _, _ => true
     end.

(** Modelled from the spec: [is_unread] of the absent [Book], the other
    value of the "boolean read/unread classification". *)
Definition is_unread (b : Book) : bool := negb (is_read b).

(** *** Title parsing *)

Definition is_volume_char (c : ascii) : bool :=
  is_digit c || bool_decide (c = "."%char) || bool_decide (c = "-"%char).

(** Walking back from the closing parenthesis that ends the title to the
    parenthesis it matches; [acc] collects what lies between. *)
Fixpoint scan_back (depth : nat) (rev_rest acc : list ascii)
    : option (list ascii) :=
  match rev_rest with
  | [] => None
  | c :: rest =>
      if bool_decide (c = ")"%char) then scan_back (S depth) rest (c :: acc)
      else if bool_decide (c = "("%char) then
        match depth with
        | O => Some acc
        | S d => scan_back d rest (c :: acc)
        end
      else scan_back depth rest (c :: acc)
  end.

(** Modelled from the spec: the first step of the absent
    [Book._series_and_volume]: the content of "the outermost trailing
    parenthetical group (a balanced substring enclosed in the final
    matching pair at the end of the title)"; [None] "if no such trailing
    parenthetical exists". *)
Definition trailing_parenthetical (title : list ascii)
    : option (list ascii) :=
  match reverse title with
  | c :: rest => if bool_decide (c = ")"%char) then scan_back 0 rest [] else None
  | [] => None
  end.

(** Modelled from the spec: a number that ends a series reference of
    the absent [Book._series_and_volume], "a bare trailing number": the
    digits at the head of [cs], when the reference ends after them, which
    is where the content ends or at the comma before "later
    comma-separated series references". *)
Definition number_token (cs : list ascii) : option (list ascii) :=
  match span is_digit cs with
  | ((_ :: _) as digits, []) => Some digits
  | ((_ :: _) as digits, c :: _) =>
      if bool_decide (c = ","%char) then Some digits else None
  | ([], _) => None
  end.

(** Modelled from the spec: the first volume-number token of the absent
    [Book._series_and_volume], read from the left: "a # immediately
    followed by digits/decimal-point/hyphen", or "a bare trailing number
    preceded by whitespace".  The result is what precedes the token,
    whether the token is written with [#], and the volume designator;
    what follows the first token plays no part, so that "only the first
    series/volume pair is extracted". *)
Fixpoint find_token (cs : list ascii)
    : option (list ascii * bool * list ascii) :=
  match cs with
  | [] => None
  | c :: cs' =>
      if bool_decide (c = "#"%char)
         && match cs' with d :: _ => is_volume_char d | [] => false end
      then Some ([], true, (span is_volume_char cs').1)
      else
        match (if Ascii.is_space c then number_token cs' else None) with
        | Some digits => Some ([], false, digits)
        | None =>
            match find_token cs' with
            | Some (before, hash, volume) => Some (c :: before, hash, volume)
            | None => None
            end
        end
  end.

(** Modelled from the spec: the series name the absent
    [Book._series_and_volume] keeps of a fragment: without surrounding
    whitespace and the comma that separated it from the volume, with "a
    leading word The stripped" and with the "recognized series-indicator
    suffix word stripped", which by
    [TestBook.test_book_in_series_trilogy] is [Trilogy]. *)
Definition clean_series (cs : list ascii) : list ascii :=
  strip_suffix " Trilogy"
    (strip_prefix "The " (trim (strip_suffix "," (trim cs)))).

(** Modelled from the spec: the result of the absent
    [Book._series_and_volume] for a series name and a volume designator:
    [None] when the content "contains no identifiable series-name
    fragment". *)
Definition series_pair (series : list ascii) (volume : option (list ascii))
    : option (string * option string) :=
  match series with
  | [] => None
  | _ => Some (text series, text <$> volume)
  end.

(** Modelled from the spec: the series name the absent
    [Book._series_and_volume] derives from what precedes the volume-number
    token: the cleaned fragment, and before a bare number also without
    "the word Book if present", as
    [TestBook.test_book_in_series_trilogy_with_book_in_name] expects. *)
Definition series_name (hash : bool) (before : list ascii) : list ascii :=
  if hash then clean_series before
  else clean_series (strip_suffix " Book" (trim before)).

(** Modelled from the spec: [Book._series_and_volume] of the absent
    [utils/book.py], on the characters of the title.  Section 4.1 names
    the tokens.  The first token of the parenthetical content decides,
    whichever way it is written, and later series references are ignored;
    without a token the content is a series with no declared volume.
    Every title of [utils/tests/test_book.py] gets the pair the test
    expects. *)
Definition series_and_volume_of (title : list ascii)
    : option (string * option string) :=
  match trailing_parenthetical title with
  | None => None
  | Some content =>
      match find_token content with
      | Some (before, hash, volume) =>
          series_pair (series_name hash before) (Some volume)
      | None => series_pair (clean_series content) None
      end
  end.


(** Modelled from the spec: the property [_series_and_volume] of the
    absent [Book]. *)
Definition _series_and_volume (b : Book) : option (string * option string) :=
  series_and_volume_of (chars (raw b Title)).

(** Modelled from the spec: the property [series] of the absent [Book],
    the first component of [_series_and_volume]. *)
Definition series (b : Book) : option string := fst <$> _series_and_volume b.

(** Modelled from the spec: the property [volume_number] of the absent
    [Book], the second component of [_series_and_volume]. *)
Definition volume_number (b : Book) : option string :=
  _series_and_volume b ≫= snd.

(** *** Property access *)

(** A scalar a property yields. *)
Inductive pyval : Set := PInt (z : Z) | PStr (s : string).

Global Instance pyval_eq_dec : EqDecision pyval.
Proof. solve_decision. Defined.

(** The value of a property: one scalar or none, or several strings. *)
Inductive attr_value : Set :=
  | Singular (v : option pyval)
  | Plural (vs : list string).

(** Modelled from the spec: an integer property of the absent [Book] read
    from a raw field, [None] standing for Python's [None]. *)
Definition int_field (b : Book) (f : field) : exn + option pyval :=
  match int_of_text (raw b f) with
  | Some n => inr (Some (PInt n))
  | None => inl ValueError
  end.

(** Modelled from the spec: [rating] of the absent [Book]: "rating 0 is
    always surfaced as absent". *)
Definition rating (b : Book) : exn + option pyval :=
  match int_of_text (raw b My_Rating) with
  | Some 0 => inr None
  | Some n => inr (Some (PInt n))
  | None => inl ValueError
  end.

(** Modelled from the spec: [year] of the absent [Book], the "min of
    original-publication year and year-published". *)
Definition year_of (b : Book) : exn + option pyval :=
  match int_of_text (raw b Original_Publication_Year),
        int_of_text (raw b Year_Published) with
  | Some o, Some p => inr (Some (PInt (Z.min o p)))
  | _, _ => inl ValueError
  end.

(** Modelled from the spec: [shelves] of the absent [Book], the "set of
    shelf tags unioned with the exclusive-shelf value".  A Python set
    iterates in an order of its own: the model takes the order in which
    the finite set enumerates its elements. *)
Definition shelves (b : Book) : gset string :=
  list_to_set (split_list (raw b Bookshelves)) ∪ {[ state b ]}.

(** Modelled from the spec: [additional_authors] of the absent [Book],
    the "comma-separated" additional authors. *)
Definition additional_authors (b : Book) : list string :=
  split_list (raw b Additional_Authors).

(** Modelled from the spec: [all_authors] of the absent [Book], the "list
    of all authors (primary + additional)". *)
Definition all_authors (b : Book) : list string :=
  raw b Author :: additional_authors b.

(** Modelled from the spec: the lookup of a property of the absent [Book]
    by its name, for the names the tests use; an unknown name is an
    [AttributeError]. *)
Definition getattr (b : Book) (name : string) : exn + attr_value :=
  let single (v : exn + option pyval) : exn + attr_value :=
    match v with inl e => inl e | inr o => inr (Singular o) end in
  if decide (name = "title"%string) then
    inr (Singular (Some (PStr (raw b Title))))
  else if decide (name = "author"%string) then
    inr (Singular (Some (PStr (raw b Author))))
  else if decide (name = "state"%string) then
    inr (Singular (Some (PStr (state b))))
  else if decide (name = "series"%string) then
    inr (Singular (PStr <$> series b))
  else if decide (name = "volume_number"%string) then
    inr (Singular (PStr <$> volume_number b))
  else if decide (name = "rating"%string) then single (rating b)
  else if decide (name = "year"%string) then single (year_of b)
  else if decide (name = "year_published"%string) then
    single (int_field b Year_Published)
  else if decide (name = "pagination"%string) then
    single (int_field b Number_of_Pages)
  else if decide (name = "shelves"%string) then
    inr (Plural (elements (shelves b)))
  else if decide (name = "additional_authors"%string) then
    inr (Plural (additional_authors b))
  else if decide (name = "all_authors"%string) then
    inr (Plural (all_authors b))
  else inl AttributeError.

(** Modelled from the spec: [property_as_sequence] of the absent [Book]:
    "a plural property yields its natural multi-value sequence; a
    singular property is wrapped into a one-element sequence, and an
    absent singular value yields an empty sequence". *)
Definition property_as_sequence (b : Book) (name : string)
    : exn + list pyval :=
  match getattr b name with
  | inl e => inl e
  | inr (Singular None) => inr []
  | inr (Singular (Some v)) => inr [v]
  | inr (Plural vs) => inr (PStr <$> vs)
  end.

(** Modelled from the spec: [property_as_hashable] of the absent [Book]:
    "the same values as an ordered, hashable tuple (deterministic
    order)"; [TestBook.test_book_basic] expects the shelves in sorted
    order. *)
Definition property_as_hashable (b : Book) (name : string)
    : exn + list pyval :=
  match getattr b name with
  | inl e => inl e
  | inr (Singular None) => inr []
  | inr (Singular (Some v)) => inr [v]
  | inr (Plural vs) => inr (PStr <$> merge_sort String.le vs)
  end.

(** The order in which a tuple of property values is kept: numbers by
    value, strings as Python compares them; a tuple holds values of one
    kind. *)
Definition pyval_le (a b : pyval) : Prop :=
  match a, b with
  | PInt x, PInt y => x <= y
  | PStr s, PStr t => String.le s t
  | PInt _, PStr _ => True
  | PStr _, PInt _ => False
  end.

(** *** The record and the rules of the tests *)

(** [TestBook.MOCK_BOOK] *)
Definition MOCK_BOOK : RawRecord := fun f =>
  match f with
  | Title => "A Mock Book"
  | Author => "Mick Mock"
  | Additional_Authors => "Terry Test, Peter Python"
  | Original_Publication_Year => "2001"
  | Publisher => "Mock Corp"
  | Year_Published => "2002"
  | Number_of_Pages => "123"
  | Binding => "Paperback"
  | Average_Rating => "1.23"
  | Book_Id => "12345678"
  | Exclusive_Shelf => "read"
  | Bookshelves => "testing, mocking, software, python"
  | My_Rating => "4"
  | Date_Added => "2012/12/22"
  | Date_Read => "2015/12/25"
  | Read_Count => "1"
  end%string.

(** The [patches] of [TestBook.test_patching]; the tests name the fields
    [title], [author], [year_published], [state] and [pagination]. *)
Definition test_patches : list patch :=
  [ ([(Title, "A Mock Book"); (Author, "Mick Mock")],
     [(Year_Published, "2019")]);
    ([(Author, "Mick Mock")], [(Exclusive_Shelf, "to-read")]);
    ([(Title, "This Will Not Be Applied")], [(Number_of_Pages, "999")]) ]%string.

(** The four [assertEqual] of [TestBook.test_patching] on
    [bk = Book(self.MOCK_BOOK, patches=patches)]. *)
Definition test_patching_expects (bk : Book) : Prop :=
  state bk = "to-read"%string /\
  getattr bk "year_published" = inr (Singular (Some (PInt 2019))) /\
  getattr bk "year" = inr (Singular (Some (PInt 2001))) /\
  getattr bk "pagination" = inr (Singular (Some (PInt 123))).


End Book.

(** ** What the constructors count

    The notions used to say what the tables of a report hold: the keys of
    one book that get past [if key or not ignore_undefined_book_groups],
    how often a key occurs in a list, and the distinct elements of a list
    in the order of their first occurrence, which is the order a dict
    keeps. *)

Section occurrences.
Context {K : Type} `{EqDecision K}.

Definition occurrences (k : K) (l : list K) : Z :=
  Z.of_nat (length (filter (fun k' => k' = k) l)).

Fixpoint first_occurrences (l : list K) : list K :=
  match l with
  | [] => []
  | k :: l' => k :: filter (fun k' => k' <> k) (first_occurrences l')
  end.

(** [d[k] += 1] for each key of a list in turn. *)
Definition tally (d : list (K * Z)) (l : list K) : list (K * Z) :=
  foldl (fun d k => dd_iadd d k 1) d l.

(** The ratings counted under the key [k]. *)
Definition ratings_of (k : K) (l : list (K * Z)) : list Z :=
  (filter (fun kr => kr.1 = k) l).*2.

Definition sum_list (l : list Z) : Z := foldr Z.add 0 l.

(** [d[k] += n] for each pair [(k, n)] of a list in turn. *)
Definition cumulate (d : list (K * Z)) (l : list (K * Z)) : list (K * Z) :=
  foldl (fun d kn => dd_iadd d kn.1 kn.2) d l.

(** A plain lookup in a dict kept as an association list. *)
Fixpoint assoc_find {V : Type} (d : list (K * V)) (k : K) : option V :=
  match d with
  | [] => None
  | (k', v) :: d' => if decide (k' = k) then Some v else assoc_find d' k
  end.

End occurrences.

(** The outcome of a comparison, the other way round. *)
Definition opposite (c : exn + Z) : exn + Z :=
  match c with
  | inl e => inl e
  | inr z => inr (- z)
  end.

(** *** The histogram of a group

    The list [[None, 0,0,0,0,0]] is indexed with the rating itself, and a
    Python list takes a negative index from its end: a rating [-1] counts
    in slot 5.  The ratings that index one of the five counters are those
    from -5 to 5 other than 0. *)

Definition slot (br : Z) : Z := if br <? 0 then br + 6 else br.

Definition countable_rating (br : Z) : Prop := -5 <= br <= 5 /\ br <> 0.

Global Instance countable_rating_dec br : Decision (countable_rating br).
Proof. unfold countable_rating. apply _. Defined.

Definition in_slot (i : Z) (rs : list Z) : Z :=
  Z.of_nat (length (filter (fun br => slot br = i) rs)).

(** The histogram that holds the ratings [rs]. *)
Definition histogram_of (rs : list Z) : list (option Z) :=
  [None; Some (in_slot 1 rs); Some (in_slot 2 rs); Some (in_slot 3 rs);
   Some (in_slot 4 rs); Some (in_slot 5 rs)].

(** The exception a rating that is not countable ends the constructor
    with: the slot of the placeholder cannot be incremented, any other
    index is out of range. *)
Definition rating_error (br : Z) : exn :=
  if decide (br = 0 \/ br = -6) then TypeError else IndexError.

Section counting.
Context {K : Type} `{PyKey K} {Book : Type} `{BookAPI Book K}.

Definition kept (ignore_undefined_book_groups : bool) (k : K) : bool :=
  truthy k || negb ignore_undefined_book_groups.

Definition kept_keys (key_attribute : string)
    (ignore_undefined_book_groups : bool) (book : Book) : list K :=
  filter (fun k => kept ignore_undefined_book_groups k)
         (property_as_sequence book key_attribute).

(** The books that [is_unread] tells apart. *)
Definition unread_books (books : list Book) : list Book :=
  filter (fun b => is_unread b = true) books.

Definition read_books (books : list Book) : list Book :=
  filter (fun b => is_unread b = false) books.

(** The pairs of a key and a rating that [BestRankedReport.__init__]
    counts, in the order in which it meets them: a book without a rating,
    or rated [0], contributes none. *)
Definition rated_keys (key_attribute : string)
    (ignore_undefined_book_groups : bool) (book : Book) : list (K * Z) :=
  match rating book with
  | None => []
  | Some br =>
      if br =? 0 then []
      else (fun k => (k, br))
             <$> kept_keys key_attribute ignore_undefined_book_groups book
  end.

(** The row [ReadVsUnreadReport.render] emits for a stat, given the table
    of group sizes. *)
Definition row_for (gc : list (K * Z)) (st : RvU.ReadVsUnreadStat K)
    : RvU.row K :=
  {| RvU.row_stat := st; RvU.row_count := dd_value gc (RvU.key st) |}.

(** All the pairs counted, book after book. *)
Definition rated_pairs (books : list Book) (key_attribute : string)
    (ignore_undefined_book_groups : bool) : list (K * Z) :=
  books ≫= rated_keys key_attribute ignore_undefined_book_groups.

(** One turn of the inner loop of [BestRankedReport.__init__] for a pair
    that is counted. *)
Definition count_pair (acc : exn + BR.BestRankedReport K) (kr : K * Z)
    : exn + BR.BestRankedReport K :=
  BR.count_key false kr.2 acc kr.1.

(** What a [BestRankedReport] holds once it has counted the pairs [l]. *)
Definition counted (f1 : bool) (l : list (K * Z)) (r : BR.BestRankedReport K)
    : Prop :=
  BR.ignore_single_book_groups r = f1 /\ BR.stats r = None /\
  BR.rated_count r = tally [] l.*1 /\
  BR.cumulative_rating r = cumulate [] l /\
  forall k, assoc_find (BR.rating_groupings r) k
            = if decide (k ∈ l.*1) then Some (histogram_of (ratings_of k l))
              else None.

End counting.

(** ** [get_keys_to_books_dict]

    A [defaultdict(set)] from keys to sets of books.  The dict is an
    association list in insertion order, as before; a set is a list
    without repetitions, of which only the membership is meant.  Two
    books are the same element of a set when Python's [==] says so, which
    is the equality of [Book] here. *)

Section keys_to_books.
Context {K : Type} `{PyKey K} {Book : Type} `{BookAPI Book K}.
Context `{EqDecision Book}.

(** [s.add(book)] *)
Definition set_add (s : list Book) (book : Book) : list Book :=
  if decide (book ∈ s) then s else s ++ [book].

(** [ret_dict[key].add(book)]: [__missing__] stores [set()] under a new
    key, and the book goes into the set found or stored. *)
Fixpoint ds_add (d : list (K * list Book)) (k : K) (book : Book)
    : list (K * list Book) :=
  match d with
  | [] => [(k, set_add [] book)]
  | (k', s) :: d' =>
      if decide (k' = k) then (k', set_add s book) :: d'
      else (k', s) :: ds_add d' k book
  end.

Definition get_keys_to_books_dict (books : list Book) (key_attribute : string)
    (ignore_undefined_book_groups : bool) : list (K * list Book) :=
  foldl (fun ret_dict book =>
           foldl (fun ret_dict k =>
                    if truthy k || negb ignore_undefined_book_groups
                    then ds_add ret_dict k book else ret_dict)
                 ret_dict (property_as_sequence book key_attribute))
        [] books.

(** The pairs of a kept key and its book, in the order of the two loops,
    and the books met under one key. *)
Definition keyed_books (books : list Book) (key_attribute : string)
    (ignore_undefined_book_groups : bool) : list (K * Book) :=
  books ≫= fun book =>
    (fun k => (k, book))
      <$> kept_keys key_attribute ignore_undefined_book_groups book.

Definition books_of (k : K) (l : list (K * Book)) : list Book :=
  (filter (fun kb => kb.1 = k) l).*2.

End keys_to_books.

(** ** The line [ReadVsUnreadReport.render] prints

    [output_function] gets one string for each row:
    ['%-30s : %5d%% %+3d %3d' % (str(stat[0])[:30], stat[1], stat[2],
    self.grouping_count[stat[0]])].

    A Python [str] is a sequence of characters: [len], [s[:n]] and the
    widths of a format count characters, whatever number of bytes a
    character takes.  A text is therefore kept as the list of its
    characters, each character as the bytes of its UTF-8 encoding. *)

Definition pychar : Type := list ascii.
Definition pystr : Type := list pychar.

(** Whether a byte continues a character of UTF-8: [10xxxxxx]. *)
Definition is_continuation (c : ascii) : bool :=
  (128 <=? nat_of_ascii c)%nat && (nat_of_ascii c <? 192)%nat.

(** The characters of a text given by its bytes: a character starts at
    every byte that continues none.  The first component holds the
    continuation bytes that wait for their start. *)
Fixpoint characters_from (bs : list ascii) : list ascii * pystr :=
  match bs with
  | [] => ([], [])
  | b :: bs' =>
      let '(pending, chs) := characters_from bs' in
      if is_continuation b then (b :: pending, chs)
      else ([], (b :: pending) :: chs)
  end.

Definition characters (s : string) : pystr :=
  let '(pending, chs) := characters_from (list_ascii_of_string s) in
  match pending with
  | [] => chs
  | _ :: _ => pending :: chs
  end.

(** The bytes of a text, as they are written out. *)
Definition encode (s : pystr) : string := string_of_list_ascii (concat s).

(** [str(key)] *)
Class PyStr (K : Type) := py_str : K -> pystr.

(** [str(z)] for an int, which is also what [%d] prints. *)
Definition decimal (z : Z) : pystr :=
  characters (NilZero.string_of_int (Z.to_int z)).

Global Instance str_py_str : PyStr string := characters.
Global Instance int_py_str : PyStr Z := decimal.

Definition spaces (n : nat) : pystr := replicate n [" "%char].

(** A field of width [w]: [%-ws] pads on the right, [%wd] on the left, and
    neither cuts what is longer. *)
Definition ljust (w : nat) (s : pystr) : pystr :=
  s ++ spaces (w - length s).

Definition rjust (w : nat) (s : pystr) : pystr :=
  spaces (w - length s) ++ s.

(** [s[:n]] *)
Definition slice_to (n : nat) (s : pystr) : pystr := take n s.

(** [%wd], and [%+wd] which also gives a number that is not negative its
    sign. *)
Definition format_d (w : nat) (plus : bool) (z : Z) : pystr :=
  let sign := if plus && (0 <=? z) then characters "+" else [] in
  rjust w (sign ++ decimal z).

Definition render_line {K : Type} `{PyKey K} `{PyStr K} (r : RvU.row K)
    : pystr :=
  ljust 30 (slice_to 30 (py_str (RvU.key (RvU.row_stat r))))
  ++ characters " : " ++ format_d 5 false (RvU.percentage_read (RvU.row_stat r))
  ++ characters "% " ++ format_d 3 true (RvU.difference (RvU.row_stat r))
  ++ characters " " ++ format_d 3 false (RvU.row_count r).


(** * Properties *)

(** ** Binary64 arithmetic on the counts of a report *)

Section float_facts.
Import PyFloat.

(** [digits2_pos p] is the number of binary digits of [p]. *)
Lemma digits2_pos_bounds p :
  2 ^ (Zpos (digits2_pos p) - 1) <= Zpos p < 2 ^ Zpos (digits2_pos p).
Proof.
  induction p as [p IH|p IH|]; simpl digits2_pos.
  1,2: rewrite Pos2Z.inj_succ;
       replace (Z.succ (Zpos (digits2_pos p)) - 1)
         with (Z.succ (Zpos (digits2_pos p) - 1)) by lia;
       rewrite !Z.pow_succ_r by lia; lia.
  simpl. lia.
Qed.

Lemma Zdigits2_nonneg m : 0 <= Zdigits2 m.
Proof. destruct m; simpl; lia. Qed.

Lemma Zdigits2_lt_pow m : 0 <= m -> m < 2 ^ Zdigits2 m.
Proof.
  destruct m as [|p|p]; simpl; intros; try lia.
  apply digits2_pos_bounds.
Qed.

Lemma Zdigits2_le m k : 0 <= m -> 0 <= k -> m < 2 ^ k -> Zdigits2 m <= k.
Proof.
  destruct m as [|p|p]; simpl; intros Hm Hk Hlt; try lia.
  destruct (Z_le_gt_dec (Zpos (digits2_pos p)) k) as [|Hgt]; [done|].
  pose proof (digits2_pos_bounds p) as [Hlo _].
  assert (2 ^ k <= 2 ^ (Zpos (digits2_pos p) - 1))
    by (apply Z.pow_le_mono_r; lia).
  lia.
Qed.

Lemma Zdigits2_pow_le m : 0 < m -> 2 ^ (Zdigits2 m - 1) <= m.
Proof.
  destruct m as [|p|p]; simpl; intros; try lia.
  apply digits2_pos_bounds.
Qed.

(** Shifting a mantissa right by [n] places divides it by [2 ^ n]. *)
Lemma iter_pos_nat {A} (f : A -> A) p x :
  SpecFloat.iter_pos f p x = Nat.iter (Pos.to_nat p) f x.
Proof.
  revert x. induction p as [p IH|p IH|]; intros x.
  - cbn [SpecFloat.iter_pos]. rewrite !IH.
    replace (Pos.to_nat p~1) with (S (Pos.to_nat p + Pos.to_nat p)) by lia.
    by rewrite Nat.iter_succ_r, Nat.iter_add.
  - cbn [SpecFloat.iter_pos]. rewrite !IH.
    replace (Pos.to_nat p~0) with (Pos.to_nat p + Pos.to_nat p)%nat by lia.
    by rewrite Nat.iter_add.
  - done.
Qed.

Lemma shr_1_m mrs : 0 <= shr_m mrs -> shr_m (shr_1 mrs) = shr_m mrs / 2.
Proof.
  destruct mrs as [m r s]. cbn [shr_m]. intros Hm.
  destruct m as [|[p|p|]|p]; cbn -[Z.div];
    first [ apply (Z.div_unique _ 2 _ 0); lia
          | apply (Z.div_unique _ 2 _ 1); lia
          | lia ].
Qed.

Lemma iter_shr_1_m n mrs :
  0 <= shr_m mrs ->
  shr_m (Nat.iter n shr_1 mrs) = shr_m mrs / 2 ^ Z.of_nat n.
Proof.
  intros Hm. induction n as [|n IH].
  - simpl. by rewrite Z.div_1_r.
  - rewrite Nat2Z.inj_succ, Z.pow_succ_r by lia. simpl.
    rewrite shr_1_m.
    + rewrite IH, Z.div_div by lia. f_equal. lia.
    + rewrite IH. apply Z.div_pos; lia.
Qed.

Lemma shr_spec mrs e n mrs' e' :
  0 <= shr_m mrs ->
  shr mrs e n = (mrs', e') ->
  e' = e + Z.max n 0 /\ shr_m mrs' = shr_m mrs / 2 ^ Z.max n 0.
Proof.
  intros Hm. destruct n as [|p|p]; simpl; intros [= <- <-].
  - rewrite Z.div_1_r. lia.
  - rewrite iter_pos_nat, iter_shr_1_m by done.
    rewrite positive_nat_Z. split; [lia|done].
  - rewrite Z.div_1_r. lia.
Qed.

Lemma Zdigits2_div_pow m n :
  0 <= m -> 0 <= n -> Zdigits2 (m / 2 ^ n) <= Z.max (Zdigits2 m - n) 0.
Proof.
  intros Hm Hn.
  assert (0 <= m / 2 ^ n) by (apply Z.div_pos; lia).
  pose proof (Zdigits2_lt_pow m Hm) as Hlt.
  pose proof (Zdigits2_nonneg m).
  destruct (Z_le_gt_dec n (Zdigits2 m)) as [Hle|Hgt].
  - rewrite Z.max_l by lia. apply Zdigits2_le; [done|lia|].
    apply Z.div_lt_upper_bound; [lia|].
    rewrite <- Z.pow_add_r by lia.
    by replace (n + (Zdigits2 m - n)) with (Zdigits2 m) by lia.
  - rewrite Z.max_r by lia.
    rewrite Z.div_small; [done|]. split; [done|].
    eapply Z.lt_le_trans; [exact Hlt|]. apply Z.pow_le_mono_r; lia.
Qed.

Lemma shr_record_of_loc_m m l : shr_m (shr_record_of_loc m l) = m.
Proof. by destruct l as [|[]]. Qed.

(** The library states its operations with the core integer functions;
    [lia] wants the ones of [Z]. *)
Ltac corelib_Z :=
  change IntDef.Z.add with Z.add in *; change IntDef.Z.sub with Z.sub in *;
  change IntDef.Z.max with Z.max in *; change IntDef.Z.min with Z.min in *;
  change IntDef.Z.mul with Z.mul in *; change IntDef.Z.opp with Z.opp in *.

Lemma fexp_eq e : fexp prec emax e = Z.max (e - 53) (-1074).
Proof. reflexivity. Qed.

Lemma shr_fexp_spec m e l mrs' e' :
  0 <= m ->
  shr_fexp prec emax m e l = (mrs', e') ->
  e' = Z.max e (fexp prec emax (Zdigits2 m + e)) /\
  0 <= shr_m mrs' /\
  Zdigits2 (shr_m mrs') + e' <= Z.max (Zdigits2 m + e) (-1074).
Proof.
  intros Hm. unfold shr_fexp. intros Hs.
  apply shr_spec in Hs as [-> Hm']; [|by rewrite shr_record_of_loc_m].
  rewrite shr_record_of_loc_m in Hm'. rewrite Hm'.
  pose proof (Zdigits2_div_pow m
                (Z.max (fexp prec emax (Zdigits2 m + e) - e) 0)
                Hm ltac:(lia)) as Hd.
  split; [lia|]. split; [apply Z.div_pos; lia|].
  pose proof (Zdigits2_nonneg m). rewrite fexp_eq in *. clear Hm'.
  set (X := Zdigits2 (_ / _)) in *. clearbody X. corelib_Z. lia.
Qed.

Lemma round_nearest_even_bounds m l :
  0 <= m ->
  0 <= round_nearest_even m l /\
  Zdigits2 (round_nearest_even m l) <= Zdigits2 m + 1.
Proof.
  intros Hm.
  assert (Zdigits2 (m + 1) <= Zdigits2 m + 1) as Hs.
  { pose proof (Zdigits2_nonneg m). apply Zdigits2_le; [lia..|].
    pose proof (Zdigits2_lt_pow m Hm). rewrite Z.pow_add_r by lia. lia. }
  unfold round_nearest_even. destruct l as [|[]]; try destruct (Z.even m); lia.
Qed.

(** Rounding a mantissa and an exponent that are far from the overflow
    threshold gives zero or a finite float, at most one binade up. *)
Lemma binary_round_aux_below s mx ex lx :
  0 <= mx -> ex <= 971 -> Zdigits2 mx + ex <= 1023 ->
  below (Z.max (Zdigits2 mx + ex + 1) (-1073))
    (binary_round_aux prec emax s mx ex lx).
Proof.
  intros Hm He Hd. unfold binary_round_aux.
  destruct (shr_fexp prec emax mx ex lx) as [mrs' e'] eqn:H1.
  apply shr_fexp_spec in H1 as (He' & Hm' & Hd'); [|done].
  pose proof (round_nearest_even_bounds (shr_m mrs')
                (loc_of_shr_record mrs') Hm') as [Hr Hrd].
  destruct (shr_fexp prec emax _ e' loc_Exact) as [mrs'' e''] eqn:H2.
  apply shr_fexp_spec in H2 as (He'' & Hm'' & Hd''); [|done].
  destruct (shr_m mrs'') as [|m|m] eqn:Hm2; [done| |lia].
  simpl in Hd''. rewrite !fexp_eq in *.
  assert (e'' <= 971) as Hle by lia.
  change (emax - prec) with 971.
  replace (e'' <=? 971) with true by (symmetry; apply Z.leb_le; lia).
  simpl. lia.
Qed.

Lemma Zdigits2_mul_pow m k :
  0 <= m -> 0 <= k -> Zdigits2 (m * 2 ^ k) <= Zdigits2 m + k.
Proof.
  intros Hm Hk. pose proof (Zdigits2_nonneg m).
  pose proof (Zdigits2_lt_pow m Hm).
  assert (0 < 2 ^ k) by (apply Z.pow_pos_nonneg; lia).
  apply Zdigits2_le; [nia|lia|]. rewrite Z.pow_add_r by lia. nia.
Qed.

Lemma Zdigits2_div a b :
  0 <= a -> 0 < b -> Zdigits2 (a / b) <= Z.max (Zdigits2 a - Zdigits2 b + 1) 0.
Proof.
  intros Ha Hb.
  pose proof (Zdigits2_lt_pow a Ha) as Hua.
  pose proof (Zdigits2_pow_le b Hb) as Hlb.
  pose proof (Zdigits2_nonneg a).
  assert (0 < Zdigits2 b) by (destruct b; simpl; lia).
  assert (0 <= a / b) by (apply Z.div_pos; lia).
  destruct (Z_le_gt_dec 0 (Zdigits2 a - Zdigits2 b + 1)) as [Hle|Hgt].
  - rewrite Z.max_l by lia. apply Zdigits2_le; [done..|].
    apply Z.div_lt_upper_bound; [done|].
    eapply Z.lt_le_trans; [exact Hua|].
    replace (Zdigits2 a)
      with ((Zdigits2 b - 1) + (Zdigits2 a - Zdigits2 b + 1)) at 1 by lia.
    rewrite Z.pow_add_r by lia.
    apply Z.mul_le_mono_nonneg_r; [|done]. apply Z.pow_nonneg. lia.
  - rewrite Z.max_r by lia. rewrite Z.div_small; [done|].
    split; [done|]. eapply Z.lt_le_trans; [exact Hua|].
    etrans; [|exact Hlb]. apply Z.pow_le_mono_r; lia.
Qed.

Lemma Zdigits2_mono a b : 0 <= a <= b -> Zdigits2 a <= Zdigits2 b.
Proof.
  intros [Ha Hab]. pose proof (Zdigits2_nonneg b).
  apply Zdigits2_le; [done..|].
  pose proof (Zdigits2_lt_pow b ltac:(lia)). lia.
Qed.

Lemma below_weaken hi hi' x : hi <= hi' -> below hi x -> below hi' x.
Proof. destruct x; simpl; lia. Qed.

Lemma below_int hi x : below hi x -> exists z, int_of_float x = inr z.
Proof. destruct x; simpl; by eauto. Qed.

(** The integer quotient handed to the rounding has about as many digits
    as the operands differ by. *)
Lemma SFdiv_core_binary_digits m1 m2 q e' l :
  0 <= m1 -> 0 < m2 ->
  SFdiv_core_binary prec emax m1 0 m2 0 = (q, e', l) ->
  0 <= q /\ e' <= 0 /\
  Zdigits2 q + e' <= Z.max (Zdigits2 m1 - Zdigits2 m2 + 1) 0.
Proof.
  intros H1 H2. unfold SFdiv_core_binary. cbv zeta. corelib_Z.
  rewrite fexp_eq, !Z.add_0_r, Z.sub_0_r.
  set (d1 := Zdigits2 m1). set (d2 := Zdigits2 m2).
  set (e0 := Z.min _ 0).
  set (m' := match 0 - e0 with 0 => m1 | Zpos _ => _ | Zneg _ => _ end).
  assert (0 <= m' /\ Zdigits2 m' <= d1 + (0 - e0)) as [Hm' Hdm'].
  { assert (0 <= 0 - e0) as Hs by (unfold e0; lia).
    unfold m'. destruct (0 - e0) as [|s|s] eqn:Es; [fold d1; lia| |lia].
    rewrite Z.shiftl_mul_pow2 by lia. split; [lia|].
    apply Zdigits2_mul_pow; lia. }
  pose proof (Zdigits2_div m' m2 Hm' H2) as Hq.
  pose proof (Z.div_pos m' m2 Hm' H2) as Hq0.
  unfold Z.div in Hq, Hq0.
  destruct (Z.div_eucl m' m2) as [q0 r]. simpl in Hq, Hq0. fold d2 in Hq.
  intros [= <- <- _]. unfold e0 in *. lia.
Qed.

(** [a / b] returns a float, and a small one, whenever [a] has at most
    [c] digits more than [b]. *)
Lemma true_div_below a b c :
  b <> 0 -> Zdigits2 (Z.abs a) - Zdigits2 (Z.abs b) <= c -> 0 <= c <= 1000 ->
  exists q, true_div a b = inr q /\ below (c + 2) q.
Proof.
  intros Hb Hc Hc'. unfold true_div.
  destruct (Z.eqb_spec b 0) as [|_]; [lia|].
  destruct (SFdiv_core_binary prec emax (Z.abs a) 0 (Z.abs b) 0)
    as [[m e] l] eqn:Hcore.
  apply SFdiv_core_binary_digits in Hcore as (Hm & He & Hd); [|lia..].
  pose proof (binary_round_aux_below (xorb (a <? 0) (b <? 0)) m e l Hm
                ltac:(lia) ltac:(lia)) as Hr.
  apply (below_weaken _ (c + 2)) in Hr; [|lia].
  destruct (binary_round_aux _ _ _ _ _ _) as [| | |s' m' e''] eqn:E;
    [by eauto|done|done|by eauto].
Qed.

Lemma true_div_inl a b e :
  true_div a b = inl e ->
  (e = ZeroDivisionError /\ b = 0) \/ (e = OverflowError /\ b <> 0).
Proof.
  unfold true_div. destruct (Z.eqb_spec b 0) as [|Hb].
  - intros [= <-]. by left.
  - destruct (SFdiv_core_binary _ _ _ _ _ _) as [[m e0] l].
    destruct (binary_round_aux _ _ _ _ _ _); intros [= <-]. by right.
Qed.

Lemma int_of_float_inl x e :
  int_of_float x = inl e -> e = OverflowError \/ e = ValueError.
Proof. destruct x; simpl; intros [= <-]; auto. Qed.

Lemma SFmul_below hi1 hi2 sx mx ex y :
  below hi1 (S754_finite sx mx ex) -> below hi2 y ->
  hi1 + hi2 <= 973 ->
  below (Z.max (hi1 + hi2 + 1) (-1073))
    (SFmul prec emax (S754_finite sx mx ex) y).
Proof.
  intros Hdx Hy Hsum. destruct y as [sy| | |sy my ey]; try done.
  simpl in Hdx, Hy. unfold SFmul. corelib_Z.
  assert (Zdigits2 (Zpos (mx * my))
          <= Zpos (digits2_pos mx) + Zpos (digits2_pos my)) as Hd.
  { apply Zdigits2_le; [lia..|]. rewrite Pos2Z.inj_mul, Z.pow_add_r by lia.
    pose proof (digits2_pos_bounds mx). pose proof (digits2_pos_bounds my).
    nia. }
  eapply below_weaken; [|apply binary_round_aux_below]; lia.
Qed.

Lemma float_of_int_100 :
  float_of_int 100 = S754_finite false 7036874417766400 (-46).
Proof. reflexivity. Qed.

(** [int(100 * (rd / tot))] is defined whenever [0 <= rd <= tot] and
    [tot] is not zero. *)
Lemma scaled_quotient_defined rd tot :
  0 <= rd <= tot -> 0 < tot ->
  exists q p, true_div rd tot = inr q /\
              int_of_float (float_mul (float_of_int 100) q) = inr p.
Proof.
  intros Hrd Htot.
  destruct (true_div_below rd tot 0) as (q & Hq & Hb); [lia| |lia|].
  { rewrite !Z.abs_eq by lia. pose proof (Zdigits2_mono rd tot Hrd). lia. }
  exists q. rewrite float_of_int_100.
  destruct (below_int (Z.max (7 + (0 + 2) + 1) (-1073))
              (float_mul (S754_finite false 7036874417766400 (-46)) q))
    as [p Hp]; [|by exists p].
  apply SFmul_below; [simpl; lia|done|lia].
Qed.

(** On operands that convert exactly, [a / b] is the IEEE quotient of the
    converted operands. *)
Lemma true_div_is_SFdiv :
  Forall (fun ab => true_div ab.1 ab.2
                    = inr (SFdiv prec emax (float_of_int ab.1) (float_of_int ab.2)))
         (grid 64).
Proof.
  apply (bool_decide_unpack _). by vm_compute.
Qed.

End float_facts.

(** ** Rounding keeps a value between two integers *)

Section float_bounds.
Import PyFloat.

Ltac corelib_Z :=
  change IntDef.Z.add with Z.add in *; change IntDef.Z.sub with Z.sub in *;
  change IntDef.Z.max with Z.max in *; change IntDef.Z.min with Z.min in *;
  change IntDef.Z.mul with Z.mul in *; change IntDef.Z.opp with Z.opp in *.

Lemma held_shr_1 j lo hi mrs e :
  held j lo hi mrs e -> e + 1 <= - j -> held j lo hi (shr_1 mrs) (e + 1).
Proof.
  intros (He & Hm & Hlo & Hhi) He1. unfold held.
  assert (2 ^ (- e - j) = 2 * 2 ^ (- (e + 1) - j)) as Hp.
  { rewrite <- Z.pow_succ_r by lia. f_equal. lia. }
  assert (0 < 2 ^ (- (e + 1) - j)) as Hpos by (apply Z.pow_pos_nonneg; lia).
  set (P := 2 ^ (- (e + 1) - j)) in *. rewrite Hp in Hlo, Hhi. clearbody P.
  destruct mrs as [m r s]. cbn [shr_m shr_r shr_s] in *.
  destruct m as [|[p|p|]|p]; cbn [shr_1 shr_m shr_r shr_s orb];
    destruct (r || s); split_and!; lia.
Qed.

Lemma held_iter j lo hi n mrs e :
  held j lo hi mrs e -> e + Z.of_nat n <= - j ->
  held j lo hi (Nat.iter n shr_1 mrs) (e + Z.of_nat n).
Proof.
  intros Hh. induction n as [|n IH]; intros He.
  - simpl. by rewrite Z.add_0_r.
  - rewrite Nat2Z.inj_succ in *. cbn [Nat.iter].
    replace (e + Z.succ (Z.of_nat n)) with (e + Z.of_nat n + 1) by lia.
    apply held_shr_1; [apply IH|]; lia.
Qed.

Lemma held_shr j lo hi mrs e n mrs' e' :
  held j lo hi mrs e -> e + Z.max n 0 <= - j -> shr mrs e n = (mrs', e') ->
  held j lo hi mrs' e'.
Proof.
  intros Hh He. destruct n as [|p|p]; simpl; intros [= <- <-]; try done.
  rewrite iter_pos_nat. rewrite <- (positive_nat_Z p).
  apply held_iter; [done|]. rewrite positive_nat_Z. lia.
Qed.

Lemma held_digits j lo hi mrs e :
  0 <= hi < 2 ^ 53 -> held j lo hi mrs e ->
  Zdigits2 (shr_m mrs) + e <= 53 - j.
Proof.
  intros Hhi (He & Hm & _ & Hle).
  assert (0 < 2 ^ (- e - j)) by (apply Z.pow_pos_nonneg; lia).
  assert (shr_m mrs < 2 ^ (53 - e - j)).
  { replace (53 - e - j) with (53 + (- e - j)) by lia.
    rewrite Z.pow_add_r by lia.
    destruct (shr_r mrs || shr_s mrs); nia. }
  pose proof (Zdigits2_le (shr_m mrs) (53 - e - j) Hm ltac:(lia) ltac:(done)).
  lia.
Qed.

Lemma held_shr_fexp j lo hi m e l mrs' e' :
  0 <= j <= 1074 -> 0 <= hi < 2 ^ 53 ->
  held j lo hi (shr_record_of_loc m l) e ->
  shr_fexp prec emax m e l = (mrs', e') ->
  held j lo hi mrs' e'.
Proof.
  intros Hj Hhi Hh. unfold shr_fexp. apply held_shr; [done|].
  pose proof (held_digits j lo hi _ e Hhi Hh) as Hd.
  rewrite shr_record_of_loc_m in Hd. destruct Hh as (He & _).
  rewrite fexp_eq. corelib_Z. lia.
Qed.

Lemma held_round j lo hi mrs e :
  held j lo hi mrs e ->
  held j lo hi
    (shr_record_of_loc
       (round_nearest_even (shr_m mrs) (loc_of_shr_record mrs)) loc_Exact) e.
Proof.
  intros (He & Hm & Hlo & Hhi). unfold held.
  destruct mrs as [m [] []]; cbn [shr_m shr_r shr_s orb loc_of_shr_record
    round_nearest_even shr_record_of_loc] in *; corelib_Z;
    try destruct (Z.even m); split_and!; lia.
Qed.

(** The rounding of a mantissa, an exponent and a location that stand for
    a value between [lo / 2 ^ j] and [hi / 2 ^ j]. *)
Lemma binary_round_aux_between_at j lo hi s mx ex lx :
  0 <= j <= 1074 -> 0 <= lo -> 0 <= hi < 2 ^ 53 ->
  held j lo hi (shr_record_of_loc mx lx) ex ->
  let x := binary_round_aux prec emax s mx ex lx in
  sign_of x = s /\ magnitude_between_at j lo hi x.
Proof.
  intros Hj Hlo Hhi Hh. unfold binary_round_aux.
  destruct (shr_fexp prec emax mx ex lx) as [mrs' e'] eqn:H1.
  apply (held_shr_fexp j lo hi) in H1; [|done..].
  apply held_round in H1.
  destruct (shr_fexp prec emax _ e' loc_Exact) as [mrs'' e''] eqn:H2.
  apply (held_shr_fexp j lo hi) in H2; [|done..].
  destruct H2 as (He & Hm & Hl & Hu).
  assert (0 < 2 ^ (- e'' - j)) by (apply Z.pow_pos_nonneg; lia).
  destruct (shr_m mrs'') as [|m|m] eqn:Hm2; [| |lia].
  - cbn. split; [done|]. split; [nia|lia].
  - change (emax - prec) with 971.
    replace (e'' <=? 971) with true by (symmetry; apply Z.leb_le; lia).
    cbn. split; [done|]. split; [done|].
    destruct (shr_r mrs'' || shr_s mrs''); lia.
Qed.

Lemma magnitude_between_at_0 lo hi x :
  magnitude_between_at 0 lo hi x <-> magnitude_between lo hi x.
Proof.
  destruct x as [s| | |s m e]; cbn; try done.
  by rewrite Z.sub_0_r, Z.opp_0.
Qed.

Lemma binary_round_aux_between lo hi s mx ex lx :
  0 <= lo -> 0 <= hi < 2 ^ 53 ->
  held 0 lo hi (shr_record_of_loc mx lx) ex ->
  let x := binary_round_aux prec emax s mx ex lx in
  sign_of x = s /\ magnitude_between lo hi x.
Proof.
  intros Hlo Hhi Hh.
  destruct (binary_round_aux_between_at 0 lo hi s mx ex lx) as [Hs Hm];
    [lia|done..|].
  split; [done|]. by apply magnitude_between_at_0.
Qed.

Lemma new_location_zero n : new_location n 0 = loc_Exact.
Proof.
  unfold new_location, new_location_even, new_location_odd.
  by destruct (Z.even n).
Qed.

(** The quotient that the division hands to the rounding stands for
    [m1 / m2]. *)
Lemma SFdiv_core_binary_held j lo hi m1 m2 q e l :
  0 <= j <= 53 -> 0 <= lo -> hi < 2 ^ 53 -> 0 < m2 ->
  lo * m2 <= m1 * 2 ^ j <= hi * m2 ->
  SFdiv_core_binary prec emax m1 0 m2 0 = (q, e, l) ->
  held j lo hi (shr_record_of_loc q l) e.
Proof.
  intros Hj Hlo Hhi H2 Hb. unfold SFdiv_core_binary. cbv zeta. corelib_Z.
  rewrite fexp_eq, !Z.add_0_r, Z.sub_0_r.
  set (e0 := Z.min _ 0).
  set (m' := match 0 - e0 with 0 => m1 | Zpos _ => _ | Zneg _ => _ end).
  assert (0 < 2 ^ j) as Hpj by (apply Z.pow_pos_nonneg; lia).
  assert (0 <= m1) as Hm1 by nia.
  assert (e0 <= - j) as He0.
  { unfold e0.
    assert (Zdigits2 m1 - Zdigits2 m2 <= 53 - j); [|lia].
    pose proof (Zdigits2_lt_pow m2 ltac:(lia)) as Hd2.
    pose proof (Zdigits2_nonneg m2).
    assert (m1 < 2 ^ (53 - j + Zdigits2 m2)).
    { rewrite Z.pow_add_r by lia.
      assert (2 ^ 53 = 2 ^ (53 - j) * 2 ^ j) as Hs53.
      { rewrite <- Z.pow_add_r by lia. f_equal. lia. }
      assert (0 < 2 ^ (53 - j)) by (apply Z.pow_pos_nonneg; lia).
      set (A := 2 ^ (53 - j)) in *. set (J := 2 ^ j) in *.
      set (D := 2 ^ Zdigits2 m2) in *. clearbody A J D.
      assert (m1 * J < A * J * m2) by nia.
      assert (A * J * m2 < A * J * D) by nia.
      apply (Z.mul_lt_mono_pos_r J); [done|]. nia. }
    pose proof (Zdigits2_le m1 (53 - j + Zdigits2 m2) Hm1 ltac:(lia)
                  ltac:(done)). lia. }
  assert (m' = m1 * 2 ^ (- e0)) as Hm'.
  { unfold m'. replace (- e0) with (0 - e0) by lia.
    destruct (0 - e0) as [|s|s] eqn:Es; [lia| |lia].
    by rewrite Z.shiftl_mul_pow2 by lia. }
  clearbody m'. pose proof (Z_div_mod m' m2 ltac:(lia)) as Hdiv.
  destruct (Z.div_eucl m' m2) as [q0 r]. destruct Hdiv as [Heq Hr].
  intros [= <- <- <-]. unfold held. rewrite shr_record_of_loc_m.
  assert (2 ^ (- e0) = 2 ^ (- e0 - j) * 2 ^ j) as Hsplit.
  { rewrite <- Z.pow_add_r by lia. f_equal. lia. }
  assert (0 < 2 ^ (- e0 - j)) as Hpos by (apply Z.pow_pos_nonneg; lia).
  set (P := 2 ^ (- e0 - j)) in *. clearbody P. subst m'.
  rewrite Hsplit in Heq. set (J := 2 ^ j) in *. clearbody J.
  assert (0 <= q0) by nia.
  assert (lo * P <= q0) by nia.
  destruct (decide (r = 0)) as [->|Hr0].
  - rewrite new_location_zero. cbn. split_and!; [done..|nia].
  - assert (q0 + 1 <= hi * P) by nia.
    destruct (new_location m2 r) as [|[]]; cbn; split_and!; lia.
Qed.

(** [a / b] for a quotient between [lo / 2 ^ j] and [hi / 2 ^ j]. *)
Lemma true_div_between_at j lo hi a b :
  0 <= j <= 53 -> 0 <= lo -> 0 <= hi < 2 ^ 53 -> 0 < b ->
  lo * b <= a * 2 ^ j <= hi * b ->
  exists q, true_div a b = inr q /\ sign_of q = false /\
            magnitude_between_at j lo hi q.
Proof.
  intros Hj Hlo Hhi Hb Hab. unfold true_div.
  destruct (Z.eqb_spec b 0) as [|_]; [lia|].
  assert (0 < 2 ^ j) as Hpj by (apply Z.pow_pos_nonneg; lia).
  assert (0 <= a) by nia. rewrite !Z.abs_eq by lia.
  destruct (SFdiv_core_binary prec emax a 0 b 0) as [[m e] l] eqn:Hcore.
  apply (SFdiv_core_binary_held j lo hi) in Hcore; [|lia..].
  replace (a <? 0) with false by (symmetry; apply Z.ltb_ge; lia).
  replace (b <? 0) with false by (symmetry; apply Z.ltb_ge; lia).
  pose proof (binary_round_aux_between_at j lo hi (xorb false false) m e l
                ltac:(lia) Hlo Hhi Hcore) as [Hs Hm].
  destruct (binary_round_aux _ _ _ _ _ _) as [| | |s' m' e'] eqn:E;
    try done; (eexists; split; [done|by split]).
Qed.

(** [a / b] for a quotient between two integers. *)
Lemma true_div_between lo hi a b :
  0 <= lo -> 0 <= hi < 2 ^ 53 -> 0 < b -> lo * b <= a <= hi * b ->
  exists q, true_div a b = inr q /\ between lo hi q.
Proof.
  intros Hlo Hhi Hb Hab.
  destruct (true_div_between_at 0 lo hi a b) as (q & Hq & Hs & Hm);
    [lia|done..|lia|].
  exists q. split; [done|]. split; [done|]. by apply magnitude_between_at_0.
Qed.

(** The product of two floats that lie between integers. *)
Lemma SFmul_between lx hx ly hy x y :
  0 <= lx -> 0 <= ly -> hx * hy < 2 ^ 53 ->
  between lx hx x -> between ly hy y ->
  between (lx * ly) (hx * hy) (SFmul prec emax x y).
Proof.
  intros Hlx Hly Hh [Hsx Hx] [Hsy Hy].
  destruct x as [sx| | |sx mx ex], y as [sy| | |sy my ey]; try done;
    cbn in Hsx, Hsy; subst; cbn [SFmul xorb].
  - cbn in *. split; [done|]. cbn. nia.
  - destruct Hy as (He & Hl & Hu). cbn in Hx.
    assert (0 < 2 ^ (- ey)) by (apply Z.pow_pos_nonneg; lia).
    split; [done|]. cbn. nia.
  - destruct Hx as (He & Hl & Hu). cbn in Hy.
    assert (0 < 2 ^ (- ex)) by (apply Z.pow_pos_nonneg; lia).
    split; [done|]. cbn. nia.
  - destruct Hx as (Hex & Hlx' & Hux), Hy as (Hey & Hly' & Huy).
    assert (0 < 2 ^ (- ex)) by (apply Z.pow_pos_nonneg; lia).
    assert (0 < 2 ^ (- ey)) by (apply Z.pow_pos_nonneg; lia).
    assert (0 <= hx) by nia. assert (0 <= hy) by nia.
    apply binary_round_aux_between; [nia|nia|].
    unfold held. cbn [shr_record_of_loc shr_m shr_r shr_s orb]. corelib_Z.
    rewrite Z.sub_0_r.
    replace (- (ex + ey)) with (- ex + - ey) by lia.
    rewrite Z.pow_add_r, Pos2Z.inj_mul by lia.
    split_and!; [lia|lia|nia|nia].
Qed.

(** [int] of a float that lies between integers. *)
Lemma int_of_float_between lo hi x :
  magnitude_between lo hi x ->
  exists z, int_of_float x = inr z /\ lo <= Z.abs z <= hi /\
            (if sign_of x then z <= 0 else 0 <= z).
Proof.
  destruct x as [s| | |s m e]; cbn; try done.
  - intros ?. exists 0. by destruct s.
  - intros (He & Hl & Hu). eexists. split; [done|].
    assert (0 < 2 ^ (- e)) by (apply Z.pow_pos_nonneg; lia).
    assert (lo <= Z.pos m / 2 ^ (- e) <= hi) as Hq.
    { split; [apply Z.div_le_lower_bound; lia|].
      apply Z.div_le_upper_bound; lia. }
    destruct (Z.leb_spec 0 e) as [H0|H0].
    + assert (e = 0) as -> by lia. rewrite Z.div_1_r in Hq.
      rewrite Z.mul_1_r. destruct s; cbn; lia.
    + assert (0 <= Z.pos m / 2 ^ (- e)) by (apply Z.div_pos; lia).
      destruct s; cbn [cond_Zopp]; lia.
Qed.

Lemma magnitude_between_weaken lo hi lo' hi' x :
  lo' <= lo -> hi <= hi' -> magnitude_between lo hi x ->
  magnitude_between lo' hi' x.
Proof.
  intros Hl Hh. destruct x as [s| | |s m e]; cbn; try done; [lia|].
  intros (He & Hlo & Hhi).
  assert (0 < 2 ^ (- e)) by (apply Z.pow_pos_nonneg; lia).
  split; [done|]. nia.
Qed.

Lemma between_weaken lo hi lo' hi' x :
  lo' <= lo -> hi <= hi' -> between lo hi x -> between lo' hi' x.
Proof.
  intros Hl Hh [Hs Hm]. split; [done|].
  by apply (magnitude_between_weaken lo hi).
Qed.

Lemma float_of_int_100_between : between 100 100 (float_of_int 100).
Proof. by vm_compute. Qed.

(** [int(100 * (rd / tot))] lies between [100 * lo] and [100 * hi] when
    the quotient lies between [lo] and [hi]. *)
Lemma scaled_quotient_between lo hi rd tot :
  0 <= lo <= hi -> hi <= 1 -> 0 < tot -> lo * tot <= rd <= hi * tot ->
  exists q p, true_div rd tot = inr q /\
              int_of_float (float_mul (float_of_int 100) q) = inr p /\
              100 * lo <= p <= 100 * hi.
Proof.
  intros Hlh Hhi Htot Hrd.
  destruct (true_div_between lo hi rd tot) as (q & Hq & Hb);
    [lia|lia|done..|].
  pose proof (SFmul_between 100 100 lo hi _ q ltac:(lia) ltac:(lia)
                ltac:(lia) float_of_int_100_between Hb) as [Hs Hm].
  apply int_of_float_between in Hm as (p & Hp & Hpb & Hsign).
  fold (float_mul (float_of_int 100) q) in Hp, Hs, Hsign.
  rewrite Hs in Hsign. exists q, p. split_and!; [done..|lia|lia].
Qed.

(** The same in units of [2 ^ - j]. *)
Lemma SFmul_between_at jx jy lx hx ly hy x y :
  0 <= jx -> 0 <= jy -> jx + jy <= 1074 ->
  0 <= lx -> 0 <= ly -> hx * hy < 2 ^ 53 ->
  sign_of x = false -> sign_of y = false ->
  magnitude_between_at jx lx hx x -> magnitude_between_at jy ly hy y ->
  sign_of (SFmul prec emax x y) = false /\
  magnitude_between_at (jx + jy) (lx * ly) (hx * hy) (SFmul prec emax x y).
Proof.
  intros Hjx Hjy Hj Hlx Hly Hh Hsx Hsy Hx Hy.
  destruct x as [sx| | |sx mx ex], y as [sy| | |sy my ey]; try done;
    cbn in Hsx, Hsy; subst; cbn [SFmul xorb].
  - cbn in *. split; [done|]. nia.
  - destruct Hy as (He & Hl & Hu). cbn in Hx.
    assert (0 < 2 ^ (- ey - jy)) by (apply Z.pow_pos_nonneg; lia).
    split; [done|]. cbn. nia.
  - destruct Hx as (He & Hl & Hu). cbn in Hy.
    assert (0 < 2 ^ (- ex - jx)) by (apply Z.pow_pos_nonneg; lia).
    split; [done|]. cbn. nia.
  - destruct Hx as (Hex & Hlx' & Hux), Hy as (Hey & Hly' & Huy).
    assert (0 < 2 ^ (- ex - jx)) by (apply Z.pow_pos_nonneg; lia).
    assert (0 < 2 ^ (- ey - jy)) by (apply Z.pow_pos_nonneg; lia).
    assert (0 <= hx) by nia. assert (0 <= hy) by nia.
    apply binary_round_aux_between_at; [lia|nia|nia|].
    unfold held. cbn [shr_record_of_loc shr_m shr_r shr_s orb]. corelib_Z.
    replace (- (ex + ey) - (jx + jy)) with ((- ex - jx) + (- ey - jy)) by lia.
    rewrite Z.pow_add_r, Pos2Z.inj_mul by lia.
    split_and!; [lia|lia|nia|nia].
Qed.

Lemma int_of_float_between_at j lo hi x :
  0 <= j -> magnitude_between_at j lo hi x ->
  exists z, int_of_float x = inr z /\
            lo / 2 ^ j <= Z.abs z <= hi / 2 ^ j /\
            (if sign_of x then z <= 0 else 0 <= z).
Proof.
  intros Hj. assert (0 < 2 ^ j) as Hpj by (apply Z.pow_pos_nonneg; lia).
  destruct x as [s| | |s m e]; cbn; try done.
  - intros [Hl Hh]. exists 0. split; [done|]. cbn [Z.abs].
    split; [|by destruct s]. split.
    + apply Z.div_le_upper_bound; lia.
    + apply Z.div_le_lower_bound; lia.
  - intros (He & Hl & Hu). eexists. split; [done|].
    assert (0 < 2 ^ (- e - j)) as Hpos by (apply Z.pow_pos_nonneg; lia).
    assert (2 ^ (- e) = 2 ^ (- e - j) * 2 ^ j) as Hsplit.
    { rewrite <- Z.pow_add_r by lia. f_equal. lia. }
    assert (lo / 2 ^ j <= Z.pos m / 2 ^ (- e) <= hi / 2 ^ j) as Hq.
    { rewrite Hsplit, <- Z.div_div by lia. split.
      - apply Z.div_le_mono; [done|]. apply Z.div_le_lower_bound; lia.
      - apply Z.div_le_mono; [done|]. apply Z.div_le_upper_bound; lia. }
    assert (0 <= Z.pos m / 2 ^ (- e))
      by (apply Z.div_pos; [lia|apply Z.pow_pos_nonneg; lia]).
    destruct (Z.leb_spec 0 e) as [H0|H0].
    + assert (e = 0) as -> by lia. cbn [Z.opp] in Hq.
      rewrite Z.div_1_r in Hq. rewrite Z.mul_1_r.
      destruct s; cbn [cond_Zopp]; lia.
    + destruct s; cbn [cond_Zopp]; lia.
Qed.

Lemma float_of_int_100_at :
  sign_of (float_of_int 100) = false /\
  magnitude_between_at 0 100 100 (float_of_int 100).
Proof. by vm_compute. Qed.

(** [int(100 * (rd / tot))] when the quotient lies between [lo / 2 ^ j]
    and [hi / 2 ^ j]. *)
Lemma scaled_quotient_between_at j lo hi rd tot :
  0 <= j <= 53 -> 0 <= lo -> 0 <= hi -> 100 * hi < 2 ^ 53 -> 0 < tot ->
  lo * tot <= rd * 2 ^ j <= hi * tot ->
  exists q p, true_div rd tot = inr q /\
              int_of_float (float_mul (float_of_int 100) q) = inr p /\
              100 * lo / 2 ^ j <= p <= 100 * hi / 2 ^ j.
Proof.
  intros Hj Hlo Hhi Hh Htot Hrd.
  destruct (true_div_between_at j lo hi rd tot) as (q & Hq & Hs & Hb);
    [lia..|done|done|].
  destruct float_of_int_100_at as [Hs100 Hm100].
  destruct (SFmul_between_at 0 j 100 100 lo hi _ q ltac:(lia) ltac:(lia)
              ltac:(lia) ltac:(lia) Hlo Hh Hs100 Hs Hm100 Hb) as [Hsp Hmp].
  apply int_of_float_between_at in Hmp as (p & Hp & Hpb & Hsign); [|lia].
  rewrite Hsp in Hsign. rewrite Z.add_0_l in Hpb.
  exists q, p. split_and!; [done|done|lia|lia].
Qed.

End float_bounds.

(** ** Subtraction, the other way round *)

Section float_sub_facts.
Import PyFloat.

Ltac corelib_Z :=
  change IntDef.Z.add with Z.add in *; change IntDef.Z.sub with Z.sub in *;
  change IntDef.Z.max with Z.max in *; change IntDef.Z.min with Z.min in *;
  change IntDef.Z.mul with Z.mul in *; change IntDef.Z.opp with Z.opp in *.

Lemma SFcompare_antisym x y :
  SFcompare y x = CompOpp <$> SFcompare x y.
Proof.
  destruct x as [sx|sx| |sx mx ex], y as [sy|sy| |sy my ey]; cbn;
    try done; try (by destruct sx); try (by destruct sy);
    try (by destruct sx, sy).
  destruct sx, sy; try done; rewrite (Z.compare_antisym ex ey);
    destruct (ex ?= ey); cbn; try done;
    by rewrite (Pos.compare_cont_antisym mx my Eq), ?CompOpp_involutive.
Qed.

Lemma SFeqb_sym x y : SFeqb y x = SFeqb x y.
Proof.
  unfold SFeqb. rewrite SFcompare_antisym.
  by destruct (SFcompare x y) as [[]|].
Qed.

Lemma binary_round_aux_opp s m e l :
  binary_round_aux prec emax (negb s) m e l
  = SFopp (binary_round_aux prec emax s m e l).
Proof.
  unfold binary_round_aux.
  destruct (shr_fexp prec emax m e l) as [mrs' e'].
  destruct (shr_fexp prec emax _ e' loc_Exact) as [mrs'' e''].
  destruct (shr_m mrs''); try done. by destruct (_ <=? _)%Z.
Qed.

Lemma binary_round_opp s m e :
  binary_round prec emax (negb s) m e = SFopp (binary_round prec emax s m e).
Proof.
  unfold binary_round. destruct (shl_align m e _) as [mz ez].
  apply binary_round_aux_opp.
Qed.

Lemma binary_normalize_opp z e :
  (z = 0 /\ binary_normalize prec emax (- z) e false = S754_zero false /\
   binary_normalize prec emax z e false = S754_zero false) \/
  binary_normalize prec emax (- z) e false
  = SFopp (binary_normalize prec emax z e false).
Proof.
  destruct z as [|p|p]; cbn [Z.opp binary_normalize].
  - by left.
  - right. apply (binary_round_opp false).
  - right. apply (binary_round_opp true).
Qed.

(** [x - y] and [y - x] are opposite, or are both [+0.0]. *)
Lemma SFsub_swap x y :
  SFsub prec emax y x = SFopp (SFsub prec emax x y) \/
  (SFsub prec emax y x = S754_zero false /\
   SFsub prec emax x y = S754_zero false).
Proof.
  destruct x as [sx|sx| |sx mx ex], y as [sy|sy| |sy my ey];
    cbn [SFsub SFopp]; try (by left); try (by destruct sx, sy; auto).
  corelib_Z. rewrite (Z.min_comm ey ex).
  set (a := cond_Zopp sx _). set (b := cond_Zopp sy _).
  replace (b - a) with (- (a - b)) by lia.
  destruct (binary_normalize_opp (a - b) (Z.min ex ey)) as [(_ & ? & ?)|?];
    auto.
Qed.

Lemma SFmul_opp_r x y :
  SFmul prec emax x (SFopp y) = SFopp (SFmul prec emax x y).
Proof.
  destruct x as [sx|sx| |sx mx ex], y as [sy|sy| |sy my ey];
    cbn [SFmul SFopp]; rewrite <- ?negb_xorb_r; try done.
  apply binary_round_aux_opp.
Qed.

Lemma int_of_float_opp x : int_of_float (SFopp x) = opposite (int_of_float x).
Proof.
  destruct x as [s|s| |s m e]; cbn; try done. f_equal. destruct s; cbn; lia.
Qed.

Lemma int_of_float_mul_zero x :
  int_of_float (SFmul prec emax (float_of_int 1000) x) = inr 0 ->
  opposite (int_of_float (SFmul prec emax (float_of_int 1000) x)) = inr 0.
Proof. by intros ->. Qed.

(** Aligning a mantissa to a smaller exponent keeps its value. *)
Lemma Pos_iter_xO m d : Zpos (Pos.iter xO m d) = Zpos m * 2 ^ Zpos d.
Proof.
  induction d as [|d IH] using Pos.peano_ind.
  - cbn. lia.
  - rewrite Pos.iter_succ, Pos2Z.inj_xO, IH, Pos2Z.inj_succ.
    rewrite Z.pow_succ_r by lia. lia.
Qed.

Lemma shl_align_spec mx ex ex' :
  (shl_align mx ex ex').2 = Z.min ex ex' /\
  Zpos (shl_align mx ex ex').1 = Zpos mx * 2 ^ (ex - Z.min ex ex').
Proof.
  unfold shl_align. corelib_Z. destruct (ex' - ex) as [|d|d] eqn:Hd; cbn [fst snd].
  - rewrite Z.min_l by lia. rewrite Z.sub_diag. lia.
  - rewrite Z.min_l by lia. rewrite Z.sub_diag. lia.
  - rewrite Z.min_r by lia. split; [done|]. rewrite Pos_iter_xO.
    do 2 f_equal. lia.
Qed.

(** The rounding of an integer mantissa that stands for a value between
    [lo] and [hi]. *)
Lemma binary_round_between lo hi s p e :
  0 <= lo -> 0 <= hi < 2 ^ 53 -> e <= 0 ->
  lo * 2 ^ (- e) <= Zpos p <= hi * 2 ^ (- e) ->
  let x := binary_round prec emax s p e in
  sign_of x = s /\ magnitude_between lo hi x.
Proof.
  intros Hlo Hhi He Hp. unfold binary_round.
  pose proof (shl_align_spec p e (fexp prec emax (Z.pos (digits2_pos p) + e)))
    as [He' Hm'].
  destruct (shl_align p e _) as [mz ez]. cbn [fst snd] in *.
  apply binary_round_aux_between; [done..|].
  unfold held. cbn [shr_record_of_loc shr_m shr_r shr_s orb]. subst ez.
  set (e' := Z.min e _) in *. assert (e' <= e) by (unfold e'; lia).
  rewrite Hm', Z.sub_0_r. replace (- e') with (- e + (e - e')) by lia.
  rewrite Z.pow_add_r by lia.
  assert (0 < 2 ^ (e - e')) by (apply Z.pow_pos_nonneg; lia).
  split_and!; [lia|lia|nia|nia].
Qed.

(** The difference of two floats of magnitude at most [h]. *)
Lemma SFsub_magnitude h x y :
  0 <= h -> 2 * h < 2 ^ 53 ->
  magnitude_between 0 h x -> magnitude_between 0 h y ->
  magnitude_between 0 (2 * h) (SFsub prec emax x y).
Proof.
  intros Hh Hh2 Hx Hy.
  destruct x as [sx|sx| |sx mx ex], y as [sy|sy| |sy my ey]; try done;
    cbn [SFsub].
  - destruct sx, sy; cbn; lia.
  - apply (magnitude_between_weaken 0 h); [lia..|exact Hy].
  - apply (magnitude_between_weaken 0 h); [lia..|exact Hx].
  - destruct Hx as (Hex & _ & Hmx), Hy as (Hey & _ & Hmy). corelib_Z.
    pose proof (shl_align_spec mx ex (Z.min ex ey)) as [_ Hax].
    pose proof (shl_align_spec my ey (Z.min ex ey)) as [_ Hay].
    replace (Z.min ex (Z.min ex ey)) with (Z.min ex ey) in Hax by lia.
    replace (Z.min ey (Z.min ex ey)) with (Z.min ex ey) in Hay by lia.
    set (ez := Z.min ex ey) in *.
    set (ax := (shl_align mx ex ez).1) in *.
    set (ay := (shl_align my ey ez).1) in *.
    assert (ez <= 0) by (unfold ez; lia).
    assert (Zpos ax <= h * 2 ^ (- ez)) as Hbx.
    { rewrite Hax. replace (- ez) with (- ex + (ex - ez)) by lia.
      rewrite Z.pow_add_r by (unfold ez; lia).
      assert (0 < 2 ^ (ex - ez)) by (apply Z.pow_pos_nonneg; unfold ez; lia).
      nia. }
    assert (Zpos ay <= h * 2 ^ (- ez)) as Hby.
    { rewrite Hay. replace (- ez) with (- ey + (ey - ez)) by lia.
      rewrite Z.pow_add_r by (unfold ez; lia).
      assert (0 < 2 ^ (ey - ez)) by (apply Z.pow_pos_nonneg; unfold ez; lia).
      nia. }
    clearbody ax ay ez.
    assert (0 < 2 ^ (- ez)) by (apply Z.pow_pos_nonneg; lia).
    set (z := cond_Zopp sx (Z.pos ax) - cond_Zopp sy (Z.pos ay)).
    assert (Z.abs z <= 2 * h * 2 ^ (- ez)) as Hz
      by (unfold z; destruct sx, sy; cbn [cond_Zopp]; lia).
    clearbody z. destruct z as [|p|p]; cbn [binary_normalize].
    + cbn. lia.
    + apply binary_round_between; lia.
    + apply binary_round_between; lia.
Qed.

(** [a / b] for operands of either sign. *)
Lemma true_div_magnitude lo hi a b :
  0 <= lo -> 0 <= hi < 2 ^ 53 -> b <> 0 ->
  lo * Z.abs b <= Z.abs a <= hi * Z.abs b ->
  exists q, true_div a b = inr q /\ magnitude_between lo hi q.
Proof.
  intros Hlo Hhi Hb Hab. unfold true_div.
  destruct (Z.eqb_spec b 0) as [|_]; [lia|].
  destruct (SFdiv_core_binary prec emax (Z.abs a) 0 (Z.abs b) 0)
    as [[m e] l] eqn:Hcore.
  apply (SFdiv_core_binary_held 0 lo hi) in Hcore; [|lia..].
  pose proof (binary_round_aux_between lo hi (xorb (a <? 0) (b <? 0)) m e l
                Hlo Hhi Hcore) as [_ Hm].
  destruct (binary_round_aux _ _ _ _ _ _) as [| | |s' m' e'] eqn:E;
    try done; by eexists.
Qed.

(** The product of two floats of bounded magnitude. *)
Lemma SFmul_magnitude hx hy x y :
  0 <= hx -> 0 <= hy -> hx * hy < 2 ^ 53 ->
  magnitude_between 0 hx x -> magnitude_between 0 hy y ->
  magnitude_between 0 (hx * hy) (SFmul prec emax x y).
Proof.
  intros Hhx Hhy Hh Hx Hy.
  destruct x as [sx| | |sx mx ex], y as [sy| | |sy my ey]; try done;
    cbn [SFmul]; try (cbn; nia).
  destruct Hx as (Hex & _ & Hux), Hy as (Hey & _ & Huy).
  assert (0 < 2 ^ (- ex)) by (apply Z.pow_pos_nonneg; lia).
  assert (0 < 2 ^ (- ey)) by (apply Z.pow_pos_nonneg; lia).
  apply binary_round_aux_between; [lia|nia|].
  unfold held. cbn [shr_record_of_loc shr_m shr_r shr_s orb]. corelib_Z.
  rewrite Z.sub_0_r.
  replace (- (ex + ey)) with (- ex + - ey) by lia.
  rewrite Z.pow_add_r, Pos2Z.inj_mul by lia.
  split_and!; [lia|lia|nia|nia].
Qed.

Lemma float_of_int_1000_magnitude :
  magnitude_between 0 1000 (float_of_int 1000).
Proof. by vm_compute. Qed.

(** *** The sign of a difference *)

Lemma binary_round_aux_signed s m e l :
  signed s (binary_round_aux prec emax s m e l).
Proof.
  unfold binary_round_aux.
  destruct (shr_fexp prec emax m e l) as [mrs' e'].
  destruct (shr_fexp prec emax _ e' loc_Exact) as [mrs'' e''].
  destruct (shr_m mrs''); try done. by destruct (_ <=? _)%Z.
Qed.

Lemma binary_round_signed s m e : signed s (binary_round prec emax s m e).
Proof.
  unfold binary_round. destruct (shl_align m e _) as [mz ez].
  apply binary_round_aux_signed.
Qed.

Lemma binary_normalize_signed z e :
  z <> 0 -> signed (z <? 0) (binary_normalize prec emax z e false).
Proof.
  destruct z as [|p|p]; [done|intros _..]; cbn [binary_normalize];
    apply binary_round_signed.
Qed.

Lemma SFeqb_value x y : SFeqb x y = true -> ~ value_lt x y.
Proof.
  unfold SFeqb, value_lt.
  destruct x as [sx|sx| |sx mx ex], y as [sy|sy| |sy my ey]; cbn;
    try (by intros ? (? & ? & ?)); try (intros _ (_ & _ & ?); lia);
    try (by destruct sx); try (by destruct sy).
  rewrite Pos.compare_cont_spec. unfold Pos.switch_Eq.
  destruct sx, sy; try done; destruct (Z.compare_spec ex ey) as [->| |];
    try done; destruct (Pos.compare_spec mx my) as [->| |];
    try done; intros _ (_ & _ & ?); lia.
Qed.

(** When [x] is exactly less than [y], [x - y] has the minus sign and
    [y - x] has not. *)
Lemma SFsub_signed x y :
  value_lt x y ->
  signed true (SFsub prec emax x y) /\ signed false (SFsub prec emax y x).
Proof.
  unfold value_lt.
  destruct x as [sx|sx| |sx mx ex], y as [sy|sy| |sy my ey];
    intros (Hx & Hy & Hlt); try done; cbn [SFsub]; cbn in Hlt; try lia.
  - assert (0 < 2 ^ (ey - ey)) by (apply Z.pow_pos_nonneg; lia).
    destruct sy; cbn in Hlt; [lia|]. done.
  - assert (0 < 2 ^ (ex - ex)) by (apply Z.pow_pos_nonneg; lia).
    destruct sx; cbn in Hlt; [|lia]. done.
  - corelib_Z. rewrite (Z.min_comm ey ex).
    pose proof (shl_align_spec mx ex (Z.min ex ey)) as [_ Hax].
    pose proof (shl_align_spec my ey (Z.min ex ey)) as [_ Hay].
    replace (Z.min ex (Z.min ex ey)) with (Z.min ex ey) in Hax by lia.
    replace (Z.min ey (Z.min ex ey)) with (Z.min ex ey) in Hay by lia.
    rewrite Hax, Hay.
    set (a := cond_Zopp sx _) in *. set (b := cond_Zopp sy _) in *.
    split.
    + pose proof (binary_normalize_signed (a - b) (Z.min ex ey)
                    ltac:(lia)) as Hn.
      by replace (a - b <? 0) with true in Hn
        by (symmetry; apply Z.ltb_lt; lia).
    + pose proof (binary_normalize_signed (b - a) (Z.min ex ey)
                    ltac:(lia)) as Hn.
      by replace (b - a <? 0) with false in Hn
        by (symmetry; apply Z.ltb_ge; lia).
Qed.

Lemma SFmul_signed s x :
  signed s x -> signed s (SFmul prec emax (float_of_int 1000) x).
Proof.
  change (float_of_int 1000)
    with (S754_finite false 8796093022208000 (-43)).
  destruct x as [sx|sx| |sx mx ex]; cbn [SFmul signed sign_of xorb]; try done.
  intros ->. apply binary_round_aux_signed.
Qed.

Lemma int_of_float_signed s x z :
  signed s x -> int_of_float x = inr z -> if s then z <= 0 else 0 <= z.
Proof.
  destruct x as [sx|sx| |sx mx ex]; cbn; try done.
  - intros _ [= <-]. by destruct s.
  - intros -> [= <-].
    assert (0 <= Z.pos mx * 2 ^ ex)
      by (apply Z.mul_nonneg_nonneg; [lia|apply Z.pow_nonneg; lia]).
    assert (0 <= Z.pos mx / 2 ^ (- ex)).
    { destruct (Z.leb_spec 0 (- ex)).
      - apply Z.div_pos; [lia|apply Z.pow_pos_nonneg; lia].
      - rewrite Z.pow_neg_r by lia. by rewrite Z.div_0_r. }
    destruct s, (0 <=? ex); cbn [cond_Zopp]; lia.
Qed.

End float_sub_facts.

(** ** The dict operations *)

Section defaultdict_facts.
Context {K : Type} `{EqDecision K}.
Implicit Types (d : list (K * Z)) (k : K).

Lemma dd_find_app d d' k :
  dd_find (d ++ d') k =
  match dd_find d k with Some v => Some v | None => dd_find d' k end.
Proof.
  induction d as [|[k' v] d IH]; simpl; [done|]. by case_decide.
Qed.

Lemma dd_find_None d k : dd_find d k = None <-> k ∉ dd_keys d.
Proof.
  unfold dd_keys. induction d as [|[k' v] d IH]; simpl.
  - split; [intros _; apply not_elem_of_nil|done].
  - rewrite not_elem_of_cons. destruct (decide (k' = k)) as [->|Hne].
    + split; [done|by intros [? _]].
    + rewrite IH. split; [by intros; split; [congruence|]|by intros [_ ?]].
Qed.

Lemma dd_find_Some_key d k v : dd_find d k = Some v -> k ∈ dd_keys d.
Proof.
  intros Hf. destruct (decide (k ∈ dd_keys d)) as [|Hn]; [done|].
  apply dd_find_None in Hn. congruence.
Qed.

Lemma dd_elem_of_find d k v :
  NoDup (dd_keys d) -> (k, v) ∈ d -> dd_find d k = Some v.
Proof.
  unfold dd_keys. induction d as [|[k' v'] d IH]; simpl.
  - by intros _ ?%elem_of_nil.
  - intros [Hk Hd]%NoDup_cons [[= -> ->]|Hin]%elem_of_cons.
    + by case_decide.
    + case_decide as Heq; [|auto]. subst k'. exfalso. apply Hk.
      apply list_elem_of_fmap. by exists (k, v).
Qed.

Lemma dd_find_setitem d k v k' :
  dd_find (dd_setitem d k v) k' = if decide (k = k') then Some v else dd_find d k'.
Proof.
  induction d as [|[k0 v0] d IH]; simpl.
  - by destruct (decide (k = k')).
  - destruct (decide (k0 = k)) as [->|Hne]; simpl.
    + by destruct (decide (k = k')).
    + rewrite IH. repeat case_decide; congruence.
Qed.

Lemma dd_keys_setitem d k v :
  dd_keys (dd_setitem d k v) =
  if decide (k ∈ dd_keys d) then dd_keys d else dd_keys d ++ [k].
Proof.
  unfold dd_keys. induction d as [|[k0 v0] d IH].
  - rewrite decide_False; [done|apply not_elem_of_nil].
  - cbn [dd_setitem]. destruct (decide (k0 = k)) as [->|Hne].
    + rewrite !fmap_cons. cbn [fst]. rewrite decide_True; [done|left].
    + rewrite !fmap_cons, IH. cbn [fst].
      destruct (decide (k ∈ d.*1)) as [Hin|Hin].
      * rewrite decide_True; [done|by right].
      * rewrite decide_False; [done|]. rewrite not_elem_of_cons. naive_solver.
Qed.

Lemma dd_getitem_fst d k : (dd_getitem d k).1 = dd_value d k.
Proof. unfold dd_getitem, dd_value. by destruct (dd_find d k). Qed.

Lemma dd_getitem_find d k k' :
  dd_find (dd_getitem d k).2 k' =
  match dd_find d k' with
  | Some v => Some v
  | None => if decide (k = k') then Some 0 else None
  end.
Proof.
  unfold dd_getitem. destruct (dd_find d k) as [v|] eqn:Hk; simpl.
  - destruct (dd_find d k') eqn:Hk'; [done|]. case_decide; [congruence|done].
  - rewrite dd_find_app. simpl. destruct (dd_find d k'); [done|].
    by repeat case_decide.
Qed.

Lemma dd_getitem_value d k k' : dd_value (dd_getitem d k).2 k' = dd_value d k'.
Proof.
  unfold dd_value. rewrite dd_getitem_find.
  destruct (dd_find d k'); [done|]. by case_decide.
Qed.

Lemma dd_getitem_keys d k :
  dd_keys (dd_getitem d k).2 =
  if decide (k ∈ dd_keys d) then dd_keys d else dd_keys d ++ [k].
Proof.
  unfold dd_getitem. destruct (dd_find d k) as [v|] eqn:Hk; simpl.
  - rewrite decide_True; [done|]. by eapply dd_find_Some_key.
  - rewrite decide_False; [|by apply dd_find_None].
    unfold dd_keys. by rewrite fmap_app.
Qed.

Lemma dd_getitem_snd_in d k : k ∈ dd_keys d -> (dd_getitem d k).2 = d.
Proof.
  intros Hin. unfold dd_getitem. destruct (dd_find d k) eqn:Hf; [done|].
  by apply dd_find_None in Hf.
Qed.

Lemma dd_iadd_find d k n k' :
  dd_find (dd_iadd d k n) k' =
  if decide (k = k') then Some (dd_value d k + n) else dd_find d k'.
Proof.
  unfold dd_iadd. pose proof (dd_getitem_fst d k) as Hv.
  pose proof (dd_getitem_find d k k') as Hf.
  destruct (dd_getitem d k) as [v d']. cbn [fst snd] in *. subst v.
  rewrite dd_find_setitem. case_decide; [done|].
  rewrite Hf. by destruct (dd_find d k').
Qed.

Lemma dd_iadd_value d k n k' :
  dd_value (dd_iadd d k n) k' =
  if decide (k = k') then dd_value d k + n else dd_value d k'.
Proof. unfold dd_value at 1. rewrite dd_iadd_find. by case_decide. Qed.

Lemma dd_iadd_keys d k n :
  dd_keys (dd_iadd d k n) =
  if decide (k ∈ dd_keys d) then dd_keys d else dd_keys d ++ [k].
Proof.
  unfold dd_iadd. pose proof (dd_getitem_keys d k) as Hk.
  destruct (dd_getitem d k) as [v d']. cbn [fst snd] in *.
  rewrite dd_keys_setitem, Hk.
  destruct (decide (k ∈ dd_keys d)) as [Hin|Hin].
  - by rewrite decide_True.
  - rewrite decide_True; [done|]. apply elem_of_app. right. left.
Qed.

Lemma dd_iadd_NoDup d k n : NoDup (dd_keys d) -> NoDup (dd_keys (dd_iadd d k n)).
Proof.
  intros Hd. rewrite dd_iadd_keys. case_decide as Hin; [done|].
  apply NoDup_app. split_and!; [done| |apply NoDup_singleton].
  intros x Hx ->%list_elem_of_singleton. done.
Qed.

End defaultdict_facts.

(** ** [ReadVsUnreadReport]: what the constructor builds *)

Section rvu_facts.
Context {K : Type} `{PyKey K} {Book : Type} `{BookAPI Book K}.
Import RvU.
Implicit Types (r : ReadVsUnreadReport K) (k : K) (book : Book).

Lemma count_key_agree flag book r k :
  tables_agree r -> tables_agree (count_key flag book r k).
Proof.
  intros Hr. unfold count_key.
  destruct (truthy k || negb flag); [|done].
  destruct Hr as [Hnd Hall].
  destruct (is_unread book); (split; [by apply dd_iadd_NoDup|]);
    intros k'; cbn [unread_count read_count grouping_count];
    rewrite !dd_iadd_value, dd_iadd_keys;
    destruct (Hall k') as (H1 & H2 & H3 & H5 & H6);
    destruct (decide (k = k')) as [->|Hne].
  all: split_and!; try lia.
  all: try (intros _; lia).
  all: try (intros Hnot; exfalso; apply Hnot; case_decide;
            [done|apply elem_of_app; right; left]).
  all: try (intros Hin; apply H5; case_decide; [done|];
            apply elem_of_app in Hin as [|Hin%list_elem_of_singleton];
            [done|congruence]).
  all: intros Hnot; apply H6; intros Hin; apply Hnot; case_decide; [done|];
       apply elem_of_app; by left.
Qed.

Lemma count_key_flag flag book r k :
  ignore_single_book_groups (count_key flag book r k) = ignore_single_book_groups r
  /\ stats (count_key flag book r k) = stats r.
Proof.
  unfold count_key. by destruct (truthy k || negb flag), (is_unread book).
Qed.

Lemma count_keys_agree flag book ks r :
  tables_agree r -> tables_agree (foldl (count_key flag book) r ks).
Proof.
  revert r. induction ks as [|k ks IH]; intros r Hr; [done|].
  by apply IH, count_key_agree.
Qed.

Lemma count_keys_flag flag book ks r :
  ignore_single_book_groups (foldl (count_key flag book) r ks)
    = ignore_single_book_groups r
  /\ stats (foldl (count_key flag book) r ks) = stats r.
Proof.
  revert r. induction ks as [|k ks IH]; intros r; simpl; [done|].
  destruct (IH (count_key flag book r k)) as [-> ->]. apply count_key_flag.
Qed.

Lemma count_books_agree attr flag books r :
  tables_agree r -> tables_agree (foldl (count_book attr flag) r books).
Proof.
  revert r. induction books as [|b books IH]; intros r Hr; [done|].
  by apply IH, count_keys_agree.
Qed.

Lemma count_books_flag attr flag books r :
  ignore_single_book_groups (foldl (count_book attr flag) r books)
    = ignore_single_book_groups r
  /\ stats (foldl (count_book attr flag) r books) = stats r.
Proof.
  revert r. induction books as [|b books IH]; intros r; simpl; [done|].
  destruct (IH (count_book attr flag r b)) as [-> ->]. apply count_keys_flag.
Qed.

Lemma RvU_init_agree books attr f1 f2 :
  tables_agree (init books attr f1 f2).
Proof.
  unfold init. apply count_books_agree.
  split; [constructor|]. intros k. cbn. unfold dd_value. cbn.
  split_and!; try lia. by intros ?%elem_of_nil.
Qed.

Lemma RvU_init_flag books attr f1 f2 :
  ignore_single_book_groups (init books attr f1 f2) = f1
  /\ stats (init books attr f1 f2) = None.
Proof.
  unfold init.
  match goal with
  | |- context [foldl _ ?r0 books] =>
      by destruct (count_books_flag attr f2 books r0) as [-> ->]
  end.
Qed.

(** *** [process] *)

(** The division of [process] raises [ZeroDivisionError] exactly on a
    group without members. *)
Lemma percentage_zero_division rd ur :
  percentage rd ur = inl ZeroDivisionError <-> rd + ur = 0.
Proof.
  unfold percentage. split.
  - destruct (PyFloat.true_div rd (rd + ur)) as [e|q] eqn:Hq.
    + intros [= ->]. by apply true_div_inl in Hq as [[_ ?]|[? _]].
    + by intros [?|?]%int_of_float_inl.
  - intros ->. by unfold PyFloat.true_div.
Qed.

Lemma percentage_defined rd ur :
  0 <= rd -> 0 <= ur -> rd + ur <> 0 -> exists p, percentage rd ur = inr p.
Proof.
  intros Hrd Hur Hne. unfold percentage.
  destruct (scaled_quotient_defined rd (rd + ur)) as (q & p & -> & Hp);
    [lia..|]. by exists p.
Qed.

Lemma stat_for_ext ig rc uc rc' uc' k :
  dd_value rc' k = dd_value rc k -> dd_value uc' k = dd_value uc k ->
  stat_for ig rc' uc' k = stat_for ig rc uc k.
Proof. unfold stat_for. by intros -> ->. Qed.

Lemma RvU_stat_for_key ig rc uc k st :
  stat_for ig rc uc k = Some st ->
  key st = k /\ difference st = dd_value rc k - dd_value uc k /\
  percentage (dd_value rc k) (dd_value uc k) = inr (percentage_read st) /\
  (ig = true -> dd_value rc k + dd_value uc k <> 1).
Proof.
  unfold stat_for.
  destruct (ig && (_ =? 1)) eqn:Hskip; [done|].
  destruct (percentage _ _) as [|p]; [done|]. intros [= <-]. cbn.
  split_and!; try done. intros ->. simpl in Hskip. lia.
Qed.

Lemma omap_stat_for_ext ig rc uc rc' uc' (keys : list K) :
  (forall k, dd_value rc' k = dd_value rc k) ->
  (forall k, dd_value uc' k = dd_value uc k) ->
  omap (stat_for ig rc' uc') keys = omap (stat_for ig rc uc) keys.
Proof.
  intros Hr Hu. induction keys as [|k keys IH]; [done|].
  cbn [omap list_omap]. by rewrite IH, (stat_for_ext ig rc uc rc' uc' k).
Qed.

(** When every count read is a count of at least one book, the loop runs
    to its end, appends exactly the stats of the keys it keeps, and leaves
    every count as it was. *)
Lemma process_loop_spec ig (keys : list K) rc uc acc :
  (forall k, k ∈ keys ->
     0 <= dd_value rc k /\ 0 <= dd_value uc k /\
     dd_value rc k + dd_value uc k <> 0) ->
  exists rc' uc',
    process_loop ig keys rc uc acc
      = (rc', uc', acc ++ omap (stat_for ig rc uc) keys, None) /\
    (forall k, dd_value rc' k = dd_value rc k) /\
    (forall k, dd_value uc' k = dd_value uc k) /\
    (forall k, k ∈ dd_keys rc \/ k ∈ keys -> k ∈ dd_keys rc') /\
    (forall k, k ∈ dd_keys uc \/ k ∈ keys -> k ∈ dd_keys uc') /\
    (keys ⊆ dd_keys rc -> rc' = rc) /\
    (keys ⊆ dd_keys uc -> uc' = uc).
Proof.
  revert rc uc acc. induction keys as [|k keys IH]; intros rc uc acc Hk.
  - exists rc, uc. rewrite app_nil_r. split_and!; try done.
    all: by intros k [?|?%elem_of_nil].
  - cbn [process_loop].
    pose proof (dd_getitem_fst rc k) as Hrd.
    pose proof (dd_getitem_value rc k) as Hrv.
    pose proof (dd_getitem_keys rc k) as Hrk.
    pose proof (dd_getitem_snd_in rc k) as Hrs.
    pose proof (dd_getitem_fst uc k) as Hur.
    pose proof (dd_getitem_value uc k) as Huv.
    pose proof (dd_getitem_keys uc k) as Huk.
    pose proof (dd_getitem_snd_in uc k) as Hus.
    destruct (dd_getitem rc k) as [rd rc1], (dd_getitem uc k) as [ur uc1].
    cbn [fst snd] in *. subst rd ur.
    destruct (Hk k) as (Hrd0 & Hur0 & Hne); [left|].
    assert (forall acc', exists rc' uc',
      process_loop ig keys rc1 uc1 acc'
        = (rc', uc', acc' ++ omap (stat_for ig rc uc) keys, None) /\
      (forall k, dd_value rc' k = dd_value rc k) /\
      (forall k, dd_value uc' k = dd_value uc k) /\
      (forall k', k' ∈ dd_keys rc \/ k' ∈ k :: keys -> k' ∈ dd_keys rc') /\
      (forall k', k' ∈ dd_keys uc \/ k' ∈ k :: keys -> k' ∈ dd_keys uc') /\
      (k :: keys ⊆ dd_keys rc -> rc' = rc) /\
      (k :: keys ⊆ dd_keys uc -> uc' = uc)) as Hrest.
    { intros acc'.
      destruct (IH rc1 uc1 acc')
        as (rc' & uc' & Heq & Hr & Hu & Hsr & Hsu & Hir & Hiu).
      { intros k' Hk'. rewrite Hrv, Huv. apply Hk. by right. }
      exists rc', uc'.
      rewrite (omap_stat_for_ext ig rc uc rc1 uc1) in Heq by done.
      assert (forall k', k' ∈ dd_keys rc \/ k' = k -> k' ∈ dd_keys rc1) as Hkr.
      { intros k' Hin. rewrite Hrk. destruct (decide (k ∈ dd_keys rc)).
        - by destruct Hin as [? | ->].
        - apply elem_of_app. destruct Hin as [? | ->]; [by left|right; left]. }
      assert (forall k', k' ∈ dd_keys uc \/ k' = k -> k' ∈ dd_keys uc1) as Hku.
      { intros k' Hin. rewrite Huk. destruct (decide (k ∈ dd_keys uc)).
        - by destruct Hin as [? | ->].
        - apply elem_of_app. destruct Hin as [? | ->]; [by left|right; left]. }
      split_and!; try done.
      - intros k'. by rewrite Hr, Hrv.
      - intros k'. by rewrite Hu, Huv.
      - intros k' [Hin|[->|Hin]%elem_of_cons]; apply Hsr; auto.
      - intros k' [Hin|[->|Hin]%elem_of_cons]; apply Hsu; auto.
      - intros Hsub. rewrite Hrs in * by (apply Hsub; left).
        apply Hir. intros k' Hin. apply Hsub. by right.
      - intros Hsub. rewrite Hus in * by (apply Hsub; left).
        apply Hiu. intros k' Hin. apply Hsub. by right. }
    cbn [omap list_omap].
    assert (stat_for ig rc uc k =
            if ig && (dd_value rc k + dd_value uc k =? 1) then None
            else match percentage (dd_value rc k) (dd_value uc k) with
                 | inr p => Some {| key := k; percentage_read := p;
                      difference := dd_value rc k - dd_value uc k |}
                 | inl _ => None
                 end) as -> by done.
    destruct (ig && (dd_value rc k + dd_value uc k =? 1)) eqn:Hskip.
    + apply Hrest.
    + destruct (percentage_defined _ _ Hrd0 Hur0 Hne) as [p ->].
      destruct (Hrest (acc ++ [{| key := k; percentage_read := p;
                   difference := dd_value rc k - dd_value uc k |}]))
        as (rc' & uc' & Heq & Hrest').
      exists rc', uc'. split; [|done]. rewrite Heq. by rewrite <- app_assoc.
Qed.

(** On a constructed report [process] returns; it keeps every count and
    the whole of [grouping_count], stores the stats of the keys it keeps,
    and leaves each key of [grouping_count] present in both count
    tables. *)
Lemma RvU_process_constructed r :
  tables_agree r ->
  exists rc' uc',
    process r =
      ({| unread_count := uc'; read_count := rc';
          grouping_count := grouping_count r;
          ignore_single_book_groups := ignore_single_book_groups r;
          stats := Some (omap (stat_for (ignore_single_book_groups r)
                                        (read_count r) (unread_count r))
                              (dd_keys (grouping_count r))) |}, None) /\
    (forall k, dd_value rc' k = dd_value (read_count r) k) /\
    (forall k, dd_value uc' k = dd_value (unread_count r) k) /\
    dd_keys (grouping_count r) ⊆ dd_keys rc' /\
    dd_keys (grouping_count r) ⊆ dd_keys uc' /\
    (dd_keys (grouping_count r) ⊆ dd_keys (read_count r) -> rc' = read_count r) /\
    (dd_keys (grouping_count r) ⊆ dd_keys (unread_count r) ->
     uc' = unread_count r).
Proof.
  intros [Hnd Hall]. unfold process.
  destruct (process_loop_spec (ignore_single_book_groups r)
              (dd_keys (grouping_count r)) (read_count r) (unread_count r) [])
    as (rc' & uc' & -> & Hr & Hu & Hkr & Hku & Hir & Hiu).
  - intros k Hk. destruct (Hall k) as (?&?&?&H5&?).
    specialize (H5 Hk). lia.
  - exists rc', uc'. split_and!; try done.
    + intros k Hk. apply Hkr. by right.
    + intros k Hk. apply Hku. by right.
Qed.

Lemma RvU_process_agree r : tables_agree r -> tables_agree (process r).1.
Proof.
  intros Hr. destruct (RvU_process_constructed r Hr)
    as (rc' & uc' & -> & Hrv & Huv & _).
  destruct Hr as [Hnd Hall]. split; [done|]. intros k.
  cbn [fst read_count unread_count grouping_count].
  rewrite Hrv, Huv. apply Hall.
Qed.

(** A second [process] finds every key in place: it changes nothing and
    rebuilds the same stats. *)
Lemma RvU_process_twice r :
  tables_agree r ->
  (process r).2 = None /\ process (process r).1 = ((process r).1, None).
Proof.
  intros Hr. destruct (RvU_process_constructed r Hr)
    as (rc' & uc' & Hp & Hrv & Huv & Hkr & Hku & _).
  pose proof (RvU_process_agree r Hr) as Hr1.
  destruct (RvU_process_constructed _ Hr1)
    as (rc'' & uc'' & Hp' & _ & _ & _ & _ & Hir & Hiu).
  rewrite Hp in Hp', Hir, Hiu |- *.
  cbn [fst snd read_count unread_count grouping_count
       ignore_single_book_groups stats] in *.
  split; [done|].
  rewrite Hp', (Hir Hkr), (Hiu Hku). do 3 f_equal.
  by apply omap_stat_for_ext.
Qed.

End rvu_facts.

(** ** What the tables of a report hold *)

Section counting_facts.
Context {K : Type} `{EqDecision K}.
Implicit Types (d : list (K * Z)) (k : K) (l : list K).

Lemma filter_all {A} (P : A -> Prop) `{!forall x, Decision (P x)} (l : list A) :
  Forall P l -> filter P l = l.
Proof.
  induction 1 as [|x l Hx Hl IH]; [done|].
  by rewrite filter_cons_True, IH.
Qed.

Lemma filter_ext_in {A} (P Q : A -> Prop) `{!forall x, Decision (P x)}
    `{!forall x, Decision (Q x)} (l : list A) :
  (forall x, x ∈ l -> P x <-> Q x) -> filter P l = filter Q l.
Proof.
  induction l as [|x l IH]; intros Hpq; [done|].
  rewrite !filter_cons, IH by (intros y Hy; apply Hpq; by right).
  destruct (decide (P x)) as [Hp|Hp].
  - by rewrite decide_True by (apply Hpq; [left|done]).
  - rewrite decide_False; [done|]. intros Hq. apply Hp, Hpq; [left|done].
Qed.

Lemma occurrences_nil k : occurrences k [] = 0.
Proof. done. Qed.

Lemma occurrences_cons k k' l :
  occurrences k (k' :: l)
  = (if decide (k' = k) then 1 else 0) + occurrences k l.
Proof.
  unfold occurrences. rewrite filter_cons.
  case_decide; cbn [length]; lia.
Qed.

Lemma occurrences_app k l1 l2 :
  occurrences k (l1 ++ l2) = occurrences k l1 + occurrences k l2.
Proof. unfold occurrences. rewrite filter_app, length_app. lia. Qed.

Lemma occurrences_nonneg k l : 0 <= occurrences k l.
Proof. unfold occurrences. lia. Qed.

Lemma occurrences_pos k l : k ∈ l <-> 1 <= occurrences k l.
Proof.
  induction l as [|k' l IH].
  - rewrite occurrences_nil. split; [by intros ?%elem_of_nil|lia].
  - rewrite occurrences_cons, elem_of_cons.
    pose proof (occurrences_nonneg k l).
    case_decide as Hk; split; try lia; auto.
    + intros [->|Hin]; [done|]. apply IH in Hin. lia.
    + intros ?. right. apply IH. lia.
Qed.

Lemma occurrences_Permutation k l1 l2 :
  l1 ≡ₚ l2 -> occurrences k l1 = occurrences k l2.
Proof. unfold occurrences. by intros ->. Qed.

Lemma first_occurrences_elem_of k l : k ∈ first_occurrences l <-> k ∈ l.
Proof.
  induction l as [|k' l IH]; [done|]. cbn [first_occurrences].
  rewrite !elem_of_cons, list_elem_of_filter, IH.
  destruct (decide (k = k')); tauto.
Qed.

Lemma first_occurrences_NoDup l : NoDup (first_occurrences l).
Proof.
  induction l as [|k l IH]; [constructor|]. cbn [first_occurrences].
  constructor; [|by apply NoDup_filter].
  by intros [? _]%list_elem_of_filter.
Qed.

Lemma first_occurrences_filter (P : K -> Prop) `{!forall k, Decision (P k)} l :
  first_occurrences (filter P l) = filter P (first_occurrences l).
Proof.
  induction l as [|k l IH]; [done|]. cbn [first_occurrences].
  rewrite !filter_cons. case_decide as Hk.
  - cbn [first_occurrences]. rewrite IH. f_equal.
    rewrite !list_filter_filter. apply list_filter_iff. intros k'. tauto.
  - rewrite IH, list_filter_filter. apply list_filter_iff.
    intros k'. split; [|tauto]. intros Hk'. split; try done.
    intros Heq. apply Hk. by rewrite <- Heq.
Qed.

Lemma first_occurrences_Permutation l1 l2 :
  l1 ≡ₚ l2 -> first_occurrences l1 ≡ₚ first_occurrences l2.
Proof.
  intros Hp. apply NoDup_Permutation; try apply first_occurrences_NoDup.
  intros k. by rewrite !first_occurrences_elem_of, Hp.
Qed.

(** Counting the keys of a list into a dict, one [d[k] += n] after the
    other. *)
Lemma dd_iadd_all_value (n : Z) l d k :
  dd_value (foldl (fun d k => dd_iadd d k n) d l) k
  = dd_value d k + n * occurrences k l.
Proof.
  revert d. induction l as [|k' l IH]; intros d; cbn [foldl].
  - rewrite occurrences_nil. lia.
  - rewrite IH, dd_iadd_value, occurrences_cons.
    destruct (decide (k' = k)) as [->|]; lia.
Qed.

Lemma dd_iadd_all_keys (n : Z) l d :
  dd_keys (foldl (fun d k => dd_iadd d k n) d l)
  = dd_keys d ++ first_occurrences (filter (fun k => k ∉ dd_keys d) l).
Proof.
  revert d. induction l as [|k l IH]; intros d; cbn [foldl].
  - by rewrite app_nil_r.
  - rewrite IH, dd_iadd_keys, filter_cons. case_decide as Hin.
    + rewrite decide_False by (by intros ?). done.
    + rewrite decide_True by done. cbn [first_occurrences].
      rewrite <- app_assoc. cbn [app]. do 2 f_equal.
      rewrite <- first_occurrences_filter, list_filter_filter.
      f_equal. apply list_filter_iff. intros k'.
      rewrite elem_of_app, list_elem_of_singleton. tauto.
Qed.

Lemma dd_iadd_all_keys_nil (n : Z) l :
  dd_keys (foldl (fun d k => dd_iadd d k n) [] l) = first_occurrences l.
Proof.
  rewrite dd_iadd_all_keys. cbn [dd_keys fmap list_fmap app]. f_equal.
  apply filter_all, Forall_forall. intros k _. apply not_elem_of_nil.
Qed.

End counting_facts.

Section rvu_counts.
Context {K : Type} `{PyKey K} {Book : Type} `{BookAPI Book K}.
Import RvU.
Implicit Types (r : ReadVsUnreadReport K) (k : K) (book : Book).

Lemma count_keys_tables flag book (ks : list K) r :
  let r' := foldl (count_key flag book) r ks in
  let ks' := filter (fun k => kept flag k) ks in
  grouping_count r' = tally (grouping_count r) ks' /\
  unread_count r'
    = tally (unread_count r) (if is_unread book then ks' else []) /\
  read_count r' = tally (read_count r) (if is_unread book then [] else ks').
Proof.
  revert r. induction ks as [|k ks IH]; intros r; cbn zeta.
  - by destruct (is_unread book).
  - cbn [foldl]. destruct (IH (count_key flag book r k)) as (-> & -> & ->).
    rewrite filter_cons. unfold count_key. fold (kept flag k).
    destruct (decide (kept flag k)) as [Hk|Hk];
      destruct (kept flag k); try done.
    by destruct (is_unread book).
Qed.

Lemma count_books_tables attr flag (books : list Book) r :
  let r' := foldl (count_book attr flag) r books in
  grouping_count r'
    = tally (grouping_count r) (books ≫= kept_keys attr flag) /\
  unread_count r'
    = tally (unread_count r) (unread_books books ≫= kept_keys attr flag) /\
  read_count r'
    = tally (read_count r) (read_books books ≫= kept_keys attr flag).
Proof.
  revert r. induction books as [|b books IH]; intros r; cbn zeta; [done|].
  cbn [foldl]. destruct (IH (count_book attr flag r b)) as (-> & -> & ->).
  destruct (count_keys_tables flag b (property_as_sequence b attr) r)
    as (Hg & Hu & Hr).
  unfold count_book. rewrite Hg, Hu, Hr.
  unfold unread_books, read_books. rewrite !filter_cons, bind_cons.
  unfold tally. rewrite !foldl_app. fold (kept_keys attr flag b).
  destruct (is_unread b).
  - rewrite decide_True, decide_False by done.
    by rewrite bind_cons, foldl_app.
  - rewrite decide_False, decide_True by done.
    by rewrite bind_cons, foldl_app.
Qed.

(** The three tables of a constructed report. *)
Lemma RvU_init_tables (books : list Book) attr f1 f2 :
  let r := init books attr f1 f2 in
  grouping_count r = tally [] (books ≫= kept_keys attr f2) /\
  unread_count r = tally [] (unread_books books ≫= kept_keys attr f2) /\
  read_count r = tally [] (read_books books ≫= kept_keys attr f2).
Proof. apply count_books_tables. Qed.

Lemma tally_value (d : list (K * Z)) (l : list K) k :
  dd_value (tally d l) k = dd_value d k + occurrences k l.
Proof. unfold tally. rewrite dd_iadd_all_value. lia. Qed.

Lemma tally_keys (l : list K) : dd_keys (tally [] l) = first_occurrences l.
Proof. apply dd_iadd_all_keys_nil. Qed.

End rvu_counts.

(** ** [BestRankedReport]: what the constructor builds *)

Section br_facts.
Context {K : Type} `{PyKey K} {Book : Type} `{BookAPI Book K}.
Import BR.
Implicit Types (r : BestRankedReport K) (k : K) (book : Book).

Lemma histogram_incr_inr h br h' :
  length h = 6%nat -> histogram_incr h br = inr h' ->
  length h' = 6%nat /\ -6 <= br <= 5.
Proof.
  intros Hlen. unfold histogram_incr. rewrite Hlen.
  set (i := if br <? 0 then br + Z.of_nat 6 else br).
  destruct ((0 <=? i) && (i <? Z.of_nat 6)) eqn:Hi; [|done].
  apply andb_true_iff in Hi as [Hlo%Z.leb_le Hhi%Z.ltb_lt].
  destruct (h !! _) as [[c|]|]; [|done..]. intros [= <-].
  rewrite length_insert. split; [done|].
  unfold i in *. destruct (Z.ltb_spec br 0); lia.
Qed.

Lemma groupings_incr_inr (rg : list (K * list (option Z))) k br rg' :
  Forall (fun kh => length kh.2 = 6%nat) rg ->
  groupings_incr rg k br = inr rg' ->
  Forall (fun kh => length kh.2 = 6%nat) rg' /\ -6 <= br <= 5.
Proof.
  revert rg'. induction rg as [|[k0 h] rg IH]; intros rg' Hrg; cbn [groupings_incr].
  - destruct (histogram_incr new_histogram br) as [|h'] eqn:Hh; [done|].
    intros [= <-]. apply histogram_incr_inr in Hh as [Hl Hb]; [|done].
    split; [|done]. by constructor.
  - apply Forall_cons in Hrg as [Hh Hrg]. destruct (decide (k0 = k)) as [->|Hne].
    + destruct (histogram_incr h br) as [|h'] eqn:Hh'; [done|].
      intros [= <-]. apply histogram_incr_inr in Hh' as [Hl Hb]; [|done].
      split; [|done]. by constructor.
    + destruct (groupings_incr rg k br) as [|rg''] eqn:Hrg'; [done|].
      intros [= <-]. destruct (IH rg'' Hrg eq_refl) as [Hf Hb].
      split; [|done]. by constructor.
Qed.

Lemma count_key_inr flag br acc k r' :
  count_key flag br acc k = inr r' ->
  exists r, acc = inr r /\
    (tables_agree r -> tables_agree r') /\
    ignore_single_book_groups r' = ignore_single_book_groups r /\
    stats r' = stats r.
Proof.
  unfold count_key. destruct acc as [e|r]; [done|].
  destruct (truthy k || negb flag); [|intros [= <-]; by exists r].
  destruct (groupings_incr (rating_groupings r) k br) as [|rg] eqn:Hrg; [done|].
  intros [= <-]. exists r. split; [done|]. split; [|done].
  intros (Hnd & Hkeys & Hh & Hall).
  apply groupings_incr_inr in Hrg as [Hrg Hbr]; [|done].
  split_and!; cbn [rated_count cumulative_rating rating_groupings].
  - by apply dd_iadd_NoDup.
  - by rewrite !dd_iadd_keys, Hkeys.
  - done.
  - intros k'. rewrite !dd_iadd_value, dd_iadd_keys.
    destruct (Hall k') as (H1 & H2 & H3).
    destruct (decide (k = k')) as [->|Hne].
    + split_and!; [lia|lia|intros _; lia].
    + split_and!; [done..|]. intros Hin. apply H3.
      destruct (decide (k ∈ dd_keys (rated_count r))); [done|].
      apply elem_of_app in Hin as [|Hin%list_elem_of_singleton]; [done|congruence].
Qed.

Lemma count_keys_inr flag br ks acc r' :
  foldl (count_key flag br) acc ks = inr r' ->
  exists r, acc = inr r /\
    (tables_agree r -> tables_agree r') /\
    ignore_single_book_groups r' = ignore_single_book_groups r /\
    stats r' = stats r.
Proof.
  revert acc. induction ks as [|k ks IH]; intros acc; simpl.
  - intros ->. by exists r'.
  - intros (r1 & Hr1 & Ha1 & Hf1 & Hs1)%IH.
    apply count_key_inr in Hr1 as (r & -> & Ha & Hf & Hs).
    exists r. split_and!; [done|auto|congruence..].
Qed.

Lemma count_book_inr attr flag acc book r' :
  count_book attr flag acc book = inr r' ->
  exists r, acc = inr r /\
    (tables_agree r -> tables_agree r') /\
    ignore_single_book_groups r' = ignore_single_book_groups r /\
    stats r' = stats r.
Proof.
  unfold count_book. destruct (rating book) as [br|]; [|intros ->; by exists r'].
  destruct (br =? 0); [intros ->; by exists r'|]. apply count_keys_inr.
Qed.

Lemma count_books_inr attr flag books acc r' :
  foldl (count_book attr flag) acc books = inr r' ->
  exists r, acc = inr r /\
    (tables_agree r -> tables_agree r') /\
    ignore_single_book_groups r' = ignore_single_book_groups r /\
    stats r' = stats r.
Proof.
  revert acc. induction books as [|b books IH]; intros acc; simpl.
  - intros ->. by exists r'.
  - intros (r1 & Hr1 & Ha1 & Hf1 & Hs1)%IH.
    apply count_book_inr in Hr1 as (r & -> & Ha & Hf & Hs).
    exists r. split_and!; [done|auto|congruence..].
Qed.

Lemma BR_init_agree books attr f1 f2 r :
  init books attr f1 f2 = inr r ->
  tables_agree r /\ ignore_single_book_groups r = f1 /\ stats r = None.
Proof.
  unfold init. intros (r0 & [= <-] & Ha & Hf & Hs)%count_books_inr.
  split; [|done]. apply Ha. split_and!; cbn; [constructor|done|done|].
  intros k. unfold dd_value. cbn. split_and!; [lia..|by intros ?%elem_of_nil].
Qed.

(** *** [process] *)

Lemma true_div_rating cum n :
  1 <= n -> Z.abs cum <= 6 * n -> exists av, PyFloat.true_div cum n = inr av.
Proof.
  intros Hn Hc. destruct (true_div_below cum n 3) as (av & Hav & _); [lia| |lia|eauto].
  rewrite (Z.abs_eq n) by lia.
  pose proof (Zdigits2_mono (Z.abs cum) (n * 2 ^ 3) ltac:(lia)).
  pose proof (Zdigits2_mul_pow n 3 ltac:(lia) ltac:(lia)). lia.
Qed.

Lemma BR_stat_for_ext ig cr cr' (item : K * Z) :
  dd_value cr' item.1 = dd_value cr item.1 ->
  stat_for ig cr' item = stat_for ig cr item.
Proof. unfold stat_for. by intros ->. Qed.

Lemma BR_omap_stat_for_ext ig cr cr' (items : list (K * Z)) :
  (forall k, dd_value cr' k = dd_value cr k) ->
  omap (stat_for ig cr') items = omap (stat_for ig cr) items.
Proof.
  intros Hc. induction items as [|it items IH]; [done|].
  cbn [omap list_omap]. by rewrite IH, (BR_stat_for_ext ig cr cr' it).
Qed.

Lemma BR_process_loop_spec ig (items : list (K * Z)) cr acc :
  (forall k n, (k, n) ∈ items -> 1 <= n /\ Z.abs (dd_value cr k) <= 6 * n) ->
  exists cr',
    process_loop ig items cr acc
      = (cr', acc ++ omap (stat_for ig cr) items, None) /\
    (forall k, dd_value cr' k = dd_value cr k) /\
    (items.*1 ⊆ dd_keys cr -> cr' = cr).
Proof.
  revert cr acc. induction items as [|[k n] items IH]; intros cr acc Hit.
  - exists cr. by rewrite app_nil_r.
  - cbn [process_loop].
    pose proof (dd_getitem_fst cr k) as Hc.
    pose proof (dd_getitem_value cr k) as Hv.
    pose proof (dd_getitem_snd_in cr k) as Hs.
    destruct (dd_getitem cr k) as [cum cr1]. cbn [fst snd] in *. subst cum.
    destruct (Hit k n) as [Hn Hb]; [left|].
    destruct (true_div_rating _ _ Hn Hb) as [av Hav].
    assert (forall acc', exists cr',
      process_loop ig items cr1 acc'
        = (cr', acc' ++ omap (stat_for ig cr) items, None) /\
      (forall k, dd_value cr' k = dd_value cr k) /\
      (((k, n) :: items).*1 ⊆ dd_keys cr -> cr' = cr)) as Hrest.
    { intros acc'. destruct (IH cr1 acc') as (cr' & Heq & Hval & Hid).
      { intros k' n' Hin. rewrite Hv. apply Hit. by right. }
      exists cr'. rewrite (BR_omap_stat_for_ext ig cr cr1) in Heq by done.
      split_and!; [done|by intros k'; rewrite Hval, Hv|].
      intros Hsub. rewrite Hs in * by (apply Hsub; left).
      apply Hid. intros k' Hin. apply Hsub. by right. }
    cbn [omap list_omap].
    assert (stat_for ig cr (k, n) =
            if negb ig || (1 <? n) then
              Some {| key := k; average_rating := av;
                      number_of_books_rated := n |}
            else None) as ->
      by (unfold stat_for; cbn [fst snd]; by rewrite Hav).
    rewrite Hav. destruct (negb ig || (1 <? n)).
    + destruct (Hrest (acc ++ [{| key := k; average_rating := av;
                                  number_of_books_rated := n |}]))
        as (cr' & Heq & Hrest').
      exists cr'. split; [|done]. rewrite Heq. by rewrite <- app_assoc.
    + apply Hrest.
Qed.

(** On a constructed report [process] returns, touches no table, and
    stores the stats of the groups it keeps. *)
Lemma BR_process_constructed r :
  tables_agree r ->
  process r =
    ({| ignore_single_book_groups := ignore_single_book_groups r;
        rated_count := rated_count r;
        cumulative_rating := cumulative_rating r;
        rating_groupings := rating_groupings r;
        stats := Some (omap (stat_for (ignore_single_book_groups r)
                                      (cumulative_rating r))
                            (rated_count r)) |}, None).
Proof.
  intros (Hnd & Hkeys & _ & Hall). unfold process.
  destruct (BR_process_loop_spec (ignore_single_book_groups r) (rated_count r)
              (cumulative_rating r) []) as (cr' & -> & _ & Hid).
  - intros k n Hin. pose proof (dd_elem_of_find _ _ _ Hnd Hin) as Hf.
    assert (dd_value (rated_count r) k = n) as <-
      by (unfold dd_value; by rewrite Hf).
    destruct (Hall k) as (_ & ? & H3). split; [|done].
    apply H3. by eapply dd_find_Some_key.
  - by rewrite Hid by (by rewrite Hkeys).
Qed.

Lemma BR_tables_agree_process r :
  tables_agree r -> tables_agree (process r).1.
Proof. intros Hr. by rewrite (BR_process_constructed r Hr). Qed.

End br_facts.

(** ** [BestRankedReport]: what the constructor counts *)

Section cumulate_facts.
Context {K : Type} `{EqDecision K}.
Implicit Types (d : list (K * Z)) (k : K) (l : list (K * Z)).

Lemma ratings_of_app k l1 l2 :
  ratings_of k (l1 ++ l2) = ratings_of k l1 ++ ratings_of k l2.
Proof. unfold ratings_of. by rewrite filter_app, fmap_app. Qed.

Lemma ratings_of_singleton k k' br :
  ratings_of k [(k', br)] = if decide (k' = k) then [br] else [].
Proof.
  unfold ratings_of. rewrite filter_cons, filter_nil. cbn [fst].
  by case_decide.
Qed.

Lemma ratings_of_length k l :
  Z.of_nat (length (ratings_of k l)) = occurrences k l.*1.
Proof.
  unfold ratings_of, occurrences. rewrite length_fmap. f_equal.
  induction l as [|[k' br] l IH]; [done|].
  rewrite fmap_cons, !filter_cons. cbn [fst].
  case_decide; cbn [length]; by rewrite IH.
Qed.

Lemma ratings_of_elem_of k l br : br ∈ ratings_of k l <-> (k, br) ∈ l.
Proof.
  unfold ratings_of. rewrite list_elem_of_fmap. split.
  - intros ([k' br'] & -> & [Hk Hin]%list_elem_of_filter). cbn in *. by subst.
  - intros Hin. exists (k, br). split; [done|].
    by apply list_elem_of_filter.
Qed.

Lemma sum_list_app (l1 l2 : list Z) :
  sum_list (l1 ++ l2) = sum_list l1 + sum_list l2.
Proof.
  unfold sum_list. induction l1 as [|x l1 IH]; cbn [app foldr]; lia.
Qed.

Lemma sum_list_Permutation (l1 l2 : list Z) :
  l1 ≡ₚ l2 -> sum_list l1 = sum_list l2.
Proof.
  unfold sum_list. induction 1; cbn [foldr]; lia.
Qed.

Lemma sum_list_bounds lo hi (l : list Z) :
  Forall (fun x => lo <= x <= hi) l ->
  lo * Z.of_nat (length l) <= sum_list l <= hi * Z.of_nat (length l).
Proof.
  unfold sum_list. induction 1 as [|x l Hx Hl IH]; cbn [foldr length]; lia.
Qed.

Lemma cumulate_snoc d l k n :
  cumulate d (l ++ [(k, n)]) = dd_iadd (cumulate d l) k n.
Proof. unfold cumulate. by rewrite foldl_app. Qed.

Lemma tally_snoc d (l : list K) k : tally d (l ++ [k]) = dd_iadd (tally d l) k 1.
Proof. unfold tally. by rewrite foldl_app. Qed.

Lemma cumulate_value l k :
  dd_value (cumulate [] l) k = sum_list (ratings_of k l).
Proof.
  induction l as [|[k' n] l IH] using rev_ind; [done|].
  rewrite cumulate_snoc, dd_iadd_value, ratings_of_app, sum_list_app,
    ratings_of_singleton.
  destruct (decide (k' = k)) as [->|]; rewrite IH; cbn; lia.
Qed.

Lemma cumulate_keys l : dd_keys (cumulate [] l) = dd_keys (tally [] l.*1).
Proof.
  induction l as [|[k' n] l IH] using rev_ind; [done|].
  rewrite fmap_app. cbn [fmap list_fmap fst].
  by rewrite cumulate_snoc, tally_snoc, !dd_iadd_keys, IH.
Qed.

Lemma assoc_find_app {V} (d d' : list (K * V)) k :
  assoc_find (d ++ d') k
  = match assoc_find d k with Some v => Some v | None => assoc_find d' k end.
Proof.
  induction d as [|[k' v] d IH]; [done|]. cbn [app assoc_find].
  by case_decide.
Qed.

End cumulate_facts.

Section histogram_facts.

Lemma in_slot_app i rs br :
  in_slot i (rs ++ [br]) = in_slot i rs + (if decide (slot br = i) then 1 else 0).
Proof.
  unfold in_slot. rewrite filter_app, length_app, filter_cons, filter_nil.
  case_decide; cbn [length]; lia.
Qed.

(** Incrementing the histogram of [rs] at a countable rating gives the
    histogram of [rs] and that rating. *)
Lemma histogram_incr_of rs br :
  countable_rating br ->
  BR.histogram_incr (histogram_of rs) br = inr (histogram_of (rs ++ [br])).
Proof.
  intros [Hb Hne]. unfold histogram_of at 2. rewrite !in_slot_app.
  assert (br = -5 \/ br = -4 \/ br = -3 \/ br = -2 \/ br = -1 \/
          br = 1 \/ br = 2 \/ br = 3 \/ br = 4 \/ br = 5) as Hcases by lia.
  destruct Hcases as [->|[->|[->|[->|[->|[->|[->|[->|[->| ->]]]]]]]]];
    cbn; by rewrite ?Z.add_0_r.
Qed.

Lemma histogram_incr_bad rs br :
  ~ countable_rating br ->
  BR.histogram_incr (histogram_of rs) br = inl (rating_error br).
Proof.
  intros Hbad. unfold BR.histogram_incr, rating_error, histogram_of.
  cbn [length]. change (Z.of_nat 6) with 6.
  destruct (decide (br = 0 \/ br = -6)) as [[-> | ->]|Hne]; [done..|].
  unfold countable_rating in Hbad.
  destruct (Z.ltb_spec br 0);
    destruct (Z.leb_spec 0 (br + 6)); destruct (Z.leb_spec 0 br);
    destruct (Z.ltb_spec (br + 6) 6); destruct (Z.ltb_spec br 6);
    cbn [andb]; try done; lia.
Qed.

Lemma histogram_of_nil : histogram_of [] = BR.new_histogram.
Proof. done. Qed.

Lemma histogram_of_total rs :
  Forall countable_rating rs ->
  in_slot 1 rs + in_slot 2 rs + in_slot 3 rs + in_slot 4 rs + in_slot 5 rs
  = Z.of_nat (length rs).
Proof.
  induction rs as [|br rs IH] using rev_ind; [done|].
  rewrite Forall_app, Forall_singleton. intros [Hrs [Hb Hne]].
  rewrite !in_slot_app, length_app, Nat2Z.inj_add, <- IH by done.
  cbn [length]. unfold slot.
  destruct (Z.ltb_spec br 0); repeat case_decide; lia.
Qed.

Lemma histogram_of_weighted rs :
  Forall (fun br => 1 <= br <= 5) rs ->
  1 * in_slot 1 rs + 2 * in_slot 2 rs + 3 * in_slot 3 rs + 4 * in_slot 4 rs
    + 5 * in_slot 5 rs = sum_list rs.
Proof.
  induction rs as [|br rs IH] using rev_ind; [done|].
  rewrite Forall_app, Forall_singleton. intros [Hrs Hb].
  rewrite !in_slot_app, sum_list_app, <- IH by done.
  cbn [sum_list foldr]. unfold slot.
  destruct (Z.ltb_spec br 0); repeat case_decide; lia.
Qed.

End histogram_facts.

Section br_counts.
Context {K : Type} `{PyKey K} {Book : Type} `{BookAPI Book K}.
Import BR.
Implicit Types (r : BestRankedReport K) (k : K) (book : Book).

(** [self.rating_groupings[key][br] += 1] works on the histogram found
    under the key, or on a new one. *)
Lemma groupings_incr_spec (rg : list (K * list (option Z))) k br :
  match histogram_incr (default new_histogram (assoc_find rg k)) br with
  | inl e => groupings_incr rg k br = inl e
  | inr h' =>
      exists rg', groupings_incr rg k br = inr rg' /\
        forall k', assoc_find rg' k'
                   = if decide (k = k') then Some h' else assoc_find rg k'
  end.
Proof.
  induction rg as [|[k0 h] rg IH]; cbn [groupings_incr assoc_find].
  - change (default new_histogram None) with new_histogram.
    destruct (histogram_incr new_histogram br) as [e|h']; [done|].
    eexists. split; [done|]. intros k'. cbn [assoc_find]. by case_decide.
  - destruct (decide (k0 = k)) as [->|Hne].
    + change (default new_histogram (Some h)) with h.
      destruct (histogram_incr h br) as [e|h']; [done|].
      eexists. split; [done|]. intros k'. cbn [assoc_find]. by case_decide.
    + destruct (histogram_incr _ br) as [e|h'].
      * by rewrite IH.
      * destruct IH as (rg' & -> & Hfind). eexists. split; [done|].
        intros k'. cbn [assoc_find]. rewrite Hfind.
        destruct (decide (k0 = k')) as [->|]; [|done].
        by rewrite decide_False by done.
Qed.

(** The inner loop skips the keys that are not kept. *)
Lemma count_keys_kept flag br (ks : list K) acc :
  foldl (count_key flag br) acc ks
  = foldl (count_key false br) acc (filter (fun k => kept flag k) ks).
Proof.
  revert acc. induction ks as [|k ks IH]; intros acc; [done|].
  cbn [foldl]. rewrite IH, filter_cons.
  destruct (decide (kept flag k)) as [Hk|Hk].
  - cbn [foldl]. f_equal. unfold count_key. destruct acc as [|r]; [done|].
    fold (kept flag k). rewrite orb_true_r. by destruct (kept flag k).
  - f_equal. unfold count_key. destruct acc as [|r]; [done|].
    fold (kept flag k). by destruct (kept flag k).
Qed.

(** The constructor is one loop over the pairs it counts. *)
Lemma count_books_pairs attr flag (books : list Book) acc :
  foldl (count_book attr flag) acc books
  = foldl count_pair acc (rated_pairs books attr flag).
Proof.
  unfold rated_pairs.
  revert acc. induction books as [|b books IH]; intros acc; [done|].
  cbn [foldl]. rewrite IH, bind_cons, foldl_app. f_equal.
  unfold count_book, rated_keys. destruct (rating b) as [br|]; [|done].
  destruct (br =? 0); [done|]. rewrite count_keys_kept. unfold kept_keys.
  by rewrite foldl_fmap.
Qed.

Lemma count_pair_counted f1 l r k br :
  counted f1 l r ->
  count_pair (inr r) (k, br)
  = (if decide (countable_rating br)
     then count_pair (inr r) (k, br) else inl (rating_error br)) /\
  (countable_rating br ->
   exists r', count_pair (inr r) (k, br) = inr r' /\
              counted f1 (l ++ [(k, br)]) r').
Proof.
  intros (Hf & Hs & Hrc & Hcr & Hrg). unfold count_pair, count_key.
  cbn [fst snd negb]. rewrite orb_true_r.
  pose proof (groupings_incr_spec (rating_groupings r) k br) as Hg.
  rewrite Hrg in Hg.
  assert (default new_histogram
            (if decide (k ∈ l.*1) then Some (histogram_of (ratings_of k l))
             else None) = histogram_of (ratings_of k l)) as Hh.
  { case_decide as Hin; [done|]. cbn [default].
    rewrite <- histogram_of_nil. f_equal.
    destruct (ratings_of k l) as [|x rs] eqn:Hrs; [done|].
    exfalso. apply Hin. apply list_elem_of_fmap. exists (k, x).
    split; [done|]. apply ratings_of_elem_of. rewrite Hrs. left. }
  rewrite Hh in Hg. clear Hh.
  destruct (decide (countable_rating br)) as [Hok|Hbad].
  - split; [done|]. intros _.
    rewrite histogram_incr_of in Hg by done.
    destruct Hg as (rg' & -> & Hfind). eexists. split; [done|].
    unfold counted. cbn [ignore_single_book_groups stats rated_count
      cumulative_rating rating_groupings].
    rewrite fmap_app. cbn [fmap list_fmap fst].
    rewrite tally_snoc, cumulate_snoc, Hrc, Hcr.
    split_and!; [done..|]. intros k'. rewrite Hfind, Hrg.
    rewrite ratings_of_app, ratings_of_singleton.
    destruct (decide (k = k')) as [->|Hne].
    + rewrite decide_True; [done|]. apply elem_of_app. right. left.
    + rewrite app_nil_r.
      destruct (decide (k' ∈ l.*1)) as [Hin|Hin].
      * rewrite decide_True; [done|]. apply elem_of_app. by left.
      * rewrite decide_False; [done|].
        intros [?|?%list_elem_of_singleton]%elem_of_app; [done|congruence].
  - split; [|done]. rewrite histogram_incr_bad in Hg by done. by rewrite Hg.
Qed.

Lemma count_pair_inl e kr : count_pair (inl e) kr = inl e.
Proof. done. Qed.

Lemma count_pairs_inl e (l : list (K * Z)) : foldl count_pair (inl e) l = inl e.
Proof. induction l as [|kr l IH]; [done|]. done. Qed.

(** The loop over the pairs: it ends with a report that has counted them
    all when every rating is countable, and with the exception of the
    first rating that is not otherwise. *)
Lemma count_pairs_spec f1 (l : list (K * Z)) r0 :
  counted f1 [] r0 ->
  match foldl count_pair (inr r0) l with
  | inr r => Forall countable_rating l.*2 /\ counted f1 l r
  | inl e =>
      exists l1 kr l2, l = l1 ++ kr :: l2 /\
        Forall countable_rating l1.*2 /\ ~ countable_rating kr.2 /\
        e = rating_error kr.2
  end.
Proof.
  intros Hnil. induction l as [|[k br] l IH] using rev_ind; [done|].
  rewrite foldl_app. cbn [foldl].
  destruct (foldl count_pair (inr r0) l) as [e|r].
  - rewrite count_pair_inl. destruct IH as (l1 & kr & l2 & -> & ?).
    exists l1, kr, (l2 ++ [(k, br)]). by rewrite <- app_assoc.
  - destruct IH as [Hall Hc].
    destruct (count_pair_counted f1 l r k br Hc) as [Hbad Hok].
    destruct (decide (countable_rating br)) as [Hbr|Hbr].
    + destruct (Hok Hbr) as (r' & -> & Hc'). split; [|done].
      rewrite fmap_app, Forall_app. split; [done|]. by constructor.
    + rewrite Hbad. exists l, (k, br), []. done.
Qed.

Lemma counted_nil f1 :
  counted f1 []
    {| ignore_single_book_groups := f1; rated_count := [];
       cumulative_rating := []; rating_groupings := []; stats := None |}.
Proof. done. Qed.

(** The constructor, through the pairs it counts. *)
Lemma BR_init_spec (books : list Book) attr f1 f2 :
  match init books attr f1 f2 with
  | inr r =>
      Forall countable_rating (rated_pairs books attr f2).*2 /\
      counted f1 (rated_pairs books attr f2) r
  | inl e =>
      exists l1 kr l2, rated_pairs books attr f2 = l1 ++ kr :: l2 /\
        Forall countable_rating l1.*2 /\ ~ countable_rating kr.2 /\
        e = rating_error kr.2
  end.
Proof.
  unfold init. rewrite count_books_pairs.
  apply count_pairs_spec, counted_nil.
Qed.

End br_counts.

(** ** [get_keys_to_books_dict]: the dict of sets *)

Section first_occurrences_facts.
Context {A : Type} `{EqDecision A}.

Lemma first_occurrences_snoc (l : list A) x :
  first_occurrences (l ++ [x])
  = if decide (x ∈ l) then first_occurrences l else first_occurrences l ++ [x].
Proof.
  induction l as [|y l IH]; [done|].
  cbn [app first_occurrences]. rewrite IH.
  destruct (decide (x = y)) as [->|Hne].
  - rewrite (decide_True (P := y ∈ y :: l)) by left.
    destruct (decide (y ∈ l)); [done|].
    by rewrite filter_app, filter_cons, filter_nil, decide_False,
      app_nil_r by tauto.
  - destruct (decide (x ∈ l)) as [Hin|Hin].
    + by rewrite decide_True by (by right).
    + rewrite decide_False
        by (intros [?|?]%elem_of_cons; [congruence|done]).
      by rewrite filter_app, filter_cons, filter_nil, decide_True.
Qed.

Lemma first_occurrences_length (l : list A) :
  (length (first_occurrences l) <= length l)%nat.
Proof.
  induction l as [|x l IH]; [done|]. cbn [first_occurrences length].
  pose proof (length_filter (fun y => y <> x) (first_occurrences l)). lia.
Qed.

Lemma first_occurrences_NoDup_id (l : list A) :
  NoDup l -> first_occurrences l = l.
Proof.
  induction 1 as [|x l Hx Hl IH]; [done|]. cbn [first_occurrences].
  rewrite IH. f_equal. apply filter_all, Forall_forall. congruence.
Qed.

End first_occurrences_facts.

Section keys_to_books_facts.
Context {K : Type} `{PyKey K} {Book : Type} `{BookAPI Book K}.
Context `{EqDecision Book}.
Implicit Types (d : list (K * list Book)) (k : K) (book : Book).

Lemma set_add_first_occurrences (bs : list Book) book :
  set_add (first_occurrences bs) book = first_occurrences (bs ++ [book]).
Proof.
  unfold set_add. rewrite first_occurrences_snoc.
  destruct (decide (book ∈ bs)) as [Hin|Hin].
  - by rewrite decide_True by (by apply first_occurrences_elem_of).
  - by rewrite decide_False by (by rewrite first_occurrences_elem_of).
Qed.

Lemma ds_add_find d k book k' :
  assoc_find (ds_add d k book) k'
  = if decide (k = k')
    then Some (set_add (default [] (assoc_find d k)) book)
    else assoc_find d k'.
Proof.
  induction d as [|[k0 s] d IH]; cbn [ds_add assoc_find].
  - by case_decide.
  - destruct (decide (k0 = k)) as [->|Hne]; cbn [assoc_find].
    + by case_decide.
    + rewrite IH. destruct (decide (k0 = k')) as [->|]; [|done].
      by rewrite decide_False by done.
Qed.

Lemma ds_add_keys d k book :
  (ds_add d k book).*1 = if decide (k ∈ d.*1) then d.*1 else d.*1 ++ [k].
Proof.
  induction d as [|[k0 s] d IH]; cbn [ds_add]; [done|].
  destruct (decide (k0 = k)) as [->|Hne].
  - by rewrite decide_True by left.
  - rewrite !fmap_cons, IH. cbn [fst].
    destruct (decide (k ∈ d.*1)) as [Hin|Hin].
    + by rewrite decide_True by (by right).
    + by rewrite decide_False
        by (intros [?|?]%elem_of_cons; [congruence|done]).
Qed.

(** The two loops are one loop over the pairs of a kept key and its
    book. *)
Lemma get_keys_to_books_dict_pairs (books : list Book) attr flag :
  get_keys_to_books_dict books attr flag
  = foldl (fun d kb => ds_add d kb.1 kb.2) [] (keyed_books books attr flag).
Proof.
  unfold get_keys_to_books_dict, keyed_books. generalize (@nil (K * list Book)).
  induction books as [|b books IH]; intros d; [done|].
  cbn [foldl]. rewrite IH, bind_cons, foldl_app. f_equal.
  unfold kept_keys. generalize (property_as_sequence b attr). clear IH.
  intros ks. revert d. induction ks as [|k ks IH]; intros d; [done|].
  cbn [foldl]. rewrite IH, filter_cons. fold (kept flag k).
  destruct (decide (kept flag k)) as [Hk|Hk]; by destruct (kept flag k).
Qed.

Lemma books_of_snoc k (l : list (K * Book)) k' book :
  books_of k (l ++ [(k', book)])
  = books_of k l ++ (if decide (k' = k) then [book] else []).
Proof.
  unfold books_of. rewrite filter_app, fmap_app, filter_cons, filter_nil.
  cbn [fst]. by case_decide.
Qed.

Lemma books_of_length k (l : list (K * Book)) :
  Z.of_nat (length (books_of k l)) = occurrences k l.*1.
Proof.
  unfold occurrences, books_of. rewrite length_fmap. f_equal.
  induction l as [|[k' b] l IH]; [done|].
  rewrite fmap_cons, !filter_cons. cbn [fst].
  case_decide; cbn [length]; by rewrite IH.
Qed.

Lemma books_of_elem_of k (l : list (K * Book)) book :
  book ∈ books_of k l <-> (k, book) ∈ l.
Proof.
  unfold books_of. rewrite list_elem_of_fmap. split.
  - intros ([k' b'] & -> & [Hk Hin]%list_elem_of_filter). cbn in *. by subst.
  - intros Hin. exists (k, book). split; [done|].
    by apply list_elem_of_filter.
Qed.

(** The dict after the pairs [l]: the keys in the order of their first
    pair, and under each key the books of its pairs, each once. *)
Lemma ds_add_all (l : list (K * Book)) :
  let d := foldl (fun d kb => ds_add d kb.1 kb.2) [] l in
  d.*1 = first_occurrences l.*1 /\
  forall k, assoc_find d k
            = if decide (k ∈ l.*1) then Some (first_occurrences (books_of k l))
              else None.
Proof.
  induction l as [|[k0 b] l IH] using rev_ind; [done|]. cbn zeta.
  rewrite foldl_app. cbn [foldl fst snd]. destruct IH as [Hkeys Hfind].
  rewrite fmap_app. cbn [fmap list_fmap fst]. split.
  - rewrite ds_add_keys, Hkeys, first_occurrences_snoc.
    destruct (decide (k0 ∈ l.*1)) as [Hin|Hin].
    + by rewrite decide_True by (by apply first_occurrences_elem_of).
    + by rewrite decide_False by (by rewrite first_occurrences_elem_of).
  - intros k. rewrite ds_add_find, !Hfind, books_of_snoc.
    destruct (decide (k0 = k)) as [->|Hne].
    + rewrite (decide_True (P := k ∈ l.*1 ++ [k]))
        by (apply elem_of_app; right; left).
      f_equal. rewrite <- set_add_first_occurrences. f_equal.
      destruct (decide (k ∈ l.*1)) as [Hin|Hin]; [done|]. cbn [default].
      destruct (books_of k l) as [|b' bs] eqn:Hbs; [done|].
      exfalso. apply Hin, list_elem_of_fmap. exists (k, b'). split; [done|].
      apply books_of_elem_of. rewrite Hbs. left.
    + rewrite app_nil_r. destruct (decide (k ∈ l.*1)) as [Hin|Hin].
      * by rewrite decide_True by (apply elem_of_app; by left).
      * rewrite decide_False; [done|].
        intros [?|?%list_elem_of_singleton]%elem_of_app; [done|congruence].
Qed.

Lemma keyed_books_in (books : list Book) attr flag k book :
  (k, book) ∈ keyed_books books attr flag <->
  book ∈ books /\ k ∈ kept_keys attr flag book.
Proof.
  unfold keyed_books. rewrite list_elem_of_bind. split.
  - intros (b & (k' & [= -> ->] & Hk)%list_elem_of_fmap & Hb). done.
  - intros [Hb Hk]. exists book. split; [|done].
    apply list_elem_of_fmap. by exists k.
Qed.

Lemma keyed_books_keys (books : list Book) attr flag :
  (keyed_books books attr flag).*1 = books ≫= kept_keys attr flag.
Proof.
  unfold keyed_books. induction books as [|b books IH]; [done|].
  rewrite !bind_cons, fmap_app, IH. f_equal.
  rewrite <- list_fmap_compose. apply list_fmap_id.
Qed.

End keys_to_books_facts.
(** ** The width of a printed line *)

Section format_facts.

Lemma length_spaces n : length (spaces n) = n.
Proof. apply length_replicate. Qed.

Lemma length_ljust w s : length (ljust w s) = Nat.max w (length s).
Proof. unfold ljust. rewrite length_app, length_spaces. lia. Qed.

Lemma length_rjust w s : length (rjust w s) = Nat.max w (length s).
Proof. unfold rjust. rewrite length_app, length_spaces. lia. Qed.

Lemma length_slice_to n s : length (slice_to n s) = Nat.min n (length s).
Proof. unfold slice_to. by rewrite length_take. Qed.

(** The label of a line, the key cut and padded, is 30 characters
    whatever the key. *)
Lemma length_label (s : pystr) : length (ljust 30 (slice_to 30 s)) = 30%nat.
Proof. rewrite length_ljust, length_slice_to. lia. Qed.

(** The numbers of a row of a group of fewer than 100 books fit their
    fields. *)
Lemma length_format_percentage z :
  0 <= z <= 100 -> length (format_d 5 false z) = 5%nat.
Proof.
  intros Hz. assert (z ∈ seqZ 0 101) as Hin by (apply elem_of_seqZ; lia).
  clear Hz. revert z Hin. apply Forall_forall.
  apply (bool_decide_unpack _). by vm_compute.
Qed.

Lemma length_format_difference z :
  -99 <= z <= 99 -> length (format_d 3 true z) = 3%nat.
Proof.
  intros Hz. assert (z ∈ seqZ (-99) 199) as Hin by (apply elem_of_seqZ; lia).
  clear Hz. revert z Hin. apply Forall_forall.
  apply (bool_decide_unpack _). by vm_compute.
Qed.

Lemma length_format_count z :
  0 <= z <= 999 -> length (format_d 3 false z) = 3%nat.
Proof.
  intros Hz. assert (z ∈ seqZ 0 1000) as Hin by (apply elem_of_seqZ; lia).
  clear Hz. revert z Hin. apply Forall_forall.
  apply (bool_decide_unpack _). by vm_compute.
Qed.

(** A key with a letter of two bytes: the label is padded to 30
    characters, and the line is 47 characters in 48 bytes. *)
Example render_line_two_byte_letter :
  let r := {| RvU.row_stat :=
                {| RvU.key := "Stanisław Lem"%string;
                   RvU.percentage_read := 50; RvU.difference := 0 |};
              RvU.row_count := 2 |} in
  length (characters "Stanisław Lem") = 13%nat /\
  length (render_line r) = 47%nat /\
  encode (render_line r)
  = "Stanisław Lem                  :    50%  +0   2"%string /\
  String.length (encode (render_line r)) = 48%nat.
Proof. by vm_compute. Qed.

End format_facts.

(** ** The Book entity *)

(** *** The expectations of [utils/tests/test_book.py] *)

Section book_tests.
Import Book.
Local Open Scope string_scope.

Example test_book_basic :
  exists bk, make MOCK_BOOK None [] = inr bk /\
    getattr bk "year" = inr (Singular (Some (PInt 2001))) /\
    is_read bk = true /\ is_unread bk = false /\ series bk = None /\
    merge_sort String.le (elements (shelves bk))
      = ["mocking"; "python"; "read"; "software"; "testing"] /\
    merge_sort String.le (all_authors bk)
      = ["Mick Mock"; "Peter Python"; "Terry Test"] /\
    property_as_sequence bk "rating" = inr [PInt 4] /\
    property_as_hashable bk "shelves"
      = inr (PStr <$> ["mocking"; "python"; "read"; "software"; "testing"]) /\
    property_as_hashable bk "rating" = inr [PInt 4].
Proof. eexists. split; [reflexivity|]. by vm_compute. Qed.

Example test_book_titles :
  Forall (fun te => series_and_volume_of (chars te.1) = te.2)
    [ ("The Cliche of Cliches (Overlong Fantasy Series, #13)",
       Some ("Overlong Fantasy Series", Some "13"));
      ("The Cliche of Cliches (Overlong Fantasy Series #14)",
       Some ("Overlong Fantasy Series", Some "14"));
      ("The Cliche of Cliches (Overlong Fantasy Series 33)",
       Some ("Overlong Fantasy Series", Some "33"));
      ("The Cliche of Cliches (Fantasy Trilogy 3)", Some ("Fantasy", Some "3"));
      ("The Cliche of Cliches (Fantasy Trilogy Book 3)",
       Some ("Fantasy", Some "3"));
      ("The Cliche of Cliches (Overlong Fantasy Series #1-3)",
       Some ("Overlong Fantasy Series", Some "1-3"));
      ("The Cliche of Cliches (Overlong Fantasy Series)",
       Some ("Overlong Fantasy Series", None));
      ("Foo (Bar) Baz", None);
      ("Foo Bar (I Came, I Saw, I Conquered #3)",
       Some ("I Came, I Saw, I Conquered", Some "3"));
      ("Foo (The Foo Chronicles, #1)", Some ("Foo Chronicles", Some "1"));
      ("Foo (The Foo Chronicles, #3.4)", Some ("Foo Chronicles", Some "3.4")) ].
Proof. repeat constructor. Qed.

Example test_book_historical :
  make MOCK_BOOK (Some {| year := 1980; month := 4; day := 1 |}) []
    = inl NotOwnedAtSpecifiedDateError /\
  exists bk,
    make MOCK_BOOK (Some {| year := 2013; month := 4; day := 1 |}) [] = inr bk /\
    is_read bk = false /\
    date_read bk = Some {| year := 2015; month := 12; day := 25 |}.
Proof. split; [reflexivity|]. eexists. split; [reflexivity|]. by vm_compute. Qed.

Example test_patching :
  exists bk, make MOCK_BOOK None test_patches = inr bk /\
    test_patching_expects bk.
Proof. eexists. split; [reflexivity|]. by vm_compute. Qed.

End book_tests.

Section book_facts.
Import Book.

(** *** The patch overlay *)








(** *** Dates *)

Lemma is_digit_value c : is_digit c = true -> exists n, digit_value c = Some n.
Proof.
  destruct c as [[] [] [] [] [] [] [] []]; vm_compute; intros; try done; eauto.
Qed.

Lemma number_from_digits acc cs :
  forallb is_digit cs = true -> exists n, number_from acc cs = Some n.
Proof.
  revert acc. induction cs as [|c cs IH]; intros acc; cbn [forallb number_from].
  - by eauto.
  - intros [Hc Hcs]%andb_true_iff.
    destruct (is_digit_value c Hc) as [d ->]. by apply IH.
Qed.

Lemma parse_date_text s :
  is_date_text s = true -> exists o, parse_date s = inr o.
Proof.
  unfold is_date_text, parse_date.
  destruct (chars s) as [|y1 [|y2 [|y3 [|y4 [|s1 [|m1 [|m2 [|s2 [|d1 [|d2 [|]]]]]]]]]]];
    try done; [by eauto|].
  intros [[Hd H1]%andb_true_iff H2]%andb_true_iff. rewrite H1, H2. cbn [andb].
  pose proof (proj1 (forallb_forall _ _) Hd) as Hall.
  assert (forall cs, (forall c, In c cs -> In c [y1; y2; y3; y4; m1; m2; d1; d2]) ->
                     exists n, number_from 0 cs = Some n) as Hnum.
  { intros cs Hcs. apply number_from_digits, forallb_forall.
    intros c Hc. by apply Hall, Hcs. }
  destruct (Hnum [y1; y2; y3; y4]) as [y ->]; [simpl; tauto|].
  destruct (Hnum [m1; m2]) as [m ->]; [simpl; tauto|].
  destruct (Hnum [d1; d2]) as [d ->]; [simpl; tauto|].
  by eauto.
Qed.

(** *** Title parsing *)






(** *** The order of a tuple of values *)

Global Instance pyval_le_trans : Transitive pyval_le.
Proof.
  intros [x|s] [y|t] [z|u]; cbn; try done; [lia|apply transitivity].
Qed.

Global Instance pyval_le_antisym : AntiSymm (=) pyval_le.
Proof.
  intros [x|s] [y|t]; cbn; try done.
  - intros. f_equal. lia.
  - intros H1 H2. f_equal. by apply (anti_symm String.le).
Qed.

Lemma Sorted_PStr (vs : list string) :
  Sorted String.le vs -> Sorted pyval_le (PStr <$> vs).
Proof.
  induction 1 as [|s vs Hs IH Hhd]; [constructor|].
  rewrite fmap_cons. constructor; [done|].
  destruct Hhd; [constructor|]. rewrite fmap_cons. by constructor.
Qed.

End book_facts.

(** ** The order [render] emits *)

Section sorted_facts.
Context {A : Type} (cmp : A -> A -> Z) (R : relation A).
Hypothesis cmp_neg : forall a b, cmp a b < 0 -> R a b.
Hypothesis cmp_nonneg : forall a b, 0 <= cmp a b -> R b a.

Lemma sorted_insert_Permutation x l : sorted_insert cmp x l ≡ₚ x :: l.
Proof.
  induction l as [|y l IH]; [done|]. cbn [sorted_insert].
  destruct (cmp_lt cmp y x); [|done]. rewrite IH. apply Permutation_swap.
Qed.

Lemma sorted_Permutation l : sorted cmp l ≡ₚ l.
Proof.
  induction l as [|x l IH]; [done|]. cbn [sorted foldr].
  fold (sorted cmp l). by rewrite sorted_insert_Permutation, IH.
Qed.

Lemma sorted_insert_Sorted x l : Sorted R l -> Sorted R (sorted_insert cmp x l).
Proof.
  induction 1 as [|y l Hl IH Hhd]; cbn [sorted_insert].
  - by repeat constructor.
  - unfold cmp_lt. destruct (Z.ltb_spec (cmp y x) 0) as [Hlt|Hge].
    + constructor; [done|].
      destruct Hhd as [|z l Hyz]; cbn [sorted_insert].
      * constructor. by apply cmp_neg.
      * unfold cmp_lt. destruct (Z.ltb_spec (cmp z x) 0);
          constructor; [done|by apply cmp_neg].
    + constructor; [by constructor|]. constructor. by apply cmp_nonneg.
Qed.

Lemma sorted_Sorted l : Sorted R (sorted cmp l).
Proof.
  induction l as [|x l IH]; [constructor|]. cbn [sorted foldr].
  by apply sorted_insert_Sorted.
Qed.

End sorted_facts.

Section render_facts.
Context {K : Type} `{PyKey K}.
Import RvU.

Lemma compare_rvustat_neg (a b : ReadVsUnreadStat K) :
  compare_rvustat a b < 0 -> emitted_before a b.
Proof.
  unfold compare_rvustat, emitted_before.
  destruct (Z.eqb_spec (percentage_read a) (percentage_read b)) as [Hp|Hp];
    [|lia].
  destruct (Z.eqb_spec (Z.abs (difference b) - Z.abs (difference a)) 0);
    [|lia].
  destruct (key_gt (key a) (key b)); [lia|]. intros _. right. split; [done|].
  right. split; [lia|done].
Qed.

Lemma compare_rvustat_nonneg (a b : ReadVsUnreadStat K) :
  (forall x y : K, key_gt x y = true -> key_gt y x = false) ->
  0 <= compare_rvustat a b -> emitted_before b a.
Proof.
  intros Hasym. unfold compare_rvustat, emitted_before.
  destruct (Z.eqb_spec (percentage_read a) (percentage_read b)) as [Hp|Hp];
    [|lia].
  destruct (Z.eqb_spec (Z.abs (difference b) - Z.abs (difference a)) 0);
    [|lia].
  destruct (key_gt (key a) (key b)) eqn:Hgt; [|lia]. intros _. right.
  split; [done|]. right. split; [lia|by apply Hasym].
Qed.

Lemma emitted_before_trans :
  (forall x y z : K, key_gt x y = false -> key_gt y z = false ->
                     key_gt x z = false) ->
  Transitive (@emitted_before K _).
Proof.
  intros Htrans a b c. unfold emitted_before.
  intros [?|[? [?|[? ?]]]] [?|[? [?|[? ?]]]]; try (left; lia);
    right; (split; [lia|]); try (left; lia).
  right. split; [lia|]. by eapply Htrans.
Qed.

Lemma render_loop_stats (l : list (ReadVsUnreadStat K)) gc :
  row_stat <$> (render_loop l gc).1 = l.
Proof.
  revert gc. induction l as [|st l IH]; intros gc; [done|].
  cbn [render_loop]. destruct (dd_getitem gc (key st)) as [n gc'].
  specialize (IH gc'). destruct (render_loop l gc') as [rows gc''].
  cbn in *. by rewrite IH.
Qed.

End render_facts.

(** The [>] of Python strings and of Python ints are those of total
    orders. *)
Lemma str_key_gt_leb (x y : string) : key_gt x y = negb (String.leb x y).
Proof.
  cbn. unfold String.ltb, String.leb. rewrite (String.compare_antisym x y).
  by destruct (String.compare y x).
Qed.

Lemma str_key_gt_asym (x y : string) : key_gt x y = true -> key_gt y x = false.
Proof.
  rewrite !str_key_gt_leb. destruct (String.leb_total x y) as [->| ->]; [done|].
  by destruct (String.leb x y).
Qed.

Lemma str_key_le_trans (x y z : string) :
  key_gt x y = false -> key_gt y z = false -> key_gt x z = false.
Proof.
  rewrite !str_key_gt_leb, !negb_false_iff.
  intros Hxy%Is_true_true Hyz%Is_true_true. apply Is_true_true.
  exact (transitivity (R := String.le) Hxy Hyz).
Qed.

Lemma int_key_gt_asym (x y : Z) : key_gt x y = true -> key_gt y x = false.
Proof. cbn. lia. Qed.

Lemma int_key_le_trans (x y z : Z) :
  key_gt x y = false -> key_gt y z = false -> key_gt x z = false.
Proof. cbn. lia. Qed.

(** ** The claims about the reports *)

Section report_claims.
Context {K : Type} `{PyKey K} {Book : Type} `{BookAPI Book K}.

(** C5.  The division of [ReadVsUnreadReport.process] raises
    [ZeroDivisionError] exactly when [rd + ur] is zero.  For every
    collection of books, every grouping attribute and every choice of
    flags, each key of [grouping_count] has a read count and an unread
    count that add up to its group size, which is at least one, so that
    [rd / (rd+ur)] is a float and [ReadVsUnreadReport.process] ends
    without any exception, never entering the [ZeroDivisionError] handler;
    and each item of [rated_count] of a constructed [BestRankedReport]
    counts at least one rated book, so that its average is a float and
    [BestRankedReport.process] ends without any exception. *)
Theorem C5_zero_denominator_unreachable
    (books : list Book) (attr : string) (f1 f2 g1 g2 : bool)
    (rb : BR.BestRankedReport K)
    (Hrb : BR.init books attr g1 g2 = inr rb) :
  let r := RvU.init books attr f1 f2 in
  (forall rd ur, RvU.percentage rd ur = inl ZeroDivisionError <-> rd + ur = 0) /\
  (forall k, k ∈ dd_keys (RvU.grouping_count r) ->
     let rd := dd_value (RvU.read_count r) k in
     let ur := dd_value (RvU.unread_count r) k in
     rd + ur = dd_value (RvU.grouping_count r) k /\ 1 <= rd + ur /\
     exists q, PyFloat.true_div rd (rd + ur) = inr q) /\
  (RvU.process r).2 = None /\
  (forall k n, (k, n) ∈ BR.rated_count rb ->
     1 <= n /\
     exists av, PyFloat.true_div (dd_value (BR.cumulative_rating rb) k) n
                = inr av) /\
  (BR.process rb).2 = None.
Proof.
  intros r. pose proof (RvU_init_agree books attr f1 f2) as Hr. fold r in Hr.
  apply BR_init_agree in Hrb as [Hb _].
  split_and!.
  - apply percentage_zero_division.
  - intros k Hk rd ur. destruct Hr as [_ Hall].
    destruct (Hall k) as (H1 & H2 & H3 & H5 & _). specialize (H5 Hk).
    split_and!; [done|lia|]. unfold rd, ur.
    destruct (true_div_below (dd_value (RvU.read_count r) k)
                (dd_value (RvU.read_count r) k + dd_value (RvU.unread_count r) k) 0)
      as (q & Hq & _); [lia| |lia|by eauto].
    rewrite !Z.abs_eq by lia.
    pose proof (Zdigits2_mono (dd_value (RvU.read_count r) k)
      (dd_value (RvU.read_count r) k + dd_value (RvU.unread_count r) k)). lia.
  - by destruct (RvU_process_twice r Hr).
  - intros k n Hin. destruct Hb as (Hnd & _ & _ & Hall).
    pose proof (dd_elem_of_find _ _ _ Hnd Hin) as Hf.
    assert (dd_value (BR.rated_count rb) k = n) as <-
      by (unfold dd_value; by rewrite Hf).
    destruct (Hall k) as (_ & Hc & H3).
    specialize (H3 (dd_find_Some_key _ _ _ Hf)).
    split; [done|]. by apply true_div_rating.
  - by rewrite (BR_process_constructed rb Hb).
Qed.

(** C10, as amended.  On every constructed report [process] ends normally
    (and so returns the report), and a second call leaves the report
    exactly as the first call left it, [stats] included.
    [BestRankedReport.process] changes nothing but [stats];
    [ReadVsUnreadReport.process] keeps [grouping_count] and every read and
    unread count, but it may add zero-valued entries to [read_count] and
    [unread_count]. *)
Theorem C10_process_returns_and_repeats
    (books : list Book) (attr : string) (f1 f2 g1 g2 : bool)
    (rb : BR.BestRankedReport K)
    (Hrb : BR.init books attr g1 g2 = inr rb) :
  let r := RvU.init books attr f1 f2 in
  let r1 := (RvU.process r).1 in
  let rb1 := (BR.process rb).1 in
  ((RvU.process r).2 = None /\ RvU.process r1 = (r1, None) /\
   RvU.grouping_count r1 = RvU.grouping_count r /\
   RvU.ignore_single_book_groups r1 = RvU.ignore_single_book_groups r /\
   (forall k, dd_value (RvU.read_count r1) k = dd_value (RvU.read_count r) k) /\
   (forall k, dd_value (RvU.unread_count r1) k
              = dd_value (RvU.unread_count r) k)) /\
  ((BR.process rb).2 = None /\ BR.process rb1 = (rb1, None) /\
   BR.rated_count rb1 = BR.rated_count rb /\
   BR.cumulative_rating rb1 = BR.cumulative_rating rb /\
   BR.rating_groupings rb1 = BR.rating_groupings rb /\
   BR.ignore_single_book_groups rb1 = BR.ignore_single_book_groups rb).
Proof.
  intros r r1 rb1.
  pose proof (RvU_init_agree books attr f1 f2) as Hr. fold r in Hr.
  apply BR_init_agree in Hrb as [Hb _]. split.
  - destruct (RvU_process_twice r Hr) as [Hnone Htwice].
    destruct (RvU_process_constructed r Hr) as (rc' & uc' & Hp & Hrv & Huv & _).
    split_and!; try done; unfold r1; by rewrite Hp.
  - pose proof (BR_tables_agree_process rb Hb) as Hb1. fold rb1 in Hb1.
    pose proof (BR_process_constructed rb1 Hb1) as Hp1.
    unfold rb1 in *. rewrite (BR_process_constructed rb Hb) in *.
    by cbn [fst snd BR.rated_count BR.cumulative_rating BR.rating_groupings
            BR.ignore_single_book_groups BR.stats] in *.
Qed.

(** C6.  Whatever [stats] holds, [render] emits exactly those stats, each
    once, and in an order in which every stat comes before every later
    one: a smaller percentage first; for equal percentages the larger
    absolute difference first; for equal percentages and equal absolute
    differences the key that is not greater first.  The keys are compared
    with their own [>], assumed to be that of a total order. *)
Theorem C6_render_order
    (key_gt_asym : forall x y : K, key_gt x y = true -> key_gt y x = false)
    (key_le_trans : forall x y z : K,
        key_gt x y = false -> key_gt y z = false -> key_gt x z = false)
    (r : RvU.ReadVsUnreadReport K) (l : list (RvU.ReadVsUnreadStat K))
    (Hl : RvU.stats r = Some l) :
  exists rows r',
    RvU.render r = inr (rows, r') /\
    RvU.row_stat <$> rows ≡ₚ l /\
    StronglySorted RvU.emitted_before (RvU.row_stat <$> rows).
Proof.
  unfold RvU.render. rewrite Hl.
  pose proof (render_loop_stats (sorted RvU.compare_rvustat l)
                (RvU.grouping_count r)) as Hrows.
  destruct (RvU.render_loop _ _) as [rows gc]. cbn [fst] in Hrows.
  eexists rows, _. split; [done|]. rewrite Hrows. split.
  - apply sorted_Permutation.
  - apply Sorted_StronglySorted; [by apply emitted_before_trans|].
    apply sorted_Sorted.
    + apply compare_rvustat_neg.
    + intros a b. by apply compare_rvustat_nonneg.
Qed.

End report_claims.

(** C7.  A group of 29 read and 21 unread books is 58 percent read, and
    truncating [100 * 29 / 50] gives 58; the code computes
    [int(100 * (29 / 50))] in binary64, where [29 / 50] rounds to a float
    just below 0.58 and the product to one just below 58, and the stat of
    the group holds 57.  The group of 1 read and 3 unread books of the
    claim does get 25. *)
Theorem C7_percentage_truncates_a_rounded_float :
  RvU.stats (RvU.process (RvU.init_default (shelf_of 29 21) "shelves")).1
    = Some [ {| RvU.key := "shelf"%string; RvU.percentage_read := 57;
                RvU.difference := 8 |} ] /\
  RvU.percentage 29 21 = inr 57 /\
  100 * 29 / (29 + 21) = 58 /\
  RvU.stats (RvU.process (RvU.init_default (shelf_of 1 3) "shelves")).1
    = Some [ {| RvU.key := "shelf"%string; RvU.percentage_read := 25;
                RvU.difference := -2 |} ].
Proof. by vm_compute. Qed.

(** C5, on the sample shelf. *)
Lemma C5_zero_denominator_unreachable_witness :
  exists rb,
    BR.init sample_books "shelves" false true = inr rb /\
    (RvU.process (RvU.init sample_books "shelves" true true)).2 = None /\
    (BR.process rb).2 = None.
Proof.
  eexists. split; [reflexivity|].
  pose proof (C5_zero_denominator_unreachable sample_books "shelves"
                true true false true _ eq_refl) as (_ & _ & Hp & _ & Hb).
  by split.
Defined.

(** C10 as the claim states it fails on the sample shelf: the group
    "history" has one unread book and no read one, [read_count] has no
    entry for it, and the first [process] gives it one. *)
Lemma C10_process_modifies_count_tables :
  let r := RvU.init sample_books "shelves" true true in
  RvU.read_count (RvU.process r).1 <> RvU.read_count r.
Proof. by vm_compute. Qed.

(** C10 as amended, on the sample shelf. *)
Lemma C10_process_returns_and_repeats_witness :
  exists rb,
    BR.init sample_books "shelves" false true = inr rb /\
    (let r1 := (RvU.process (RvU.init sample_books "shelves" true true)).1 in
     RvU.process r1 = (r1, None)) /\
    (let rb1 := (BR.process rb).1 in BR.process rb1 = (rb1, None)).
Proof.
  eexists. split; [reflexivity|].
  pose proof (C10_process_returns_and_repeats sample_books "shelves"
                true true false true _ eq_refl)
    as [(_ & Hp & _) (_ & Hb & _)].
  by split.
Defined.

(** C6, on three stats with integer keys. *)
Lemma C6_render_order_witness :
  let l := [ {| RvU.key := 3; RvU.percentage_read := 50;
                RvU.difference := 0 |};
             {| RvU.key := 1; RvU.percentage_read := 50;
                RvU.difference := 0 |};
             {| RvU.key := 2; RvU.percentage_read := 25;
                RvU.difference := -2 |} ] in
  let r := {| RvU.unread_count := []; RvU.read_count := [];
              RvU.grouping_count := [];
              RvU.ignore_single_book_groups := true;
              RvU.stats := Some l |} in
  exists rows r',
    RvU.render r = inr (rows, r') /\
    RvU.row_stat <$> rows ≡ₚ l /\
    StronglySorted RvU.emitted_before (RvU.row_stat <$> rows).
Proof.
  intros l r. apply (C6_render_order (K := Z)).
  - intros x y. cbn. lia.
  - intros x y z. cbn. lia.
  - reflexivity.
Defined.

(** ** The claims about the Book *)

Section book_claims.
Import Book.



(** C2.  When the record has an add-date and a read-date and the as-of
    date is not before the add-date but before the read-date, the Book is
    constructed, is not read, and its [date_read] is the read-date of the
    Book constructed without an as-of date. *)
Theorem C2_as_of_before_read_date
    (row : RawRecord) (patches : list patch) (a da dr : date) (b0 : Book)
    (Hb0 : make row None patches = inr b0)
    (Hadded : date_added b0 = Some da) (Hread : date_read b0 = Some dr)
    (Hfrom : date_ltb a da = false) (Hbefore : date_ltb a dr = true) :
  exists b,
    make row (Some a) patches = inr b /\
    is_read b = false /\ is_unread b = true /\
    date_read b = Some dr /\ date_read b = date_read b0.
Proof.
  unfold make in *.
  destruct (parse_date _) as [|added]; [done|].
  destruct (parse_date _) as [|read]; [done|].
  injection Hb0 as <-. cbn in Hadded, Hread. subst added read.
  rewrite Hfrom. eexists. split; [done|].
  unfold is_unread, is_read. cbn. rewrite Hbefore. cbn.
  by rewrite andb_false_r.
Qed.

(** C3.  For a record whose two date fields hold what the input contract
    allows, constructing a Book fails with [NotOwnedAtSpecifiedDateError]
    exactly when an as-of date is given that is strictly before the parsed
    add-date; it fails in no other way; and without an as-of date it does
    not fail. *)
Theorem C3_not_owned_iff_as_of_before_added
    (row : RawRecord) (as_of : option date) (patches : list patch)
    (Hadded : is_date_text (apply_patches row patches Date_Added) = true)
    (Hread : is_date_text (apply_patches row patches Date_Read) = true) :
  (make row as_of patches = inl NotOwnedAtSpecifiedDateError <->
   exists a d, as_of = Some a /\
               parse_date (apply_patches row patches Date_Added)
                 = inr (Some d) /\
               date_ltb a d = true) /\
  (forall e, make row as_of patches = inl e ->
             e = NotOwnedAtSpecifiedDateError) /\
  (as_of = None -> exists b, make row as_of patches = inr b).
Proof.
  destruct (parse_date_text _ Hadded) as [added Ha].
  destruct (parse_date_text _ Hread) as [read Hr].
  unfold make. rewrite Ha, Hr.
  destruct as_of as [a|]; [destruct added as [d|];
                           [destruct (date_ltb a d) eqn:Hlt|]|].
  - split_and!; [split; [by exists a, d|done]|by intros e [= <-]|done].
  - split_and!; [split; [done|]|done..].
    intros (a' & d' & [= <-] & [= <-] & Hlt'). congruence.
  - split_and!; [split; [done|]|done..].
    by intros (a' & d' & _ & [=] & _).
  - split_and!; [split; [by destruct added|]|by destruct added|].
    + by intros (a' & d' & [=] & _).
    + intros _. destruct added; by eauto.
Qed.


(** C8.  For every Book and every attribute name the two accessors fail
    together or return together; when they return, the tuple holds exactly
    the values of the sequence, each as often, in the one order that is
    sorted, so that it does not depend on the order in which the sequence
    comes; and a one-element sequence gives the one-element tuple of the
    same value. *)
Theorem C8_hashable_is_the_sorted_sequence (b : Book) (attr : string) :
  match property_as_sequence b attr, property_as_hashable b attr with
  | inr seq, inr t =>
      t ≡ₚ seq /\ Sorted pyval_le t /\
      (forall t', t' ≡ₚ seq -> Sorted pyval_le t' -> t' = t) /\
      (forall v, seq = [v] -> t = [v])
  | inl e, inl e' => e = e'
  | _, _ => False
  end.
Proof.
  unfold property_as_sequence, property_as_hashable.
  destruct (getattr b attr) as [e|[[v|]|vs]]; [done|..].
  - split_and!; [done|by repeat constructor| |done].
    intros t' Ht _. by apply Permutation_singleton_r.
  - split_and!; [done|constructor| |done].
    intros t' Ht _. by apply Permutation_nil_r.
  - assert (PStr <$> merge_sort String.le vs ≡ₚ PStr <$> vs) as Hperm
      by (by rewrite merge_sort_Permutation).
    assert (Sorted pyval_le (PStr <$> merge_sort String.le vs)) as Hsorted
      by (apply Sorted_PStr, Sorted_merge_sort, _).
    split_and!; [done..| |].
    + intros t' Ht Hs. apply (Sorted_unique pyval_le); [done..|].
      by rewrite Ht, Hperm.
    + intros v Hv. rewrite Hv in Hperm. by apply Permutation_singleton_r.
Qed.

End book_claims.


(** C2, on [TestBook.test_book_historical_after_added_before_read]. *)
Lemma C2_as_of_before_read_date_witness :
  exists b,
    Book.make Book.MOCK_BOOK
      (Some {| Book.year := 2013; Book.month := 4; Book.day := 1 |}) []
      = inr b /\
    Book.is_read b = false /\ Book.is_unread b = true /\
    Book.date_read b
      = Some {| Book.year := 2015; Book.month := 12; Book.day := 25 |} /\
    Book.date_read b
      = Some {| Book.year := 2015; Book.month := 12; Book.day := 25 |}.
Proof.
  exact (C2_as_of_before_read_date Book.MOCK_BOOK []
           {| Book.year := 2013; Book.month := 4; Book.day := 1 |}
           {| Book.year := 2012; Book.month := 12; Book.day := 22 |}
           {| Book.year := 2015; Book.month := 12; Book.day := 25 |}
           _ eq_refl eq_refl eq_refl eq_refl eq_refl).
Defined.

(** C3, on [TestBook.test_book_historical_before_added]. *)
Lemma C3_not_owned_iff_as_of_before_added_witness :
  Book.make Book.MOCK_BOOK
    (Some {| Book.year := 1980; Book.month := 4; Book.day := 1 |}) []
    = inl NotOwnedAtSpecifiedDateError.
Proof.
  apply (C3_not_owned_iff_as_of_before_added Book.MOCK_BOOK
           (Some {| Book.year := 1980; Book.month := 4; Book.day := 1 |}) []
           eq_refl eq_refl).
  by eexists _, _.
Defined.


(** * Further properties of the reports *)

(** ** One sorted arrangement *)

Section unique_order.
Context {A : Type} (R : relation A).

(** Two arrangements of the same elements that are both sorted are the
    same list, when no two different elements are each before the
    other. *)
Lemma StronglySorted_unique_on (l1 l2 : list A) :
  (forall a b, a ∈ l1 -> b ∈ l1 -> R a b -> R b a -> a = b) ->
  StronglySorted R l1 -> StronglySorted R l2 -> l1 ≡ₚ l2 -> l1 = l2.
Proof.
  revert l2. induction l1 as [|x l1 IH]; intros l2 Hanti H1 H2 Hp.
  - by apply Permutation_nil_l in Hp.
  - destruct l2 as [|y l2]; [by apply Permutation_nil_r in Hp|].
    apply StronglySorted_inv in H1 as [H1 Hx].
    apply StronglySorted_inv in H2 as [H2 Hy].
    rewrite Forall_forall in Hx, Hy.
    assert (x = y) as ->.
    { assert (x ∈ y :: l2) as [->|Hx2]%elem_of_cons
        by (rewrite <- Hp; left); [done|].
      assert (y ∈ x :: l1) as [->|Hy1]%elem_of_cons
        by (rewrite Hp; left); [done|].
      apply Hanti; [left|by right|by apply Hx|by apply Hy]. }
    f_equal. apply IH; [|done..|by apply Permutation_cons_inv in Hp].
    intros a b Ha Hb. apply Hanti; by right.
Qed.

Lemma NoDup_fmap_eq {B} (f : A -> B) (l : list A) a b :
  NoDup (f <$> l) -> a ∈ l -> b ∈ l -> f a = f b -> a = b.
Proof.
  induction l as [|x l IH]; [by intros _ ?%elem_of_nil|].
  rewrite fmap_cons, NoDup_cons.
  intros [Hx Hl] [->|Ha]%elem_of_cons [->|Hb]%elem_of_cons Heq; auto.
  - exfalso. apply Hx. rewrite Heq. by apply list_elem_of_fmap_2.
  - exfalso. apply Hx. rewrite <- Heq. by apply list_elem_of_fmap_2.
Qed.

End unique_order.

(** ** [ReadVsUnreadReport]: from the books to the rows *)

Section rvu_more.
Context {K : Type} `{PyKey K} {Book : Type} `{BookAPI Book K}.
Import RvU.
Implicit Types (r : ReadVsUnreadReport K) (k : K) (book : Book).

(** [int(100 * (rd / (rd+ur)))] is a percentage, and the exact one at
    both ends. *)
Lemma percentage_bounds rd ur :
  0 <= rd -> 0 <= ur -> rd + ur <> 0 ->
  exists p, percentage rd ur = inr p /\ 0 <= p <= 100 /\
            (ur = 0 -> p = 100) /\ (rd = 0 -> p = 0).
Proof.
  intros Hrd Hur Hne. unfold percentage.
  destruct (scaled_quotient_between 0 1 rd (rd + ur))
    as (q & p & Hq & Hp & Hb); [lia..|].
  exists p. rewrite Hq. split_and!; [done|lia|lia| |].
  - intros ->. destruct (scaled_quotient_between 1 1 rd (rd + 0))
      as (q1 & p1 & Hq1 & Hp1 & Hb1); [lia..|].
    rewrite Hq in Hq1. injection Hq1 as <-. rewrite Hp in Hp1.
    injection Hp1 as <-. lia.
  - intros ->. destruct (scaled_quotient_between 0 0 0 (0 + ur))
      as (q1 & p1 & Hq1 & Hp1 & Hb1); [lia..|].
    rewrite Hq in Hq1. injection Hq1 as <-. rewrite Hp in Hp1.
    injection Hp1 as <-. lia.
Qed.

(** For a group of fewer than [2 ^ 38] books, [int(100 * (rd / (rd+ur)))]
    is the truncated percentage or one less. *)
Lemma percentage_near rd ur :
  0 <= rd -> 0 <= ur -> 0 < rd + ur < 2 ^ 38 ->
  exists p, percentage rd ur = inr p /\
            100 * rd / (rd + ur) - 1 <= p <= 100 * rd / (rd + ur).
Proof.
  intros Hrd Hur Htot. unfold percentage.
  set (tot := rd + ur) in *. set (J := 2 ^ 45).
  set (L := rd * J / tot). set (n := 100 * rd / tot).
  assert (J = 35184372088832) as HJ by done.
  assert (2 ^ 38 = 274877906944) as H38 by done.
  assert (2 ^ 53 = 9007199254740992) as H53 by done.
  assert (L * tot <= rd * J < (L + 1) * tot) as HL.
  { unfold L. pose proof (Z.mul_div_le (rd * J) tot ltac:(lia)).
    pose proof (Z.mul_succ_div_gt (rd * J) tot ltac:(lia)). lia. }
  assert (n * tot <= 100 * rd < (n + 1) * tot) as Hn.
  { unfold n. pose proof (Z.mul_div_le (100 * rd) tot ltac:(lia)).
    pose proof (Z.mul_succ_div_gt (100 * rd) tot ltac:(lia)). lia. }
  assert (0 <= L) by (apply Z.div_pos; lia).
  assert (L <= J) by (apply Z.div_le_upper_bound; nia).
  destruct (scaled_quotient_between_at 45 L (L + 1) rd tot)
    as (q & p & Hq & Hp & Hb); [lia..|].
  fold J in Hb. exists p. rewrite Hq. split; [done|].
  assert (n - 1 <= 100 * L / J).
  { apply Z.div_le_lower_bound; [lia|].
    assert (n * J * tot < 100 * (L + 1) * tot) by nia.
    assert (n * J < 100 * (L + 1)) by nia. lia. }
  assert (100 * (L + 1) / J <= n).
  { assert (100 * (L + 1) / J < n + 1); [|lia].
    apply Z.div_lt_upper_bound; [lia|].
    assert (100 * (L + 1) * tot < J * (n + 1) * tot); [|nia].
    nia. }
  lia.
Qed.

(** When the read fraction is a fraction of a power of two, the
    percentage is the truncated percentage. *)
Lemma percentage_dyadic j rd ur :
  0 <= rd -> 0 <= ur -> 0 < rd + ur -> 0 <= j <= 45 ->
  (rd * 2 ^ j) mod (rd + ur) = 0 ->
  percentage rd ur = inr (100 * rd / (rd + ur)).
Proof.
  intros Hrd Hur Htot Hj Hmod. unfold percentage.
  set (tot := rd + ur) in *.
  assert (0 < 2 ^ j) as Hpj by (apply Z.pow_pos_nonneg; lia).
  assert (2 ^ j <= 2 ^ 45) as Hj45 by (apply Z.pow_le_mono_r; lia).
  assert (2 ^ 45 = 35184372088832) as H45 by done.
  assert (2 ^ 53 = 9007199254740992) as H53 by done.
  set (L := rd * 2 ^ j / tot).
  assert (rd * 2 ^ j = L * tot) as HL.
  { unfold L. rewrite (Z.div_mod (rd * 2 ^ j) tot) at 1 by lia.
    rewrite Hmod. lia. }
  assert (0 <= L) by (apply Z.div_pos; lia).
  assert (L <= 2 ^ j) by (apply Z.div_le_upper_bound; nia).
  destruct (scaled_quotient_between_at j L L rd tot)
    as (q & p & Hq & Hp & Hb); [lia..|].
  rewrite Hq, Hp. f_equal.
  assert (100 * L / 2 ^ j = 100 * rd / tot) as <-; [|lia].
  rewrite <- (Z.div_mul_cancel_r (100 * L) (2 ^ j) tot) by lia.
  rewrite <- (Z.div_mul_cancel_r (100 * rd) tot (2 ^ j)) by lia.
  f_equal; lia.
Qed.

(** The percentage is on the side of 50 that the difference tells. *)
Lemma percentage_half rd ur p :
  0 <= rd -> 0 <= ur -> rd + ur <> 0 -> percentage rd ur = inr p ->
  (ur <= rd -> 50 <= p) /\ (rd <= ur -> p <= 50).
Proof.
  intros Hrd Hur Hne. unfold percentage. intros Hp.
  assert (2 ^ 53 = 9007199254740992) as H53 by done. split.
  - intros Hle.
    destruct (scaled_quotient_between_at 1 1 2 rd (rd + ur))
      as (q & p' & Hq & Hp' & Hb); [lia..|].
    rewrite Hq, Hp' in Hp. injection Hp as <-.
    change (100 * 1 / 2 ^ 1) with 50 in Hb. lia.
  - intros Hle.
    destruct (scaled_quotient_between_at 1 0 1 rd (rd + ur))
      as (q & p' & Hq & Hp' & Hb); [lia..|].
    rewrite Hq, Hp' in Hp. injection Hp as <-.
    change (100 * 1 / 2 ^ 1) with 50 in Hb. lia.
Qed.

Lemma omap_stat_for_keys ig rc uc (keys : list K) :
  (forall k, k ∈ keys ->
     0 <= dd_value rc k /\ 0 <= dd_value uc k /\
     dd_value rc k + dd_value uc k <> 0) ->
  key <$> omap (stat_for ig rc uc) keys
  = filter (fun k => ~ (ig = true /\ dd_value rc k + dd_value uc k = 1)) keys.
Proof.
  induction keys as [|k keys IH]; intros Hk; [done|].
  cbn [omap list_omap]. rewrite filter_cons.
  destruct (Hk k) as (Hrd & Hur & Hne); [left|].
  assert (stat_for ig rc uc k =
          if ig && (dd_value rc k + dd_value uc k =? 1) then None
          else match percentage (dd_value rc k) (dd_value uc k) with
               | inr p => Some {| key := k; percentage_read := p;
                    difference := dd_value rc k - dd_value uc k |}
               | inl _ => None
               end) as -> by done.
  destruct (percentage_defined _ _ Hrd Hur Hne) as [p ->].
  rewrite <- IH by (intros k' Hk'; apply Hk; by right).
  destruct ig; cbn [andb].
  - destruct (Z.eqb_spec (dd_value rc k + dd_value uc k) 1) as [Heq|Hneq].
    + by rewrite decide_False by tauto.
    + by rewrite decide_True by tauto.
  - rewrite decide_True; [done|]. by intros [? _].
Qed.

Lemma omap_stat_for_NoDup ig rc uc (keys : list K) :
  NoDup keys -> NoDup (key <$> omap (stat_for ig rc uc) keys).
Proof.
  induction 1 as [|k keys Hk Hnd IH]; [constructor|].
  cbn [omap list_omap]. destruct (stat_for ig rc uc k) as [st|] eqn:Hst;
    [|done].
  apply RvU_stat_for_key in Hst as [Hkey _].
  rewrite fmap_cons, Hkey. constructor; [|done].
  intros (st' & -> & Hin)%list_elem_of_fmap.
  apply list_elem_of_omap in Hin as (k' & Hk' & Hst').
  apply RvU_stat_for_key in Hst' as [Hkey' _]. congruence.
Qed.

Lemma omap_stat_for_key_in ig rc uc (keys : list K) st :
  st ∈ omap (stat_for ig rc uc) keys -> key st ∈ keys.
Proof.
  intros (k & Hk & Hst)%list_elem_of_omap.
  apply RvU_stat_for_key in Hst as [-> _]. done.
Qed.

Lemma render_loop_present (l : list (ReadVsUnreadStat K)) gc :
  (forall st, st ∈ l -> key st ∈ dd_keys gc) ->
  render_loop l gc = (row_for gc <$> l, gc).
Proof.
  induction l as [|st l IH]; intros Hin; [done|]. cbn [render_loop].
  pose proof (dd_getitem_fst gc (key st)) as Hn.
  pose proof (dd_getitem_snd_in gc (key st) (Hin st ltac:(left))) as Hgc.
  destruct (dd_getitem gc (key st)) as [n gc']. cbn [fst snd] in *.
  subst n gc'. rewrite IH by (intros st' Hst'; apply Hin; by right). done.
Qed.

(** On a constructed report, [process] and then [render]: the rows are
    those of the sorted stats of the kept keys, and [render] leaves the
    report as [process] left it. *)
Lemma RvU_process_render r :
  tables_agree r ->
  let l := omap (stat_for (ignore_single_book_groups r)
                          (read_count r) (unread_count r))
                (dd_keys (grouping_count r)) in
  (process r).2 = None /\
  stats (process r).1 = Some l /\
  render (process r).1
  = inr (row_for (grouping_count r) <$> sorted compare_rvustat l,
         (process r).1).
Proof.
  intros Hr l. destruct (RvU_process_constructed r Hr)
    as (rc' & uc' & Hp & _). rewrite Hp. cbn [fst snd stats].
  split_and!; [done..|]. unfold render.
  cbn [stats grouping_count unread_count read_count
       ignore_single_book_groups]. fold l.
  rewrite render_loop_present; [done|].
  intros st Hst. rewrite (sorted_Permutation compare_rvustat l) in Hst.
  by apply omap_stat_for_key_in in Hst.
Qed.

(** The loop of [process] over a run of keys whose groups have members. *)
Lemma process_loop_prefix ig (ks rest : list K) rc uc acc :
  (forall k, k ∈ ks ->
     0 <= dd_value rc k /\ 0 <= dd_value uc k /\
     dd_value rc k + dd_value uc k <> 0) ->
  exists rc' uc',
    process_loop ig (ks ++ rest) rc uc acc
      = process_loop ig rest rc' uc' (acc ++ omap (stat_for ig rc uc) ks) /\
    (forall k, dd_value rc' k = dd_value rc k) /\
    (forall k, dd_value uc' k = dd_value uc k).
Proof.
  revert rc uc acc. induction ks as [|k ks IH]; intros rc uc acc Hk.
  - exists rc, uc. by rewrite app_nil_r.
  - cbn [app process_loop].
    pose proof (dd_getitem_fst rc k) as Hrd.
    pose proof (dd_getitem_value rc k) as Hrv.
    pose proof (dd_getitem_fst uc k) as Hur.
    pose proof (dd_getitem_value uc k) as Huv.
    destruct (dd_getitem rc k) as [rd rc1], (dd_getitem uc k) as [ur uc1].
    cbn [fst snd] in *. subst rd ur.
    destruct (Hk k) as (Hrd0 & Hur0 & Hne); [left|].
    assert (forall acc', exists rc' uc',
      process_loop ig (ks ++ rest) rc1 uc1 acc'
        = process_loop ig rest rc' uc' (acc' ++ omap (stat_for ig rc uc) ks) /\
      (forall k, dd_value rc' k = dd_value rc k) /\
      (forall k, dd_value uc' k = dd_value uc k)) as Hrest.
    { intros acc'. destruct (IH rc1 uc1 acc') as (rc' & uc' & Heq & Hr & Hu).
      { intros k' Hk'. rewrite Hrv, Huv. apply Hk. by right. }
      exists rc', uc'.
      rewrite (omap_stat_for_ext ig rc uc rc1 uc1) in Heq by done.
      split_and!; [done| |].
      - intros k'. by rewrite Hr, Hrv.
      - intros k'. by rewrite Hu, Huv. }
    cbn [omap list_omap].
    assert (stat_for ig rc uc k =
            if ig && (dd_value rc k + dd_value uc k =? 1) then None
            else match percentage (dd_value rc k) (dd_value uc k) with
                 | inr p => Some {| key := k; percentage_read := p;
                      difference := dd_value rc k - dd_value uc k |}
                 | inl _ => None
                 end) as -> by done.
    destruct (ig && (dd_value rc k + dd_value uc k =? 1)) eqn:Hskip.
    + apply Hrest.
    + destruct (percentage_defined _ _ Hrd0 Hur0 Hne) as [p ->].
      destruct (Hrest (acc ++ [{| key := k; percentage_read := p;
                   difference := dd_value rc k - dd_value uc k |}]))
        as (rc' & uc' & Heq & Hrest').
      exists rc', uc'. split; [|done]. rewrite Heq. by rewrite <- app_assoc.
Qed.

End rvu_more.

(** ** [BestRankedReport]: from the books to the stats *)

Section br_more.
Context {K : Type} `{PyKey K} {Book : Type} `{BookAPI Book K}.
Import BR.
Implicit Types (r : BestRankedReport K) (k : K) (book : Book).

Lemma BR_init_counted (books : list Book) attr f1 f2 r :
  init books attr f1 f2 = inr r ->
  Forall countable_rating (rated_pairs books attr f2).*2 /\
  counted f1 (rated_pairs books attr f2) r.
Proof.
  intros Hr. pose proof (BR_init_spec books attr f1 f2) as Hs.
  by rewrite Hr in Hs.
Qed.

Lemma rated_pairs_in (books : list Book) attr flag k br :
  (k, br) ∈ rated_pairs books attr flag <->
  exists b, b ∈ books /\ rating b = Some br /\ br <> 0 /\
            k ∈ kept_keys attr flag b.
Proof.
  unfold rated_pairs. rewrite list_elem_of_bind. unfold rated_keys. split.
  - intros (b & Hin & Hb). exists b. destruct (rating b) as [br'|];
      [|by apply elem_of_nil in Hin].
    destruct (Z.eqb_spec br' 0); [by apply elem_of_nil in Hin|].
    apply list_elem_of_fmap in Hin as (k' & [= -> ->] & Hk). done.
  - intros (b & Hb & Hr & Hne & Hk). exists b. split; [|done].
    rewrite Hr. destruct (Z.eqb_spec br 0); [done|].
    apply list_elem_of_fmap. by exists k.
Qed.

Lemma rated_pairs_countable (books : list Book) attr flag :
  Forall (fun b => match rating b with
                   | Some br => 0 <= br <= 5
                   | None => True
                   end) books ->
  Forall countable_rating (rated_pairs books attr flag).*2.
Proof.
  intros Hbooks. apply Forall_forall.
  intros br ([k br'] & -> & Hin)%list_elem_of_fmap.
  apply rated_pairs_in in Hin as (b & Hb & Hr & Hne & _). cbn.
  rewrite Forall_forall in Hbooks. specialize (Hbooks b Hb).
  rewrite Hr in Hbooks. unfold countable_rating. lia.
Qed.

Lemma BR_stat_for_item ig cr (item : K * Z) st :
  stat_for ig cr item = Some st ->
  key st = item.1 /\ number_of_books_rated st = item.2 /\
  PyFloat.true_div (dd_value cr item.1) item.2 = inr (average_rating st) /\
  (ig = true -> 1 < item.2).
Proof.
  unfold stat_for. destruct (PyFloat.true_div _ _) as [|av]; [done|].
  destruct (negb ig || (1 <? item.2)) eqn:Hkeep; [|done].
  intros [= <-]. cbn. split_and!; try done. intros ->.
  cbn in Hkeep. lia.
Qed.

Lemma BR_omap_stat_for_keys ig cr (items : list (K * Z)) :
  (forall k n, (k, n) ∈ items -> 1 <= n /\ Z.abs (dd_value cr k) <= 6 * n) ->
  key <$> omap (stat_for ig cr) items
  = (filter (fun kn => ~ (ig = true /\ kn.2 = 1)) items).*1.
Proof.
  induction items as [|[k n] items IH]; intros Hit; [done|].
  cbn [omap list_omap]. rewrite filter_cons.
  destruct (Hit k n) as [Hn Hb]; [left|].
  destruct (true_div_rating _ _ Hn Hb) as [av Hav].
  assert (stat_for ig cr (k, n) =
          if negb ig || (1 <? n) then
            Some {| key := k; average_rating := av;
                    number_of_books_rated := n |}
          else None) as ->
    by (unfold stat_for; cbn [fst snd]; by rewrite Hav).
  specialize (IH (fun k' n' Hin => Hit k' n' (list_elem_of_further _ _ _ Hin))).
  cbn [snd]. destruct ig; cbn [negb orb].
  - destruct (Z.ltb_spec 1 n).
    + rewrite decide_True by lia. by rewrite fmap_cons, IH.
    + rewrite decide_False by (intros Hc; apply Hc; split; [done|lia]). done.
  - rewrite decide_True by (by intros [? _]). by rewrite fmap_cons, IH.
Qed.

Lemma tables_agree_items r k n :
  tables_agree r -> (k, n) ∈ rated_count r ->
  dd_value (rated_count r) k = n /\ 1 <= n /\
  Z.abs (dd_value (cumulative_rating r) k) <= 6 * n.
Proof.
  intros (Hnd & _ & _ & Hall) Hin.
  pose proof (dd_elem_of_find _ _ _ Hnd Hin) as Hf.
  assert (dd_value (rated_count r) k = n) as Hv
    by (unfold dd_value; by rewrite Hf).
  destruct (Hall k) as (_ & Hc & H3).
  specialize (H3 (dd_find_Some_key _ _ _ Hf)). split_and!; [done|lia|].
  by rewrite <- Hv.
Qed.

Lemma filter_fst_fmap {V} (P : K -> Prop) `{!forall k, Decision (P k)}
    (l : list (K * V)) :
  (filter (fun kv => P kv.1) l).*1 = filter P l.*1.
Proof.
  induction l as [|[k v] l IH]; [done|].
  rewrite fmap_cons, !filter_cons. cbn [fst].
  case_decide; by rewrite ?fmap_cons, IH.
Qed.

(** [process] on a constructed report: no exception, and the stats of
    the items it keeps. *)
Lemma BR_process_stats r :
  tables_agree r ->
  (process r).2 = None /\
  stats (process r).1
  = Some (omap (stat_for (ignore_single_book_groups r) (cumulative_rating r))
               (rated_count r)).
Proof. intros Hr. by rewrite (BR_process_constructed r Hr). Qed.

(** A dict with distinct keys is its keys with their values. *)
Lemma dd_table (d : list (K * Z)) :
  NoDup (dd_keys d) -> d = (fun k => (k, dd_value d k)) <$> dd_keys d.
Proof.
  induction d as [|[k v] d IH]; [done|].
  unfold dd_keys. rewrite !fmap_cons. cbn [fst].
  intros [Hk Hd]%NoDup_cons. f_equal.
  - unfold dd_value. cbn [dd_find]. by rewrite decide_True.
  - rewrite IH at 1 by done. unfold dd_keys.
    apply list_fmap_ext. intros i k' Hk'. f_equal.
    unfold dd_value. cbn [dd_find]. rewrite decide_False; [done|].
    intros ->. apply Hk. by eapply list_elem_of_lookup_2.
Qed.

(** The stats that [process] stores for the books in another order. *)
Lemma BR_stats_Permutation (books books' : list Book) attr f1 f2 r r' :
  books ≡ₚ books' ->
  init books attr f1 f2 = inr r -> init books' attr f1 f2 = inr r' ->
  omap (stat_for (ignore_single_book_groups r) (cumulative_rating r))
       (rated_count r)
  ≡ₚ omap (stat_for (ignore_single_book_groups r') (cumulative_rating r'))
          (rated_count r').
Proof.
  intros Hp Hr Hr'.
  pose proof (BR_init_counted _ _ _ _ _ Hr) as [_ (Hf & _ & Hrc & Hcr & _)].
  pose proof (BR_init_counted _ _ _ _ _ Hr') as [_ (Hf' & _ & Hrc' & Hcr' & _)].
  apply BR_init_agree in Hr as ((Hnd & _) & _).
  apply BR_init_agree in Hr' as ((Hnd' & _) & _).
  assert (rated_pairs books attr f2 ≡ₚ rated_pairs books' attr f2) as Hpairs
    by (unfold rated_pairs; by rewrite Hp).
  rewrite Hf, Hf'.
  rewrite (BR_omap_stat_for_ext f1 (cumulative_rating r) (cumulative_rating r')).
  - apply omap_Permutation.
    rewrite (dd_table _ Hnd), (dd_table _ Hnd').
    rewrite Hrc, Hrc', !tally_keys.
    rewrite (list_fmap_ext _
               (fun k => (k, dd_value (tally [] (rated_pairs books' attr f2).*1) k))
               (first_occurrences (rated_pairs books attr f2).*1)).
    + apply fmap_Permutation, first_occurrences_Permutation.
      by rewrite Hpairs.
    + intros i k _. f_equal. rewrite !tally_value. f_equal.
      apply occurrences_Permutation. by rewrite Hpairs.
  - intros k. rewrite Hcr, Hcr', !cumulate_value.
    apply sum_list_Permutation. unfold ratings_of. by rewrite Hpairs.
Qed.

(** The average of a stat of a constructed report has a magnitude of at
    most 5, the largest magnitude of a countable rating. *)
Lemma BR_average_magnitude (books : list Book) attr f1 f2 r st l :
  init books attr f1 f2 = inr r ->
  stats (process r).1 = Some l -> st ∈ l ->
  PyFloat.magnitude_between 0 5 (average_rating st).
Proof.
  intros Hinit Hst Hin.
  pose proof (BR_init_counted books attr f1 f2 r Hinit)
    as [Hok (_ & _ & Hrc & Hcr & _)].
  apply BR_init_agree in Hinit as (Hr & _).
  destruct (BR_process_stats r Hr) as [_ Hst']. rewrite Hst' in Hst.
  injection Hst as <-.
  apply list_elem_of_omap in Hin as ([k n] & Hin & Hs).
  apply BR_stat_for_item in Hs as (_ & _ & Hav & _). cbn [fst snd] in *.
  apply (tables_agree_items r k n Hr) in Hin as (Hn & Hn1 & _).
  set (rs := ratings_of k (rated_pairs books attr f2)) in *.
  assert (Forall (fun br => -5 <= br <= 5) rs) as Hrs.
  { apply Forall_forall. intros br Hbr%ratings_of_elem_of.
    rewrite Forall_forall in Hok.
    destruct (Hok br) as [? _]; [|done].
    apply list_elem_of_fmap. by exists (k, br). }
  assert (n = Z.of_nat (length rs)) as Hlen.
  { rewrite <- Hn, Hrc, tally_value. unfold rs.
    rewrite ratings_of_length. unfold dd_value. cbn. lia. }
  pose proof (sum_list_bounds (-5) 5 rs Hrs) as Hsum. rewrite <- Hlen in Hsum.
  rewrite Hcr, cumulate_value in Hav. fold rs in Hav.
  destruct (true_div_magnitude 0 5 (sum_list rs) n) as (q & Hq & Hb);
    [lia|lia|lia|lia|].
  rewrite Hav in Hq. by injection Hq as <-.
Qed.

End br_more.

(** ** Groups of one book *)

Section single_book_groups.
Context {K : Type} `{PyKey K} {Book : Type} `{BookAPI Book K}.

Lemma dd_find_elem_of (d : list (K * Z)) k v :
  dd_find d k = Some v -> (k, v) ∈ d.
Proof.
  induction d as [|[k' v'] d IH]; cbn [dd_find]; [done|].
  destruct (decide (k' = k)) as [->|Hne].
  - intros [= ->]. left.
  - intros Hf. right. by apply IH.
Qed.

Lemma dd_value_elem_of (d : list (K * Z)) k v :
  dd_value d k = v -> v <> 0 -> (k, v) ∈ d.
Proof.
  unfold dd_value. intros Hv Hne. apply dd_find_elem_of.
  destruct (dd_find d k) as [v'|]; cbn in Hv; congruence.
Qed.

(** C9.  The groups are those of the books.  With the default arguments
    of both constructors a group is a truthy key, and its members are the
    times the books yield that key.  When the books yield a key exactly
    once, its read and unread counts add up to one, and
    [ReadVsUnreadReport.process], which ends normally, leaves no stat for
    the key.  When exactly one of the times the books yield a key comes
    from a rated book, the key is in [rated_count] with the count one, and
    [BestRankedReport.process], which ends normally, leaves a stat for
    the key, with a rated count of one. *)
Theorem C9_single_book_group_defaults
    (books : list Book) (attr : string) (rb : BR.BestRankedReport K)
    (Hrb : BR.init_default books attr = inr rb) :
  let r := RvU.init_default books attr in
  (exists l,
     (RvU.process r).2 = None /\ RvU.stats (RvU.process r).1 = Some l /\
     forall k, occurrences k (books ≫= kept_keys attr true) = 1 ->
       dd_value (RvU.grouping_count r) k = 1 /\
       dd_value (RvU.read_count r) k + dd_value (RvU.unread_count r) k = 1 /\
       forall st, st ∈ l -> RvU.key st <> k) /\
  (exists l,
     (BR.process rb).2 = None /\ BR.stats (BR.process rb).1 = Some l /\
     forall k, occurrences k (rated_pairs books attr true).*1 = 1 ->
       (k, 1) ∈ BR.rated_count rb /\
       exists st, st ∈ l /\ BR.key st = k /\
                  BR.number_of_books_rated st = 1).
Proof.
  intros r. unfold RvU.init_default in r. unfold BR.init_default in Hrb.
  pose proof (RvU_init_agree books attr true true) as Hr. fold r in Hr.
  destruct (RvU_init_flag books attr true true) as [Hflag _]. fold r in Hflag.
  destruct (RvU_init_tables books attr true true) as (Hg & _). fold r in Hg.
  destruct (BR_init_counted books attr false true rb Hrb)
    as (_ & _ & _ & Hrc & _).
  apply BR_init_agree in Hrb as (Hb & Hbflag & _). split.
  - destruct (RvU_process_constructed r Hr) as (rc' & uc' & Hp & _).
    rewrite Hp, Hflag. cbn [fst snd RvU.stats].
    eexists. split_and!; [done..|]. intros k Hk.
    assert (dd_value (RvU.grouping_count r) k = 1) as Hone
      by (by rewrite Hg, tally_value).
    destruct Hr as [_ Hall]. destruct (Hall k) as (_ & _ & H3 & _).
    split_and!; [done|lia|].
    intros st [k' [Hk' Hst]]%list_elem_of_omap Heq.
    apply RvU_stat_for_key in Hst as (Hkey & _ & _ & Hne).
    specialize (Hne eq_refl).
    destruct (Hall k') as (_ & _ & H3' & _).
    assert (k' = k) as -> by congruence. lia.
  - rewrite (BR_process_constructed rb Hb), Hbflag. cbn [fst snd BR.stats].
    eexists. split_and!; [done..|]. intros k Hk.
    assert (dd_value (BR.rated_count rb) k = 1) as Hv
      by (by rewrite Hrc, tally_value).
    assert ((k, 1) ∈ BR.rated_count rb) as Hin
      by (by apply dd_value_elem_of).
    split; [done|].
    destruct Hb as (Hnd & _ & _ & Hall). destruct (Hall k) as (_ & Hc & _).
    destruct (true_div_rating (dd_value (BR.cumulative_rating rb) k) 1)
      as [av Hav]; [lia|lia|].
    exists {| BR.key := k; BR.average_rating := av;
              BR.number_of_books_rated := 1 |}.
    split; [|done]. apply list_elem_of_omap. exists (k, 1). split; [done|].
    unfold BR.stat_for. cbn [fst snd]. by rewrite Hav.
Qed.

End single_book_groups.

(** C9, on the sample shelf: "favourites" is the shelf of one book, which
    is rated. *)
Lemma C9_single_book_group_defaults_witness :
  exists rb l lb,
    BR.init_default sample_books "shelves" = inr rb /\
    RvU.stats (RvU.process (RvU.init_default sample_books "shelves")).1
      = Some l /\
    (forall st, st ∈ l -> RvU.key st <> "favourites"%string) /\
    BR.stats (BR.process rb).1 = Some lb /\
    exists st, st ∈ lb /\ BR.key st = "favourites"%string /\
               BR.number_of_books_rated st = 1.
Proof.
  assert (exists rb, BR.init_default sample_books "shelves" = inr rb)
    as [rb Hrb] by (eexists; reflexivity).
  destruct (C9_single_book_group_defaults sample_books "shelves" rb Hrb)
    as [(l & _ & Hl & Hno) (lb & _ & Hlb & Hkeep)].
  destruct (Hno "favourites"%string) as (_ & _ & Hnone); [by vm_compute|].
  destruct (Hkeep "favourites"%string) as (_ & Hst); [by vm_compute|].
  by exists rb, l, lb.
Defined.

(** ** [ReadVsUnreadReport], from the constructor to the rows *)

Lemma str_key_gt_total (x y : string) :
  key_gt x y = false -> key_gt y x = false -> x = y.
Proof.
  rewrite !str_key_gt_leb, !negb_false_iff. apply String.leb_antisym.
Qed.

Lemma int_key_gt_total (x y : Z) :
  key_gt x y = false -> key_gt y x = false -> x = y.
Proof. cbn. lia. Qed.

Section rvu_report_facts.
Context {K : Type} `{PyKey K} {Book : Type} `{BookAPI Book K}.

(** X1.  What [ReadVsUnreadReport.__init__] counts.  For every key,
    [grouping_count] holds the number of times the key is yielded by the
    books and kept, [read_count] the number of those times that come from
    a book that is not unread, and [unread_count] the number that come
    from an unread book; a key that a book yields twice counts twice.  The
    flag is stored and there are no stats yet. *)
Theorem X1_init_counts_every_kept_occurrence
    (books : list Book) (attr : string) (f1 f2 : bool) (k : K) :
  let r := RvU.init books attr f1 f2 in
  dd_value (RvU.grouping_count r) k
    = occurrences k (books ≫= kept_keys attr f2) /\
  dd_value (RvU.read_count r) k
    = occurrences k (read_books books ≫= kept_keys attr f2) /\
  dd_value (RvU.unread_count r) k
    = occurrences k (unread_books books ≫= kept_keys attr f2) /\
  RvU.ignore_single_book_groups r = f1 /\ RvU.stats r = None.
Proof.
  intros r. destruct (RvU_init_tables books attr f1 f2) as (Hg & Hu & Hr).
  fold r in Hg, Hu, Hr. rewrite Hg, Hu, Hr, !tally_value.
  split_and!; try done; apply RvU_init_flag.
Qed.

(** X2.  The tables of a constructed [ReadVsUnreadReport] list their keys
    in the order in which the books first yield them, each key once:
    [grouping_count] over all books, [read_count] over the books that are
    not unread, [unread_count] over the unread ones. *)
Theorem X2_init_keys_in_order_of_first_appearance
    (books : list Book) (attr : string) (f1 f2 : bool) :
  let r := RvU.init books attr f1 f2 in
  dd_keys (RvU.grouping_count r)
    = first_occurrences (books ≫= kept_keys attr f2) /\
  dd_keys (RvU.read_count r)
    = first_occurrences (read_books books ≫= kept_keys attr f2) /\
  dd_keys (RvU.unread_count r)
    = first_occurrences (unread_books books ≫= kept_keys attr f2).
Proof.
  intros r. destruct (RvU_init_tables books attr f1 f2) as (Hg & Hu & Hr).
  fold r in Hg, Hu, Hr. by rewrite Hg, Hu, Hr, !tally_keys.
Qed.

(** X3.  [ignore_undefined_book_groups].  With the flag set, the keys of
    [grouping_count] are exactly the truthy keys that some book yields;
    without it they are all the keys that some book yields, the falsy
    ones included. *)
Theorem X3_undefined_groups_are_left_out_on_request
    (books : list Book) (attr : string) (f1 : bool) (k : K) :
  (k ∈ dd_keys (RvU.grouping_count (RvU.init books attr f1 true)) <->
   truthy k = true /\
   exists b, b ∈ books /\ k ∈ property_as_sequence b attr) /\
  (k ∈ dd_keys (RvU.grouping_count (RvU.init books attr f1 false)) <->
   exists b, b ∈ books /\ k ∈ property_as_sequence b attr).
Proof.
  split.
  - destruct (RvU_init_tables books attr f1 true) as (-> & _).
    rewrite tally_keys, first_occurrences_elem_of, list_elem_of_bind.
    unfold kept_keys, kept. setoid_rewrite list_elem_of_filter.
    rewrite orb_false_r. split.
    + intros (b & [Hk Hin] & Hb). apply Is_true_true in Hk. eauto.
    + intros (Hk & b & Hb & Hin). exists b. by rewrite Hk.
  - destruct (RvU_init_tables books attr f1 false) as (-> & _).
    rewrite tally_keys, first_occurrences_elem_of, list_elem_of_bind.
    unfold kept_keys, kept. setoid_rewrite list_elem_of_filter.
    rewrite orb_true_r. split.
    + intros (b & [_ Hin] & Hb). eauto.
    + intros (b & Hb & Hin). by exists b.
Qed.

(** X4.  What [ReadVsUnreadReport.process] stores.  On a constructed
    report it ends normally, and [stats] holds one stat for each key of
    [grouping_count], in the order of that table, except that the groups
    of exactly one book are left out when [ignore_single_book_groups] is
    set.  The difference of a stat is the read count less the unread
    count of its key, and its percentage is what
    [int(100 * (rd / (rd+ur)))] gives on the two counts. *)
Theorem X4_process_keeps_one_stat_per_group
    (books : list Book) (attr : string) (f1 f2 : bool) :
  let r := RvU.init books attr f1 f2 in
  exists l,
    (RvU.process r).2 = None /\ RvU.stats (RvU.process r).1 = Some l /\
    RvU.key <$> l
    = filter (fun k => ~ (f1 = true /\ dd_value (RvU.grouping_count r) k = 1))
             (dd_keys (RvU.grouping_count r)) /\
    forall st, st ∈ l ->
      let rd := dd_value (RvU.read_count r) (RvU.key st) in
      let ur := dd_value (RvU.unread_count r) (RvU.key st) in
      RvU.difference st = rd - ur /\
      RvU.percentage rd ur = inr (RvU.percentage_read st).
Proof.
  intros r. pose proof (RvU_init_agree books attr f1 f2) as Hr. fold r in Hr.
  destruct (RvU_process_render r Hr) as (Hnone & Hst & _).
  destruct (RvU_init_flag books attr f1 f2) as [Hflag _]. fold r in Hflag.
  rewrite Hflag in Hst. eexists. split_and!; [done..| |].
  - rewrite omap_stat_for_keys.
    + apply list_filter_iff. intros k.
      destruct Hr as [_ Hall]. destruct (Hall k) as (_ & _ & -> & _). done.
    + intros k Hk. destruct Hr as [_ Hall].
      destruct (Hall k) as (? & ? & ? & H5 & _). specialize (H5 Hk). lia.
  - intros st (k & Hk & Hs)%list_elem_of_omap rd ur.
    apply RvU_stat_for_key in Hs as (<- & Hd & Hp & _). done.
Qed.

(** X5.  The percentage of a stat is a percentage.  On a constructed
    report every stat that [process] stores has a [percentage_read]
    between 0 and 100, whatever the rounding of the two float operations
    does; it is exactly 100 for a group without unread books and exactly
    0 for a group without read ones. *)
Theorem X5_percentage_read_is_between_0_and_100
    (books : list Book) (attr : string) (f1 f2 : bool) :
  let r := RvU.init books attr f1 f2 in
  exists l,
    RvU.stats (RvU.process r).1 = Some l /\
    forall st, st ∈ l ->
      0 <= RvU.percentage_read st <= 100 /\
      (dd_value (RvU.unread_count r) (RvU.key st) = 0 ->
       RvU.percentage_read st = 100) /\
      (dd_value (RvU.read_count r) (RvU.key st) = 0 ->
       RvU.percentage_read st = 0).
Proof.
  intros r. pose proof (RvU_init_agree books attr f1 f2) as Hr. fold r in Hr.
  destruct (RvU_process_render r Hr) as (_ & Hst & _).
  eexists. split; [exact Hst|].
  intros st (k & Hk & Hs)%list_elem_of_omap.
  apply RvU_stat_for_key in Hs as (<- & _ & Hp & _).
  destruct Hr as [_ Hall]. destruct (Hall (RvU.key st)) as (? & ? & ? & H5 & _).
  specialize (H5 Hk).
  destruct (percentage_bounds (dd_value (RvU.read_count r) (RvU.key st))
              (dd_value (RvU.unread_count r) (RvU.key st)))
    as (p & Hp' & Hb & Hall_read & Hnone_read); [lia..|].
  rewrite Hp in Hp'. injection Hp' as <-. done.
Qed.

(** X6.  How far the percentage is from the truncated percentage.  For
    a group of fewer than [2 ^ 38] books, [int(100 * (rd / (rd+ur)))] is
    the truncation of [100 * rd / (rd+ur)] or one less, never more and
    never two less; and it is the truncation itself whenever the read
    fraction is a fraction of a power of two, as for a half, a quarter or
    the whole of the group. *)
Theorem X6_percentage_is_the_truncated_percentage_or_one_less
    (rd ur : Z) (Hrd : 0 <= rd) (Hur : 0 <= ur)
    (Htot : 0 < rd + ur < 2 ^ 38) :
  exists p,
    RvU.percentage rd ur = inr p /\
    100 * rd / (rd + ur) - 1 <= p <= 100 * rd / (rd + ur) /\
    forall j, 0 <= j <= 45 -> (rd * 2 ^ j) mod (rd + ur) = 0 ->
              p = 100 * rd / (rd + ur).
Proof.
  destruct (percentage_near rd ur Hrd Hur Htot) as (p & Hp & Hb).
  exists p. split_and!; [done|lia|lia|].
  intros j Hj Hmod.
  pose proof (percentage_dyadic j rd ur Hrd Hur ltac:(lia) Hj Hmod) as Hp'.
  rewrite Hp in Hp'. by injection Hp'.
Qed.

(** X7.  The two numbers of a stat agree.  On a constructed report,
    every stat with more read than unread books has a percentage of at
    least 50, every stat with more unread than read books one of at most
    50, and a stat with as many of each has exactly 50: the order of
    [render], which is by percentage first, never puts a group that is
    mostly read before one that is mostly unread. *)
Theorem X7_percentage_and_difference_agree_about_the_half
    (books : list Book) (attr : string) (f1 f2 : bool) :
  let r := RvU.init books attr f1 f2 in
  exists l,
    RvU.stats (RvU.process r).1 = Some l /\
    forall st, st ∈ l ->
      (0 <= RvU.difference st -> 50 <= RvU.percentage_read st) /\
      (RvU.difference st <= 0 -> RvU.percentage_read st <= 50).
Proof.
  intros r. pose proof (RvU_init_agree books attr f1 f2) as Hr. fold r in Hr.
  destruct (RvU_process_render r Hr) as (_ & Hst & _).
  eexists. split; [exact Hst|].
  intros st (k & Hk & Hs)%list_elem_of_omap.
  apply RvU_stat_for_key in Hs as (<- & Hd & Hp & _).
  destruct Hr as [_ Hall]. destruct (Hall (RvU.key st)) as (? & ? & ? & H5 & _).
  specialize (H5 Hk).
  destruct (percentage_half (dd_value (RvU.read_count r) (RvU.key st))
              (dd_value (RvU.unread_count r) (RvU.key st))
              (RvU.percentage_read st)) as [Hge Hle]; [lia..|done|].
  rewrite Hd. split; intros ?; [apply Hge|apply Hle]; lia.
Qed.

(** X8.  What the [ZeroDivisionError] handler of
    [ReadVsUnreadReport.process] does.  No constructed report gets there;
    on a report whose tables were filled in some other way, the first
    key of [grouping_count] whose read and unread counts add up to zero
    makes the division raise, and the handler, which calls [logging]
    without the module importing it, ends the call with [NameError]: no
    warning is logged, the loop does not go on to the keys after it, and
    [stats] is left with the stats of the keys before it. *)
Theorem X8_the_division_handler_ends_in_a_name_error
    (r : RvU.ReadVsUnreadReport K) (ks1 ks2 : list K) (k : K)
    (Hkeys : dd_keys (RvU.grouping_count r) = ks1 ++ k :: ks2)
    (Hks1 : forall k', k' ∈ ks1 ->
       0 <= dd_value (RvU.read_count r) k' /\
       0 <= dd_value (RvU.unread_count r) k' /\
       dd_value (RvU.read_count r) k' + dd_value (RvU.unread_count r) k' <> 0)
    (Hk : dd_value (RvU.read_count r) k + dd_value (RvU.unread_count r) k = 0) :
  (RvU.process r).2 = Some NameError /\
  RvU.stats (RvU.process r).1
  = Some (omap (RvU.stat_for (RvU.ignore_single_book_groups r)
                  (RvU.read_count r) (RvU.unread_count r)) ks1).
Proof.
  unfold RvU.process. rewrite Hkeys.
  destruct (process_loop_prefix (RvU.ignore_single_book_groups r) ks1
              (k :: ks2) (RvU.read_count r) (RvU.unread_count r) [] Hks1)
    as (rc' & uc' & -> & Hrv & Huv).
  cbn [RvU.process_loop app].
  pose proof (dd_getitem_fst rc' k) as Hrd.
  pose proof (dd_getitem_fst uc' k) as Hur.
  destruct (dd_getitem rc' k) as [rd rc1], (dd_getitem uc' k) as [ur uc1].
  cbn [fst snd] in *. subst rd ur. rewrite Hrv, Huv.
  replace (dd_value (RvU.read_count r) k + dd_value (RvU.unread_count r) k =? 1)
    with false by (symmetry; apply Z.eqb_neq; lia).
  rewrite andb_false_r.
  rewrite (proj2 (percentage_zero_division _ _) Hk). done.
Qed.

(** X9.  [ReadVsUnreadReport.render] after [process], on a constructed
    report: it returns, it leaves the report exactly as [process] left it,
    and it emits one row for each stat; the count of a row is the size of
    the group, which is the read count plus the unread count, is at least
    one (at least two when single-book groups are ignored), and is never
    below the absolute difference. *)
Theorem X9_render_leaves_the_processed_report_alone
    (books : list Book) (attr : string) (f1 f2 : bool) :
  let r := RvU.init books attr f1 f2 in
  let r1 := (RvU.process r).1 in
  exists rows l,
    RvU.render r1 = inr (rows, r1) /\ RvU.stats r1 = Some l /\
    length rows = length l /\
    forall row, row ∈ rows ->
      let k := RvU.key (RvU.row_stat row) in
      RvU.row_count row = dd_value (RvU.grouping_count r) k /\
      RvU.row_count row
        = dd_value (RvU.read_count r) k + dd_value (RvU.unread_count r) k /\
      1 <= RvU.row_count row /\
      (f1 = true -> 2 <= RvU.row_count row) /\
      Z.abs (RvU.difference (RvU.row_stat row)) <= RvU.row_count row.
Proof.
  intros r r1. pose proof (RvU_init_agree books attr f1 f2) as Hr.
  fold r in Hr. destruct (RvU_process_render r Hr) as (_ & Hst & Hrender).
  destruct (RvU_init_flag books attr f1 f2) as [Hflag _]. fold r in Hflag.
  fold r1 in Hst, Hrender. rewrite Hflag in Hst, Hrender.
  eexists _, _. split_and!; [exact Hrender|exact Hst| |].
  - rewrite length_fmap. apply Permutation_length, sorted_Permutation.
  - intros row (st & -> & Hin)%list_elem_of_fmap k.
    rewrite (sorted_Permutation RvU.compare_rvustat _) in Hin.
    apply list_elem_of_omap in Hin as (k' & Hk' & Hs).
    apply RvU_stat_for_key in Hs as (Hkey & Hd & _ & Hne).
    unfold k. cbn [row_for RvU.row_stat RvU.row_count]. rewrite Hkey, Hd.
    destruct Hr as [_ Hall]. destruct (Hall k') as (? & ? & Hsum & H5 & _).
    specialize (H5 Hk'). split_and!; try lia. intros ->.
    specialize (Hne eq_refl). lia.
Qed.

(** X10.  The report does not depend on the order of the books.  When the
    [>] of the keys is that of a total order, two collections that hold
    the same books in a different order make [render], after [process],
    emit the same rows in the same order. *)
Theorem X10_rows_do_not_depend_on_the_order_of_the_books
    (key_gt_asym : forall x y : K, key_gt x y = true -> key_gt y x = false)
    (key_le_trans : forall x y z : K,
        key_gt x y = false -> key_gt y z = false -> key_gt x z = false)
    (key_gt_total : forall x y : K,
        key_gt x y = false -> key_gt y x = false -> x = y)
    (books books' : list Book) (attr : string) (f1 f2 : bool)
    (Hbooks : books ≡ₚ books') :
  exists rows r1 r1',
    RvU.render (RvU.process (RvU.init books attr f1 f2)).1 = inr (rows, r1) /\
    RvU.render (RvU.process (RvU.init books' attr f1 f2)).1
      = inr (rows, r1').
Proof.
  set (r := RvU.init books attr f1 f2). set (r' := RvU.init books' attr f1 f2).
  pose proof (RvU_init_agree books attr f1 f2) as Hr. fold r in Hr.
  pose proof (RvU_init_agree books' attr f1 f2) as Hr'. fold r' in Hr'.
  destruct (RvU_process_render r Hr) as (_ & _ & ->).
  destruct (RvU_process_render r' Hr') as (_ & _ & ->).
  destruct (RvU_init_flag books attr f1 f2) as [Hflag _]. fold r in Hflag.
  destruct (RvU_init_flag books' attr f1 f2) as [Hflag' _]. fold r' in Hflag'.
  rewrite Hflag, Hflag'.
  destruct (RvU_init_tables books attr f1 f2) as (Hg & Hu & Hrd).
  destruct (RvU_init_tables books' attr f1 f2) as (Hg' & Hu' & Hrd').
  fold r in Hg, Hu, Hrd. fold r' in Hg', Hu', Hrd'.
  assert (forall k, dd_value (RvU.grouping_count r') k
                    = dd_value (RvU.grouping_count r) k) as Hgv.
  { intros k. rewrite Hg, Hg', !tally_value.
    f_equal. apply occurrences_Permutation. by rewrite Hbooks. }
  assert (forall k, dd_value (RvU.read_count r') k
                    = dd_value (RvU.read_count r) k) as Hrv.
  { intros k. rewrite Hrd, Hrd', !tally_value.
    f_equal. apply occurrences_Permutation.
    unfold read_books. by rewrite Hbooks. }
  assert (forall k, dd_value (RvU.unread_count r') k
                    = dd_value (RvU.unread_count r) k) as Huv.
  { intros k. rewrite Hu, Hu', !tally_value.
    f_equal. apply occurrences_Permutation.
    unfold unread_books. by rewrite Hbooks. }
  assert (dd_keys (RvU.grouping_count r) ≡ₚ dd_keys (RvU.grouping_count r'))
    as Hkeys.
  { rewrite Hg, Hg', !tally_keys. apply first_occurrences_Permutation.
    by rewrite Hbooks. }
  rewrite (omap_stat_for_ext f1 (RvU.read_count r) (RvU.unread_count r)
             (RvU.read_count r') (RvU.unread_count r')) by done.
  set (f := RvU.stat_for f1 (RvU.read_count r) (RvU.unread_count r)).
  assert (sorted RvU.compare_rvustat (omap f (dd_keys (RvU.grouping_count r)))
          = sorted RvU.compare_rvustat
              (omap f (dd_keys (RvU.grouping_count r')))) as Hsorted.
  { assert (forall l, StronglySorted RvU.emitted_before
                        (sorted RvU.compare_rvustat l)) as Hss.
    { intros l. apply Sorted_StronglySorted;
        [by apply emitted_before_trans|].
      apply sorted_Sorted; [apply compare_rvustat_neg|].
      intros a b. by apply compare_rvustat_nonneg. }
    apply (StronglySorted_unique_on RvU.emitted_before); [|apply Hss..|].
    - intros a b Ha Hb Hab Hba.
      rewrite (sorted_Permutation RvU.compare_rvustat _) in Ha, Hb.
      apply (NoDup_fmap_eq RvU.key
               (omap f (dd_keys (RvU.grouping_count r)))); [|done..|].
      { apply omap_stat_for_NoDup. by destruct Hr. }
      apply key_gt_total.
      + destruct Hab as [?|[? [?|[? ?]]]]; destruct Hba as [?|[? [?|[? ?]]]];
          try lia; done.
      + destruct Hab as [?|[? [?|[? ?]]]]; destruct Hba as [?|[? [?|[? ?]]]];
          try lia; done.
    - rewrite !(sorted_Permutation RvU.compare_rvustat _). by rewrite Hkeys. }
  rewrite <- Hsorted. eexists _, _, _. split; [done|]. do 2 f_equal.
  apply list_fmap_ext. intros i st _. unfold row_for. by rewrite Hgv.
Qed.

(** X11.  [compare_rvustat] never answers "equal": it returns no [0], it
    puts a stat before itself, and for two stats with different keys it
    answers one way round exactly when it answers the other way round the
    other way, so that on the stats of one report, whose keys differ, it
    is a strict total order. *)
Theorem X11_compare_rvustat_never_ties
    (key_gt_asym : forall x y : K, key_gt x y = true -> key_gt y x = false)
    (key_gt_total : forall x y : K,
        key_gt x y = false -> key_gt y x = false -> x = y)
    (a b : RvU.ReadVsUnreadStat K) :
  RvU.compare_rvustat a b <> 0 /\
  RvU.compare_rvustat a a = -1 /\
  (RvU.key a <> RvU.key b ->
   (RvU.compare_rvustat a b < 0 <-> 0 < RvU.compare_rvustat b a)).
Proof.
  unfold RvU.compare_rvustat. split_and!.
  - destruct (Z.eqb_spec (RvU.percentage_read a) (RvU.percentage_read b));
      [|lia].
    destruct (Z.eqb_spec (Z.abs (RvU.difference b) - Z.abs (RvU.difference a))
                0); [|lia].
    by destruct (key_gt _ _).
  - rewrite Z.eqb_refl, Z.sub_diag. cbn [Z.eqb].
    destruct (key_gt (RvU.key a) (RvU.key a)) eqn:Hgt; [|done].
    pose proof (key_gt_asym _ _ Hgt). congruence.
  - intros Hne.
    destruct (Z.eqb_spec (RvU.percentage_read a) (RvU.percentage_read b))
      as [Hp|Hp].
    + rewrite Hp, Z.eqb_refl.
      destruct (Z.eqb_spec (Z.abs (RvU.difference b) - Z.abs (RvU.difference a))
                  0) as [Hd|Hd].
      * replace (Z.abs (RvU.difference a) - Z.abs (RvU.difference b))
          with 0 by lia. cbn [Z.eqb].
        destruct (key_gt (RvU.key a) (RvU.key b)) eqn:Hab;
          destruct (key_gt (RvU.key b) (RvU.key a)) eqn:Hba; try lia.
        -- pose proof (key_gt_asym _ _ Hab). congruence.
        -- by pose proof (key_gt_total _ _ Hab Hba).
      * destruct (Z.eqb_spec (Z.abs (RvU.difference a)
                              - Z.abs (RvU.difference b)) 0); lia.
    + destruct (Z.eqb_spec (RvU.percentage_read b) (RvU.percentage_read a));
        lia.
Qed.

End rvu_report_facts.

(** X6, on the group of 29 read and 21 unread books. *)
Lemma X6_percentage_is_the_truncated_percentage_or_one_less_witness :
  exists p, RvU.percentage 29 21 = inr p /\ 57 <= p <= 58.
Proof.
  destruct (X6_percentage_is_the_truncated_percentage_or_one_less 29 21
              ltac:(lia) ltac:(lia) ltac:(by vm_compute))
    as (p & Hp & Hb & _).
  exists p. split; [exact Hp|]. exact Hb.
Defined.

(** X8, on a report with one group that has no members. *)
Lemma X8_the_division_handler_ends_in_a_name_error_witness :
  let r := {| RvU.unread_count := []; RvU.read_count := [];
              RvU.grouping_count := [("empty"%string, 0)];
              RvU.ignore_single_book_groups := true;
              RvU.stats := None |} in
  (RvU.process r).2 = Some NameError /\
  RvU.stats (RvU.process r).1 = Some [].
Proof.
  intros r.
  apply (X8_the_division_handler_ends_in_a_name_error r [] []
           "empty"%string eq_refl).
  - by intros k' ?%elem_of_nil.
  - reflexivity.
Defined.

(** X10, on the sample shelf and the same shelf read backwards. *)
Lemma X10_rows_do_not_depend_on_the_order_of_the_books_witness :
  exists rows r1 r1',
    RvU.render (RvU.process (RvU.init sample_books "shelves" true true)).1
      = inr (rows, r1) /\
    RvU.render
      (RvU.process (RvU.init (reverse sample_books) "shelves" true true)).1
      = inr (rows, r1').
Proof.
  apply (X10_rows_do_not_depend_on_the_order_of_the_books
           str_key_gt_asym str_key_le_trans str_key_gt_total).
  symmetry. apply reverse_Permutation.
Defined.

(** X11, on two stats with integer keys. *)
Lemma X11_compare_rvustat_never_ties_witness :
  let a := {| RvU.key := 1; RvU.percentage_read := 50; RvU.difference := 0 |} in
  let b := {| RvU.key := 2; RvU.percentage_read := 50; RvU.difference := 0 |} in
  RvU.compare_rvustat a b <> 0 /\
  RvU.compare_rvustat a a = -1 /\
  (RvU.key a <> RvU.key b ->
   (RvU.compare_rvustat a b < 0 <-> 0 < RvU.compare_rvustat b a)).
Proof.
  intros a b.
  apply (X11_compare_rvustat_never_ties int_key_gt_asym int_key_gt_total).
Defined.

(** ** The lines of [ReadVsUnreadReport.render] *)

Section rvu_line_facts.
Context {K : Type} `{PyKey K} `{PyStr K} {Book : Type} `{BookAPI Book K}.

(** X12.  The table [ReadVsUnreadReport.render] prints has straight
    columns.  On a constructed and processed report, the line of every
    group of fewer than 100 books is exactly 47 characters long, and its
    first 30 characters are the key, cut after 30 characters and padded
    with spaces to 30: the percentage, the difference and the count of
    such a group fit the widths of their fields.  Characters are counted,
    not bytes, as Python counts them. *)
Theorem X12_lines_of_small_groups_are_47_characters_wide
    (books : list Book) (attr : string) (f1 f2 : bool) :
  let r1 := (RvU.process (RvU.init books attr f1 f2)).1 in
  exists rows,
    RvU.render r1 = inr (rows, r1) /\
    forall row, row ∈ rows -> RvU.row_count row < 100 ->
      length (render_line row) = 47%nat /\
      take 30 (render_line row)
      = ljust 30 (slice_to 30 (py_str (RvU.key (RvU.row_stat row)))).
Proof.
  intros r1. set (r := RvU.init books attr f1 f2) in *.
  pose proof (RvU_init_agree books attr f1 f2) as Hr. fold r in Hr.
  destruct (RvU_process_render r Hr) as (_ & _ & Hrender). fold r1 in Hrender.
  eexists. split; [exact Hrender|].
  intros row (st & -> & Hin)%list_elem_of_fmap.
  rewrite (sorted_Permutation RvU.compare_rvustat _) in Hin.
  apply list_elem_of_omap in Hin as (k & Hk & Hs).
  apply RvU_stat_for_key in Hs as (Hkey & Hd & Hp & _).
  cbn [row_for RvU.row_stat RvU.row_count]. rewrite Hkey. intros Hsmall.
  destruct Hr as [_ Hall]. destruct (Hall k) as (Hrd & Hur & Hsum & H5 & _).
  specialize (H5 Hk).
  destruct (percentage_bounds (dd_value (RvU.read_count r) k)
              (dd_value (RvU.unread_count r) k))
    as (p & Hp' & Hb & _); [lia..|].
  rewrite Hp in Hp'. injection Hp' as Hpeq.
  set (label := ljust 30 (slice_to 30 (py_str k))).
  pose proof (length_label (py_str k)) as Hlabel. fold label in Hlabel.
  unfold render_line. cbn [row_for RvU.row_stat RvU.row_count].
  rewrite Hkey. fold label. split.
  - rewrite !length_app, Hlabel.
    rewrite length_format_percentage by lia.
    rewrite length_format_difference by lia.
    rewrite length_format_count by lia. done.
  - by apply take_app_length'.
Qed.

End rvu_line_facts.

(** ** [BestRankedReport], from the constructor to the stats *)

Section br_report_facts.
Context {K : Type} `{PyKey K} {Book : Type} `{BookAPI Book K}.

(** X13.  When [BestRankedReport.__init__] raises.  The constructor
    returns exactly when every rating it counts is one of -5 .. -1 and
    1 .. 5, the indices that reach a counter of [[None, 0,0,0,0,0]]; it
    does when every book has no rating or one from 0 to 5.  When it
    raises, it raises at the first pair it cannot count: [TypeError] for
    the rating -6, which indexes the [None] placeholder, and [IndexError]
    for every other one. *)
Theorem X13_init_raises_on_a_rating_without_a_counter
    (books : list Book) (attr : string) (f1 f2 : bool) :
  ((exists r, BR.init books attr f1 f2 = inr r) <->
   Forall countable_rating (rated_pairs books attr f2).*2) /\
  (Forall (fun b => match rating b with
                    | Some br => 0 <= br <= 5
                    | None => True
                    end) books ->
   exists r, BR.init books attr f1 f2 = inr r) /\
  (forall e, BR.init books attr f1 f2 = inl e ->
     exists l1 k br l2,
       rated_pairs books attr f2 = l1 ++ (k, br) :: l2 /\
       Forall countable_rating l1.*2 /\ ~ countable_rating br /\
       e = (if decide (br = -6) then TypeError else IndexError)).
Proof.
  pose proof (BR_init_spec books attr f1 f2) as Hs.
  assert ((exists r, BR.init books attr f1 f2 = inr r) <->
          Forall countable_rating (rated_pairs books attr f2).*2) as Hiff.
  { destruct (BR.init books attr f1 f2) as [e|r].
    - destruct Hs as (l1 & kr & l2 & -> & _ & Hbad & _). split.
      + by intros [r [=]].
      + rewrite fmap_app, fmap_cons, Forall_app, Forall_cons. tauto.
    - split; [by destruct Hs|by eauto]. }
  split_and!; [done| |].
  - intros Hbooks. by apply Hiff, rated_pairs_countable.
  - intros e He. rewrite He in Hs.
    destruct Hs as (l1 & [k br] & l2 & Hl & Hok & Hbad & ->).
    exists l1, k, br, l2. split_and!; [done..|].
    unfold rating_error. cbn [snd] in *.
    assert (br <> 0) as Hne.
    { intros ->. assert ((k, 0) ∈ rated_pairs books attr f2) as Hin
        by (rewrite Hl; apply elem_of_app; right; left).
      by apply rated_pairs_in in Hin as (b & _ & _ & ? & _). }
    destruct (decide (br = -6)) as [->|Hn6]; [done|].
    rewrite decide_False; [done|]. by intros [?|?].
Qed.

(** X14.  What [BestRankedReport.__init__] counts.  A book counts when
    its rating is neither [None] nor [0], once for each key it yields
    that is kept.  For every key, [rated_count] holds the number of
    counted pairs with that key and [cumulative_rating] the sum of their
    ratings; both tables list the keys in the order of their first
    counted pair.  The flag is stored and there are no stats yet. *)
Theorem X14_init_counts_the_rated_books
    (books : list Book) (attr : string) (f1 f2 : bool)
    (r : BR.BestRankedReport K) (Hr : BR.init books attr f1 f2 = inr r)
    (k : K) :
  let pairs := rated_pairs books attr f2 in
  dd_value (BR.rated_count r) k = occurrences k pairs.*1 /\
  dd_value (BR.cumulative_rating r) k = sum_list (ratings_of k pairs) /\
  dd_keys (BR.rated_count r) = first_occurrences pairs.*1 /\
  dd_keys (BR.cumulative_rating r) = first_occurrences pairs.*1 /\
  BR.ignore_single_book_groups r = f1 /\ BR.stats r = None.
Proof.
  intros pairs. apply BR_init_counted in Hr as [_ (Hf & Hs & Hrc & Hcr & _)].
  fold pairs in Hrc, Hcr. rewrite Hrc, Hcr.
  rewrite tally_value, cumulate_value, cumulate_keys, tally_keys.
  by split_and!.
Qed.

(** X15.  The histogram of a group.  In a constructed report every key of
    [rated_count] has a histogram in [rating_groupings], the placeholder
    and five counters; the counter in slot [i] is the number of counted
    ratings of the group that index it, which are [i] and [i - 6]; the
    five counters add up to the rated count of the group, and, when no
    rating of the group is negative, the counters weighted by their slots
    add up to its cumulative rating.  A key that is not in [rated_count]
    has no histogram. *)
Theorem X15_init_keeps_a_histogram_for_each_group
    (books : list Book) (attr : string) (f1 f2 : bool)
    (r : BR.BestRankedReport K) (Hr : BR.init books attr f1 f2 = inr r)
    (k : K) :
  let rs := ratings_of k (rated_pairs books attr f2) in
  (k ∉ dd_keys (BR.rated_count r) ->
   assoc_find (BR.rating_groupings r) k = None) /\
  (k ∈ dd_keys (BR.rated_count r) ->
   assoc_find (BR.rating_groupings r) k
     = Some [None; Some (in_slot 1 rs); Some (in_slot 2 rs);
             Some (in_slot 3 rs); Some (in_slot 4 rs); Some (in_slot 5 rs)] /\
   in_slot 1 rs + in_slot 2 rs + in_slot 3 rs + in_slot 4 rs + in_slot 5 rs
     = dd_value (BR.rated_count r) k /\
   (Forall (fun br => 0 <= br) rs ->
    1 * in_slot 1 rs + 2 * in_slot 2 rs + 3 * in_slot 3 rs
      + 4 * in_slot 4 rs + 5 * in_slot 5 rs
    = dd_value (BR.cumulative_rating r) k)).
Proof.
  intros rs. apply BR_init_counted in Hr as [Hok (_ & _ & Hrc & Hcr & Hrg)].
  rewrite Hrc, Hcr, tally_keys, first_occurrences_elem_of, Hrg.
  assert (Forall countable_rating rs) as Hrs.
  { apply Forall_forall. intros br Hbr%ratings_of_elem_of.
    rewrite Forall_forall in Hok. apply Hok.
    apply list_elem_of_fmap. by exists (k, br). }
  split.
  - intros Hk. by rewrite decide_False.
  - intros Hk. rewrite decide_True by done. split_and!; [done| |].
    + rewrite tally_value, <- ratings_of_length.
      rewrite histogram_of_total by done. unfold dd_value. cbn.
      fold rs. lia.
    + intros Hpos. rewrite cumulate_value. apply histogram_of_weighted.
      rewrite Forall_forall in Hrs, Hpos |- *. intros br Hbr.
      destruct (Hrs br Hbr) as [? ?]. specialize (Hpos br Hbr). lia.
Qed.

(** X16.  What [BestRankedReport.process] stores.  On a constructed
    report it ends normally, and [stats] holds one stat for each key of
    [rated_count], in the order of that table, except that the groups
    with exactly one rated book are left out when
    [ignore_single_book_groups] is set.  A stat holds the rated count of
    its key, and its average is the cumulative rating of the key divided
    by that count, in one float division. *)
Theorem X16_process_keeps_one_stat_per_rated_group
    (books : list Book) (attr : string) (f1 f2 : bool)
    (r : BR.BestRankedReport K) (Hr : BR.init books attr f1 f2 = inr r) :
  exists l,
    (BR.process r).2 = None /\ BR.stats (BR.process r).1 = Some l /\
    BR.key <$> l
    = filter (fun k => ~ (f1 = true /\ dd_value (BR.rated_count r) k = 1))
             (dd_keys (BR.rated_count r)) /\
    forall st, st ∈ l ->
      BR.number_of_books_rated st = dd_value (BR.rated_count r) (BR.key st) /\
      PyFloat.true_div (dd_value (BR.cumulative_rating r) (BR.key st))
                       (BR.number_of_books_rated st)
      = inr (BR.average_rating st).
Proof.
  apply BR_init_agree in Hr as (Hr & Hflag & _).
  destruct (BR_process_stats r Hr) as [Hnone Hst]. rewrite Hflag in Hst.
  eexists. split_and!; [done..| |].
  - rewrite BR_omap_stat_for_keys.
    + unfold dd_keys. rewrite <- filter_fst_fmap. f_equal.
      apply filter_ext_in. intros [k n] Hin. cbn [fst snd].
      by apply (tables_agree_items r k n Hr) in Hin as (-> & _).
    + intros k n Hin. by apply (tables_agree_items r k n Hr) in Hin as (_ & ? & ?).
  - intros st ([k n] & Hin & Hs)%list_elem_of_omap.
    apply BR_stat_for_item in Hs as (-> & -> & Hav & _). cbn [fst snd] in *.
    by apply (tables_agree_items r k n Hr) in Hin as (-> & _).
Qed.

(** X17.  The average of a group lies between its ratings.  On a
    constructed report, when every counted rating of a group is between
    [lo] and [hi], with [lo] not negative, the [average_rating] of its
    stat is a float without the minus sign whose exact value is between
    [lo] and [hi], whatever the division rounds; so the average of a
    group whose books all have one rating is exactly that rating, and
    with ratings from 1 to 5 every average is between 1 and 5. *)
Theorem X17_average_lies_between_the_ratings
    (books : list Book) (attr : string) (f1 f2 : bool)
    (r : BR.BestRankedReport K) (Hr : BR.init books attr f1 f2 = inr r)
    (lo hi : Z) (Hlo : 0 <= lo) :
  exists l,
    BR.stats (BR.process r).1 = Some l /\
    forall st, st ∈ l ->
      Forall (fun br => lo <= br <= hi)
             (ratings_of (BR.key st) (rated_pairs books attr f2)) ->
      PyFloat.between lo hi (BR.average_rating st).
Proof.
  pose proof (BR_init_counted books attr f1 f2 r Hr)
    as [Hok (_ & _ & Hrc & Hcr & _)].
  apply BR_init_agree in Hr as (Hr & Hflag & _).
  destruct (BR_process_stats r Hr) as [_ Hst].
  eexists. split; [exact Hst|].
  intros st ([k n] & Hin & Hs)%list_elem_of_omap Hrs.
  apply BR_stat_for_item in Hs as (Hkey & _ & Hav & _). cbn [fst snd] in *.
  rewrite Hkey in Hrs.
  apply (tables_agree_items r k n Hr) in Hin as (Hn & Hn1 & _).
  set (rs := ratings_of k (rated_pairs books attr f2)) in *.
  assert (Forall countable_rating rs) as Hcount.
  { apply Forall_forall. intros br Hbr%ratings_of_elem_of.
    rewrite Forall_forall in Hok. apply Hok.
    apply list_elem_of_fmap. by exists (k, br). }
  assert (n = Z.of_nat (length rs)) as Hlen.
  { rewrite <- Hn, Hrc, tally_value. unfold rs.
    rewrite ratings_of_length. unfold dd_value. cbn. lia. }
  assert (Forall (fun br => lo <= br <= Z.min hi 5) rs) as Hrs'.
  { rewrite Forall_forall in Hrs, Hcount |- *. intros br Hbr.
    specialize (Hrs br Hbr). destruct (Hcount br Hbr) as [? _]. lia. }
  assert (lo <= Z.min hi 5) as Hlh.
  { destruct rs as [|br rs']; [cbn in Hlen; lia|].
    apply Forall_cons in Hrs' as [? _]. lia. }
  pose proof (sum_list_bounds lo (Z.min hi 5) rs Hrs') as Hsum.
  rewrite <- Hlen in Hsum.
  rewrite Hcr, cumulate_value in Hav. fold rs in Hav.
  destruct (true_div_between lo (Z.min hi 5) (sum_list rs) n)
    as (q & Hq & Hb); [lia|lia|lia|lia|].
  rewrite Hav in Hq. injection Hq as <-.
  apply (between_weaken lo (Z.min hi 5)); [lia|lia|done].
Qed.

(** X18.  The stats do not depend on the order of the books.  When the
    constructor returns for a collection of books, it returns for the
    same books in any other order, and [process] then stores the same
    stats, the averages bit for bit, in a possibly different order: the
    sum and the count of a group do not depend on the order in which its
    books come. *)
Theorem X18_stats_do_not_depend_on_the_order_of_the_books
    (books books' : list Book) (attr : string) (f1 f2 : bool)
    (Hbooks : books ≡ₚ books')
    (r : BR.BestRankedReport K) (Hr : BR.init books attr f1 f2 = inr r) :
  exists r' l l',
    BR.init books' attr f1 f2 = inr r' /\
    BR.stats (BR.process r).1 = Some l /\
    BR.stats (BR.process r').1 = Some l' /\ l ≡ₚ l'.
Proof.
  pose proof (BR_init_counted _ _ _ _ _ Hr) as [Hok _].
  assert (rated_pairs books attr f2 ≡ₚ rated_pairs books' attr f2) as Hpairs
    by (unfold rated_pairs; by rewrite Hbooks).
  pose proof (BR_init_spec books' attr f1 f2) as Hs.
  destruct (BR.init books' attr f1 f2) as [e|r'] eqn:Hr'.
  { destruct Hs as (l1 & kr & l2 & Hl & _ & Hbad & _). exfalso. apply Hbad.
    rewrite Forall_forall in Hok. apply Hok. rewrite Hpairs, Hl.
    rewrite fmap_app, fmap_cons. apply elem_of_app. right. left. }
  pose proof (BR_stats_Permutation books books' attr f1 f2 r r' Hbooks Hr Hr')
    as Hperm.
  apply BR_init_agree in Hr as (Hagree & _).
  apply BR_init_agree in Hr' as (Hagree' & _).
  destruct (BR_process_stats r Hagree) as [_ Hst].
  destruct (BR_process_stats r' Hagree') as [_ Hst'].
  eexists _, _, _. split_and!; [done|exact Hst|exact Hst'|exact Hperm].
Qed.

End br_report_facts.

(** X14, on the sample shelf and the key "sf". *)
Lemma X14_init_counts_the_rated_books_witness :
  exists r,
    BR.init sample_books "shelves" false true = inr r /\
    dd_value (BR.rated_count r) "sf"%string = 1 /\
    dd_value (BR.cumulative_rating r) "sf"%string = 4.
Proof.
  eexists. split; [reflexivity|].
  pose proof (X14_init_counts_the_rated_books sample_books "shelves"
                false true _ eq_refl "sf"%string) as (Hc & Hs & _).
  split; [exact Hc|exact Hs].
Defined.

(** X15, on the sample shelf and the key "sf". *)
Lemma X15_init_keeps_a_histogram_for_each_group_witness :
  exists r,
    BR.init sample_books "shelves" false true = inr r /\
    assoc_find (BR.rating_groupings r) "sf"%string
      = Some [None; Some 0; Some 0; Some 0; Some 1; Some 0].
Proof.
  eexists. split; [reflexivity|].
  pose proof (X15_init_keeps_a_histogram_for_each_group sample_books
                "shelves" false true _ eq_refl "sf"%string) as [_ Hin].
  destruct Hin as (Hh & _); [vm_compute; left|]. exact Hh.
Defined.

(** X16, on the sample shelf. *)
Lemma X16_process_keeps_one_stat_per_rated_group_witness :
  exists r l,
    BR.init sample_books "shelves" true true = inr r /\
    BR.stats (BR.process r).1 = Some l /\ BR.key <$> l = [].
Proof.
  assert (exists r, BR.init sample_books "shelves" true true = inr r)
    as [r Hr] by (eexists; reflexivity).
  destruct (X16_process_keeps_one_stat_per_rated_group sample_books
              "shelves" true true r Hr) as (l & _ & Hst & Hkeys & _).
  exists r, l. split; [exact Hr|]. split; [exact Hst|].
  rewrite Hkeys. injection Hr as <-. reflexivity.
Defined.

(** X17, on the sample shelf, whose ratings are 4 and 5. *)
Lemma X17_average_lies_between_the_ratings_witness :
  exists r l,
    BR.init sample_books "shelves" false true = inr r /\
    BR.stats (BR.process r).1 = Some l /\
    forall st, st ∈ l ->
      Forall (fun br => 4 <= br <= 5)
             (ratings_of (BR.key st)
                (rated_pairs sample_books "shelves" true)) ->
      PyFloat.between 4 5 (BR.average_rating st).
Proof.
  assert (exists r, BR.init sample_books "shelves" false true = inr r)
    as [r Hr] by (eexists; reflexivity).
  destruct (X17_average_lies_between_the_ratings sample_books "shelves"
              false true r Hr 4 5 ltac:(lia)) as (l & Hst & Hall).
  exists r, l. split; [exact Hr|]. split; [exact Hst|exact Hall].
Defined.

(** X18, on the sample shelf and the same shelf read backwards. *)
Lemma X18_stats_do_not_depend_on_the_order_of_the_books_witness :
  exists r r' l l',
    BR.init sample_books "shelves" false true = inr r /\
    BR.init (reverse sample_books) "shelves" false true = inr r' /\
    BR.stats (BR.process r).1 = Some l /\
    BR.stats (BR.process r').1 = Some l' /\ l ≡ₚ l'.
Proof.
  assert (exists r, BR.init sample_books "shelves" false true = inr r)
    as [r Hr] by (eexists; reflexivity).
  destruct (X18_stats_do_not_depend_on_the_order_of_the_books sample_books
              (reverse sample_books) "shelves" false true
              (symmetry (reverse_Permutation sample_books)) r Hr)
    as (r' & l & l' & Hr' & Hst & Hst' & Hperm).
  exists r, r', l, l'. by split_and!.
Defined.

(** ** [compare_brstat] *)

Section brstat_order_facts.
Context {K : Type} `{PyKey K} {Book : Type} `{BookAPI Book K}.

(** X19.  [compare_brstat] is antisymmetric, the rounding included.  For
    any two stats, comparing them the other way round raises the same
    exception or returns the opposite integer: the float difference the
    other way round is the opposite float, the product by 1000 and the
    truncation keep that, and two equal averages are told apart by the
    counts. *)
Theorem X19_compare_brstat_is_antisymmetric (a b : BR.BestRankedStat K) :
  BR.compare_brstat b a = opposite (BR.compare_brstat a b).
Proof.
  unfold BR.compare_brstat, PyFloat.float_eqb.
  rewrite (SFeqb_sym (BR.average_rating a) (BR.average_rating b)).
  destruct (SFeqb _ _).
  - cbn. f_equal. lia.
  - unfold PyFloat.float_mul, PyFloat.float_sub.
    destruct (SFsub_swap (BR.average_rating b) (BR.average_rating a))
      as [->|[-> ->]].
    + by rewrite SFmul_opp_r, int_of_float_opp.
    + reflexivity.
Qed.

(** X20.  Ranking the stats of a report never raises.  On a constructed
    and processed report the averages are floats of magnitude at most 5,
    so for any two of its stats the difference, its product by 1000 and
    the truncation are defined: [compare_brstat] returns an integer, of
    magnitude at most 10000 when the two averages differ. *)
Theorem X20_compare_brstat_returns_on_the_stats_of_a_report
    (books : list Book) (attr : string) (f1 f2 : bool)
    (r : BR.BestRankedReport K) (Hr : BR.init books attr f1 f2 = inr r) :
  exists l,
    BR.stats (BR.process r).1 = Some l /\
    forall a b, a ∈ l -> b ∈ l ->
      exists z, BR.compare_brstat a b = inr z /\
        (PyFloat.float_eqb (BR.average_rating a) (BR.average_rating b) = false
         -> Z.abs z <= 10000).
Proof.
  pose proof (BR_init_agree _ _ _ _ _ Hr) as (Hagree & _).
  destruct (BR_process_stats r Hagree) as [_ Hst].
  eexists. split; [exact Hst|]. intros a b Ha Hb.
  pose proof (BR_average_magnitude books attr f1 f2 r a _ Hr Hst Ha) as Hma.
  pose proof (BR_average_magnitude books attr f1 f2 r b _ Hr Hst Hb) as Hmb.
  unfold BR.compare_brstat.
  destruct (PyFloat.float_eqb _ _); [by eexists|].
  pose proof (SFsub_magnitude 5 _ _ ltac:(lia) ltac:(lia) Hmb Hma) as Hd.
  pose proof (SFmul_magnitude 1000 (2 * 5) _ _ ltac:(lia) ltac:(lia)
                ltac:(lia) float_of_int_1000_magnitude Hd) as Hm.
  apply int_of_float_between in Hm as (z & Hz & Hzb & _).
  exists z. split; [exact Hz|]. intros _. lia.
Qed.

(** X21.  [compare_brstat] ranks the higher average first.  Whenever it
    returns, the result is not positive if the average of [a] is exactly
    greater than that of [b], so that [sorted] does not put [b] before
    [a] on account of it, and not negative if it is exactly less; when
    the two averages are equal floats the result is the rated count of
    [b] less that of [a], the larger group first. *)
Theorem X21_compare_brstat_puts_the_higher_average_first
    (a b : BR.BestRankedStat K) (z : Z)
    (Hz : BR.compare_brstat a b = inr z) :
  (PyFloat.value_lt (BR.average_rating b) (BR.average_rating a) -> z <= 0) /\
  (PyFloat.value_lt (BR.average_rating a) (BR.average_rating b) -> 0 <= z) /\
  (PyFloat.float_eqb (BR.average_rating a) (BR.average_rating b) = true ->
   z = BR.number_of_books_rated b - BR.number_of_books_rated a).
Proof.
  unfold BR.compare_brstat, PyFloat.float_eqb in *.
  destruct (SFeqb (BR.average_rating a) (BR.average_rating b)) eqn:Heq.
  - injection Hz as <-. split_and!; [| |done].
    + intros Hlt. exfalso. rewrite <- SFeqb_sym in Heq.
      by apply SFeqb_value in Heq.
    + intros Hlt. exfalso. by apply SFeqb_value in Heq.
  - unfold PyFloat.float_mul, PyFloat.float_sub in Hz.
    split_and!; [| |done].
    + intros [Hs _]%SFsub_signed.
      apply (int_of_float_signed true _ _ (SFmul_signed _ _ Hs) Hz).
    + intros [_ Hs]%SFsub_signed.
      apply (int_of_float_signed false _ _ (SFmul_signed _ _ Hs) Hz).
Qed.

End brstat_order_facts.

(** X20, on the sample shelf. *)
Lemma X20_compare_brstat_returns_on_the_stats_of_a_report_witness :
  exists r l,
    BR.init sample_books "shelves" false true = inr r /\
    BR.stats (BR.process r).1 = Some l /\
    forall a b, a ∈ l -> b ∈ l -> exists z, BR.compare_brstat a b = inr z.
Proof.
  assert (exists r, BR.init sample_books "shelves" false true = inr r)
    as [r Hr] by (eexists; reflexivity).
  destruct (X20_compare_brstat_returns_on_the_stats_of_a_report sample_books
              "shelves" false true r Hr) as (l & Hst & Hall).
  exists r, l. split; [exact Hr|]. split; [exact Hst|].
  intros a b Ha Hb. destruct (Hall a b Ha Hb) as (z & Hz & _). by exists z.
Defined.

(** X21, on a group of one book rated 5 and a group of two books rated
    4. *)
Lemma X21_compare_brstat_puts_the_higher_average_first_witness :
  let a := {| BR.key := "a"%string;
              BR.average_rating := PyFloat.float_of_int 5;
              BR.number_of_books_rated := 1 |} in
  let b := {| BR.key := "b"%string;
              BR.average_rating := PyFloat.float_of_int 4;
              BR.number_of_books_rated := 2 |} in
  BR.compare_brstat a b = inr (-1000) /\
  (PyFloat.value_lt (BR.average_rating b) (BR.average_rating a) ->
   -1000 <= 0).
Proof.
  intros a b. split; [reflexivity|].
  pose proof (X21_compare_brstat_puts_the_higher_average_first a b (-1000)
                eq_refl) as (Hhigher & _).
  exact Hhigher.
Defined.

(** X22.  [compare_brstat] is not transitive on the stats of a report.
    Averages that differ by less than a thousandth compare as equal,
    whatever the counts, and that is not an equivalence: there are books
    whose report has three groups of which the first ties with the second
    and the second with the third, while the first comes after the third.
    The groups of the proof have 41, 40 and 39 books, all rated 3 but for
    one rated 4. *)
Theorem X22_compare_brstat_is_not_transitive :
  exists (books : list BookView) r a b c,
    BR.init books "shelves" false true = inr r /\
    BR.stats (BR.process r).1 = Some [a; b; c] /\
    BR.compare_brstat a b = inr 0 /\
    BR.compare_brstat b c = inr 0 /\
    BR.compare_brstat a c = inr 1.
Proof.
  exists (rated_shelf "a" 40 ++ rated_shelf "b" 39 ++ rated_shelf "c" 38).
  eexists _, _, _, _. split; [by vm_compute|]. split; [by vm_compute|].
  by vm_compute.
Qed.

(** ** [get_keys_to_books_dict] *)

Section keys_to_books_dict_facts.
Context {K : Type} `{PyKey K} {Book : Type} `{BookAPI Book K}.
Context `{EqDecision Book}.

(** X23.  What [get_keys_to_books_dict] returns.  Under a key the dict
    holds the set of the books that yield the key, provided the key is
    truthy or undefined groups are not ignored: a book is in the set
    exactly when it is one of the books and yields the key, each book is
    there once however often it yields the key, and no set is empty.  A
    key has no entry when no book yields it or when it is left out as
    undefined. *)
Theorem X23_keys_to_books_holds_the_books_of_each_key
    (books : list Book) (attr : string) (flag : bool) (k : K) :
  match assoc_find (get_keys_to_books_dict books attr flag) k with
  | Some s =>
      NoDup s /\ s <> [] /\ truthy k || negb flag = true /\
      forall b, b ∈ s <-> b ∈ books /\ k ∈ property_as_sequence b attr
  | None =>
      truthy k || negb flag = false \/
      forall b, b ∈ books -> k ∉ property_as_sequence b attr
  end.
Proof.
  rewrite get_keys_to_books_dict_pairs.
  destruct (ds_add_all (keyed_books books attr flag)) as [_ ->].
  assert (forall b, (k, b) ∈ keyed_books books attr flag <->
            kept flag k = true /\ b ∈ books /\
            k ∈ property_as_sequence b attr) as Hpair.
  { intros b. rewrite keyed_books_in. unfold kept_keys.
    rewrite list_elem_of_filter, Is_true_true. tauto. }
  destruct (decide (k ∈ (keyed_books books attr flag).*1)) as [Hin|Hin].
  - apply list_elem_of_fmap in Hin as ([k' b0] & -> & Hin). cbn [fst] in *.
    pose proof (proj1 (Hpair b0) Hin) as (Hk & _).
    split_and!; [apply first_occurrences_NoDup| |exact Hk|].
    + intros Hnil.
      assert (b0 ∈ first_occurrences (books_of k' (keyed_books books attr flag)))
        as Hb0 by (by apply first_occurrences_elem_of, books_of_elem_of).
      rewrite Hnil in Hb0. by apply elem_of_nil in Hb0.
    + intros b. rewrite first_occurrences_elem_of, books_of_elem_of, Hpair.
      tauto.
  - destruct (kept flag k) eqn:Hk; [right|by left].
    intros b Hb Hseq. apply Hin, list_elem_of_fmap. exists (k, b).
    split; [done|]. by apply Hpair.
Qed.

(** X24.  [get_keys_to_books_dict] and [ReadVsUnreadReport] make the
    same groups.  For the same books, attribute and
    [ignore_undefined_book_groups], the dict and [grouping_count] have
    the same keys in the same order; the set of a key has at most as many
    books as the group counts, and exactly as many when no book is given
    twice and no book yields a key twice. *)
Theorem X24_keys_to_books_agrees_with_the_report
    (books : list Book) (attr : string) (f1 flag : bool) :
  let d := get_keys_to_books_dict books attr flag in
  let r := RvU.init books attr f1 flag in
  d.*1 = dd_keys (RvU.grouping_count r) /\
  forall k s, assoc_find d k = Some s ->
    Z.of_nat (length s) <= dd_value (RvU.grouping_count r) k /\
    (NoDup books ->
     (forall b, b ∈ books -> NoDup (property_as_sequence b attr)) ->
     Z.of_nat (length s) = dd_value (RvU.grouping_count r) k).
Proof.
  intros d r. unfold d. rewrite get_keys_to_books_dict_pairs.
  destruct (ds_add_all (keyed_books books attr flag)) as [-> Hfind].
  destruct (RvU_init_tables books attr f1 flag) as (Hg & _). fold r in Hg.
  rewrite Hg, tally_keys, keyed_books_keys. split; [done|].
  intros k s. rewrite Hfind. case_decide as Hin; [|done]. intros [= <-].
  rewrite tally_value. unfold dd_value at 1 2. cbn [dd_find default].
  rewrite !Z.add_0_l, <- keyed_books_keys.
  rewrite <- books_of_length.
  split.
  - pose proof (first_occurrences_length
                  (books_of k (keyed_books books attr flag))). lia.
  - intros Hbooks Hseqs. rewrite first_occurrences_NoDup_id; [done|].
    unfold books_of. apply NoDup_fmap_2_strong.
    + intros [k1 b1] [k2 b2] [Hk1 _]%list_elem_of_filter
        [Hk2 _]%list_elem_of_filter. cbn in *. congruence.
    + apply NoDup_filter. unfold keyed_books. apply NoDup_bind; [| |done].
      * intros b1 b2 [k' b'] _ _
          (? & [= _ ->] & _)%list_elem_of_fmap
          (? & [= _ ->] & _)%list_elem_of_fmap. done.
      * intros b Hb. apply NoDup_fmap_2; [by intros ?? [= ->]|].
        unfold kept_keys. by apply NoDup_filter, Hseqs.
Qed.

End keys_to_books_dict_facts.
